(** * The parallel fuzz-test runner of [scripts/fuzz.py]

    A shallow embedding of the runner: the configuration and the
    worker-count rule, target discovery over a read-only file tree, the
    execution sandbox ([_run_single_fuzz_test]) in a state-and-exception
    monad over the failure sink, the thread pool of [run_fuzz_tests] as a
    transition system driven by a schedule, and the exit code of [run].

    Conventions.  Python integers are [Z].  Text is [string], its
    characters those of code points below 256; what the classes [\s]
    and [\w] of the discovery pattern hold is left to the [re] module
    and is a parameter of discovery.  Calls of [self.logger]
    are left out: the [logging] handlers report their own I/O errors
    instead of raising them, and nothing reads what they print; what
    the arguments of such a call evaluate is kept.  Clock readings are
    floating point in the source; here the environment supplies them
    ready made. *)

From Stdlib Require Import ZArith List String Ascii Bool Lia DecimalString Sorted.
From stdpp Require Import base option list strings gmap.
Import ListNotations.
Local Open Scope Z_scope.

(** ** Python primitives *)
Module Py.

(** The exceptions the runner tells apart: [KeyboardInterrupt] is not an
    [Exception]; [TimeoutExpired] has a handler of its own; every other
    exception is kept by the text [str(e)] gives. *)
Inductive Exn : Type :=
| KeyboardInterrupt
| TimeoutExpired
| Exception (text : string).

Definition is_Exception (e : Exn) : bool :=
  match e with
  | KeyboardInterrupt => false
  | _ => true
  end.

(** [f"{e}"] *)
Definition str_exn (e : Exn) : string :=
  match e with
  | KeyboardInterrupt => ""
  | TimeoutExpired => "Command timed out"
  | Exception text => text
  end.

(** What an expression does: a value, or a raised exception. *)
Inductive Outcome (A : Type) : Type :=
| Ok (a : A)
| Raise (e : Exn).
Arguments Ok {A} a.
Arguments Raise {A} e.

(** What a call into the operating system does in a worker thread: it
    returns, or raises an [OSError], kept by its text. *)
Inductive Try (A : Type) : Type :=
| Got (a : A)
| Failed (text : string).
Arguments Got {A} a.
Arguments Failed {A} text.

Definition of_try {A} (t : Try A) : Outcome A :=
  match t with
  | Got a => Ok a
  | Failed text => Raise (Exception text)
  end.

(** [a // b] *)
Definition floordiv (a b : Z) : Outcome Z :=
  if b =? 0 then Raise (Exception "integer division or modulo by zero")
  else Ok (a / b).

(** [str(n)] *)
Definition str_int (n : Z) : string := NilZero.string_of_int (Z.to_int n).

(** Truth value of a string: non-empty. *)
Definition truthy (s : string) : bool :=
  match s with
  | EmptyString => false
  | String _ _ => true
  end.

(** Truth value of an [Optional[str]]. *)
Definition truthy_opt (s : option string) : bool :=
  match s with
  | Some t => truthy t
  | None => false
  end.

(** [x or d] on an [Optional[int]]: [None] and [0] are both false. *)
Definition int_or (x : option Z) (d : Z) : Z :=
  match x with
  | Some n => if n =? 0 then d else n
  | None => d
  end.

(** State and exceptions: the monad of the effectful methods. *)
Definition M (S A : Type) : Type := S -> Outcome A * S.

Definition ret {S A} (a : A) : M S A := fun s => (Ok a, s).

Definition raise {S A} (e : Exn) : M S A := fun s => (Raise e, s).

Definition bind {S A B} (m : M S A) (k : A -> M S B) : M S B :=
  fun s =>
    match m s with
    | (Ok a, s') => k a s'
    | (Raise e, s') => (Raise e, s')
    end.

(** [try: m  except <handles>: h e]; an exception the clause does not
    name goes on unwinding.  The state reached when the exception was
    raised is kept. *)
Definition try_except {S A} (m : M S A) (handles : Exn -> bool)
           (h : Exn -> M S A) : M S A :=
  fun s =>
    match m s with
    | (Ok a, s') => (Ok a, s')
    | (Raise e, s') => if handles e then h e s' else (Raise e, s')
    end.

Definition lift {S A} (o : Outcome A) : M S A := fun s => (o, s).

Definition modify {S} (f : S -> S) : M S unit := fun s => (Ok tt, f s).

Definition when {S} (b : bool) (m : M S unit) : M S unit :=
  if b then m else ret tt.

End Py.
Import Py.

Notation "x <- m ;; k" := (Py.bind m (fun x => k))
  (at level 100, m at next level, right associativity).
Notation "m ;;; k" := (Py.bind m (fun _ => k))
  (at level 100, right associativity).

(** ** Data model *)

(** [class FuzzTarget(NamedTuple)] *)
Module FuzzTarget.
Record t : Type := make {
  directory : string;
  function : string;
  file_path : string
}.
End FuzzTarget.

(** A clock difference [time.time() - start_time] together with its
    rendering by the format [:.1f]. *)
Record Elapsed : Type := { micros : Z; fmt1 : string }.

(** [class FuzzResult(NamedTuple)] *)
Module FuzzResult.
Record t : Type := make {
  target : FuzzTarget.t;
  success : bool;
  duration : Elapsed;
  output : string;
  error : string
}.
End FuzzResult.

(** [class FuzzConfig] *)
Module FuzzConfig.
Record t : Type := make {
  fuzz_time : Z;
  jobs : Z;
  error_file : option string;
  continue_on_failure : bool;
  verbose : bool;
  config_dir : string
}.

(** [FuzzConfig.__init__] *)
Definition init : t :=
  {| fuzz_time := 10;
     jobs := 0;
     error_file := None;
     continue_on_failure := false;
     verbose := false;
     config_dir := "./shared" |}.
End FuzzConfig.

(** ** The configuration from the environment and the command line *)
Module Cli.

(** What [parser.parse_args()] returns: an option that was not given is
    [None] (or [False] for the two switches). *)
Record Args : Type := {
  time : option Z;
  jobs : option Z;
  error_file : option string;
  continue_on_failure : bool;
  verbose : bool;
  config_dir : option string
}.

(** [str.lower] on ASCII text. *)
Definition lower_char (c : ascii) : ascii :=
  let n := nat_of_ascii c in
  if ((65 <=? n) && (n <=? 90))%nat then ascii_of_nat (n + 32) else c.

Fixpoint lower (s : string) : string :=
  match s with
  | EmptyString => EmptyString
  | String c rest => String (lower_char c) (lower rest)
  end.

(** [os.environ.get(key, '').lower() == 'true'] *)
Definition env_flag (environ : gmap string string) (key : string) : bool :=
  String.eqb (lower (default "" (environ !! key))) "true".

Section FromEnvAndArgs.

(** [int(s)] on a string: the number, or [ValueError]. *)
Variable int : string -> Outcome Z.

(** [from_env_and_args], given the environment and the parsed command
    line.  The two numbers of the environment are converted first, in
    the order of the source, and a conversion that raises ends the
    call. *)
Definition from_env_and_args (environ : gmap string string) (args : Args)
  : Outcome FuzzConfig.t :=
  let config := FuzzConfig.init in
  match (match environ !! "FUZZ_TIME" with
         | Some s => int s
         | None => Ok (FuzzConfig.fuzz_time config)
         end) with
  | Raise e => Raise e
  | Ok env_time =>
      match (match environ !! "FUZZ_JOBS" with
             | Some s => if truthy s then int s
                         else Ok (FuzzConfig.jobs config)
             | None => Ok (FuzzConfig.jobs config)
             end) with
      | Raise e => Raise e
      | Ok env_jobs =>
          let env_error_file :=
            match environ !! "FUZZ_ERROR_FILE" with
            | Some s => Some s
            | None => FuzzConfig.error_file config
            end in
          let env_config_dir :=
            default (FuzzConfig.config_dir config)
                    (environ !! "FUZZ_CONFIG_DIR") in
          Ok {| FuzzConfig.fuzz_time := default env_time (time args);
                FuzzConfig.jobs := default env_jobs (jobs args);
                FuzzConfig.error_file :=
                  match error_file args with
                  | Some f => Some f
                  | None => env_error_file
                  end;
                FuzzConfig.continue_on_failure :=
                  if continue_on_failure args then true
                  else env_flag environ "FUZZ_CONTINUE_ON_FAILURE";
                FuzzConfig.verbose :=
                  if verbose args then true
                  else env_flag environ "FUZZ_VERBOSE";
                FuzzConfig.config_dir :=
                  default env_config_dir (config_dir args) |}
      end
  end.

End FromEnvAndArgs.

End Cli.

(** ** The runner object *)
Module FuzzRunner.

Record t : Type := make {
  config : FuzzConfig.t;
  cpu_cores : Z;
  jobs : Z;
  (** [self.error_file_handle] is not [None] *)
  error_file_handle : bool
}.

(** [_determine_jobs], from the configuration and [self.cpu_cores]. *)
Definition _determine_jobs (config : FuzzConfig.t) (cpu_cores : Z) : Z :=
  if FuzzConfig.jobs config >? 0 then FuzzConfig.jobs config
  else if cpu_cores >? 8 then 4
  else if cpu_cores >? 4 then 2
  else 1.

(** [__init__]; [cpu_count] is what [os.cpu_count()] returns.  Opening
    the error file is taken to succeed. *)
Definition init (config : FuzzConfig.t) (cpu_count : option Z) : t :=
  let cpu_cores := int_or cpu_count 4 in
  {| config := config;
     cpu_cores := cpu_cores;
     jobs := _determine_jobs config cpu_cores;
     error_file_handle := truthy_opt (FuzzConfig.error_file config) |}.

End FuzzRunner.

(** ** The failure sink *)

(** What can go wrong in [_log_error]: [write] raises before anything is
    buffered (a character the encoding of the file lacks), or [flush]
    raises (a full disk) and the record stays in the buffer of the
    file object.  A record goes to the buffer, and from there to the
    file, as a whole. *)
Inductive Fault : Type :=
| WriteRaises (text : string)
| FlushRaises (text : string).

(** The error file as the runner sees it: the records that have reached
    the file, the records still in the buffer of the file object, and
    what the next calls of [_log_error] will meet: [Some fault] makes
    the call raise, [None], or no entry, lets it succeed. *)
Record Sink : Type := {
  written : list string;
  buffered : list string;
  faults : list (option Fault)
}.

(** [write(line)] followed by [flush()]: a flush that succeeds takes
    the whole buffer to the file, the records of earlier failed flushes
    first. *)
Definition sink_write (line : string) : M Sink unit :=
  fun s =>
    match faults s with
    | Some (WriteRaises text) :: rest =>
        (Raise (Exception text),
         {| written := written s; buffered := buffered s; faults := rest |})
    | Some (FlushRaises text) :: rest =>
        (Raise (Exception text),
         {| written := written s; buffered := buffered s ++ [line];
            faults := rest |})
    | None :: rest =>
        (Ok tt, {| written := written s ++ buffered s ++ [line];
                   buffered := []; faults := rest |})
    | [] =>
        (Ok tt, {| written := written s ++ buffered s ++ [line];
                   buffered := []; faults := [] |})
    end.

Definition newline : string := String (ascii_of_nat 10) EmptyString.

(** The record [_log_error] writes for a message. *)
Definition error_record (message : string) : string :=
  "[ERROR] " +:+ message +:+ newline.

(** [_log_error] *)
Definition _log_error (r : FuzzRunner.t) (message : string) : M Sink unit :=
  if FuzzRunner.error_file_handle r
  then sink_write (error_record message)
  else ret tt.

(** ** Target discovery *)
Module Discovery.

(** *** [os.path.dirname] *)

Definition slash : ascii := "/"%char.

(** [p[:p.rfind('/') + 1]] *)
Fixpoint upto_last_slash (p : string) : string :=
  match p with
  | EmptyString => EmptyString
  | String c p' =>
      match upto_last_slash p' with
      | EmptyString =>
          if Ascii.eqb c slash then String c EmptyString else EmptyString
      | h => String c h
      end
  end.

(** [head == '/' * len(head)] *)
Fixpoint all_slashes (s : string) : bool :=
  match s with
  | EmptyString => true
  | String c s' => Ascii.eqb c slash && all_slashes s'
  end.

(** [head.rstrip('/')] *)
Fixpoint rstrip_slash (s : string) : string :=
  match s with
  | EmptyString => EmptyString
  | String c s' =>
      match rstrip_slash s' with
      | EmptyString =>
          if Ascii.eqb c slash then EmptyString else String c EmptyString
      | t => String c t
      end
  end.

Definition dirname (p : string) : string :=
  let head := upto_last_slash p in
  if truthy head && negb (all_slashes head) then rstrip_slash head else head.

(** *** The pattern of a fuzz function

    The source searches for the word [func], then [\s+], then the group
    made of [Fuzz] and [\w*], then [\s*] and an opening parenthesis. *)

(** The two character classes of the pattern, as the [re] module
    defines them for [str] patterns. *)
Record Classes : Type := {
  is_space : ascii -> bool;
  is_word : ascii -> bool
}.

(** A literal at the head of the text; what follows it. *)
Fixpoint lit (p s : string) : option string :=
  match p with
  | EmptyString => Some s
  | String a p' =>
      match s with
      | EmptyString => None
      | String b s' => if Ascii.eqb a b then lit p' s' else None
      end
  end.

(** The ways a greedy repetition of a class can match at the head of
    the text, in the order a backtracking matcher tries them, the
    longest first: the run taken, and what follows it. *)
Fixpoint runs (f : ascii -> bool) (s : string) : list (string * string) :=
  match s with
  | EmptyString => [(EmptyString, EmptyString)]
  | String c s' =>
      if f c
      then map (fun p => (String c (fst p), snd p)) (runs f s')
           ++ [(EmptyString, s)]
      else [(EmptyString, s)]
  end.

(** Every way the pattern matches at the head of the text, in the order
    of the matcher: group 1 and the length of the match. *)
Definition matches_at (cls : Classes) (s : string) : list (string * nat) :=
  match lit "func" s with
  | None => []
  | Some r1 =>
      flat_map (fun sp1 =>
        if truthy (fst sp1) then
          match lit "Fuzz" (snd sp1) with
          | None => []
          | Some r3 =>
              flat_map (fun w =>
                flat_map (fun sp2 =>
                  match lit "(" (snd sp2) with
                  | None => []
                  | Some _ =>
                      [("Fuzz" +:+ fst w,
                        (4 + String.length (fst sp1) + 4
                         + String.length (fst w)
                         + String.length (fst sp2) + 1)%nat)]
                  end) (runs (is_space cls) (snd w)))
                (runs (is_word cls) r3)
          end
        else []) (runs (is_space cls) r1)
  end.

(** The pattern tried at the head of the text: the first match. *)
Definition match_at (cls : Classes) (s : string) : option (string * nat) :=
  head (matches_at cls s).

(** [re.search(pattern, content)] as a truth value. *)
Fixpoint search (cls : Classes) (content : string) : bool :=
  match match_at cls content with
  | Some _ => true
  | None =>
      match content with
      | EmptyString => false
      | String _ rest => search cls rest
      end
  end.

(** The matches from left to right, none overlapping another, each
    with the offset it starts at.  [pos] is the offset of the head of
    the text and [skip] counts the characters still covered by the last
    match. *)
Fixpoint finditer_from (cls : Classes) (pos skip : nat) (content : string)
  : list (nat * string) :=
  match content with
  | EmptyString => []
  | String _ rest =>
      match skip with
      | S k => finditer_from cls (S pos) k rest
      | O =>
          match match_at cls content with
          | Some (name, len) =>
              (pos, name) :: finditer_from cls (S pos) (Nat.pred len) rest
          | None => finditer_from cls (S pos) O rest
          end
      end
  end.

(** [re.findall(pattern, content)]: group 1 of every match. *)
Definition findall (cls : Classes) (content : string) : list string :=
  map snd (finditer_from cls O O content).

(** *** The tree *)

(** The source tree as discovery reads it: the paths
    [glob.glob("**/*_test.go", recursive=True)] returns, in the order
    it returns them, and the text [open(path).read()] gives, [None]
    when reading raises.  Discovery writes nothing, so one value stands
    for the tree before and after a scan. *)
Record Tree : Type := {
  glob : list string;
  read : string -> option string
}.

(** The first loop: the files that can be read and hold a match. *)
Definition fuzz_files (cls : Classes) (tree : Tree) : list string :=
  List.filter (fun test_file =>
                 match read tree test_file with
                 | Some content => search cls content
                 | None => false
                 end) (glob tree).

(** The body of the second loop for one file. *)
Definition targets_of (cls : Classes) (tree : Tree) (test_file : string)
  : list FuzzTarget.t :=
  match read tree test_file with
  | Some content =>
      let parent_dir := dirname test_file in
      map (fun func =>
             {| FuzzTarget.directory :=
                  if truthy parent_dir then parent_dir else ".";
                FuzzTarget.function := func;
                FuzzTarget.file_path := test_file |})
          (findall cls content)
  | None => []
  end.

(** [discover_fuzz_targets] *)
Definition discover_fuzz_targets (cls : Classes) (tree : Tree)
  : list FuzzTarget.t :=
  match fuzz_files cls tree with
  | [] => []
  | files => flat_map (targets_of cls tree) files
  end.

End Discovery.

(** ** The execution sandbox *)
Module Sandbox.

(** What [subprocess.run] is called with (besides [capture_output] and
    [text], which are constant). *)
Record Launch : Type := {
  cmd : list string;
  (** [env['GOMAXPROCS']] *)
  GOMAXPROCS : string;
  cwd : string;
  timeout : Z
}.

(** What [subprocess.run] does: a [CompletedProcess], [TimeoutExpired]
    when the timeout expires, or another exception of class [Exception]
    (the process cannot be launched, its output cannot be decoded),
    kept by its text. *)
Inductive ProcResult : Type :=
| Completed (returncode : Z) (stdout stderr : string)
| TimedOut
| Raised (text : string).

(** The environment of one invocation: what the two calls of
    [os.getcwd()] do, the one in the debug message before the [try] and
    the one in the call of [subprocess.run]; whether [go.mod] exists;
    the external command as a black box; and the clock. *)
Record WorkerEnv : Type := {
  cwd_logged : Try string;
  go_mod : bool;
  cwd_passed : Try string;
  proc : Launch -> ProcResult;
  clock : Elapsed
}.

(** What a worker acts on: the error file and the calls of
    [subprocess.run] made so far. *)
Record Host : Type := {
  h_sink : Sink;
  h_calls : list Launch
}.

(** A sink action run by a worker. *)
Definition logs {A} (m : M Sink A) : M Host A :=
  fun h =>
    let '(o, k) := m (h_sink h) in
    (o, {| h_sink := k; h_calls := h_calls h |}).

(** [max(1, self.cpu_cores // self.jobs)] *)
Definition budget (r : FuzzRunner.t) : Outcome Z :=
  match floordiv (FuzzRunner.cpu_cores r) (FuzzRunner.jobs r) with
  | Raise e => Raise e
  | Ok q => Ok (Z.max 1 q)
  end.

(** The arguments of [subprocess.run]: the environment, the module
    path, the command line, the working directory and the timeout. *)
Definition launch (r : FuzzRunner.t) (target : FuzzTarget.t)
           (go_mod : bool) (gomaxprocs : Z) (cwd : string) : Launch :=
  let module_path :=
    if go_mod then
      if String.eqb (FuzzTarget.directory target) "." then "."
      else "./" +:+ FuzzTarget.directory target
    else FuzzTarget.directory target in
  let fuzz_time := FuzzConfig.fuzz_time (FuzzRunner.config r) in
  {| cmd := ["go"; "test"; module_path;
             "-run=^" +:+ FuzzTarget.function target +:+ "$";
             "-fuzz=^" +:+ FuzzTarget.function target +:+ "$";
             "-fuzztime=" +:+ str_int fuzz_time +:+ "s"];
     GOMAXPROCS := str_int gomaxprocs;
     cwd := cwd;
     timeout := fuzz_time + 60 |}.

(** [subprocess.run(...)]: the call is made, and the command answers. *)
Definition subprocess_run (w : WorkerEnv) (l : Launch) : M Host ProcResult :=
  fun h =>
    (Ok (proc w l), {| h_sink := h_sink h; h_calls := h_calls h ++ [l] |}).

Definition timeout_msg (target : FuzzTarget.t) (d : Elapsed) : string :=
  "Fuzz test " +:+ FuzzTarget.function target
    +:+ " timed out after " +:+ fmt1 d +:+ "s".

Definition exception_msg (target : FuzzTarget.t) (e : Exn) : string :=
  "Exception running fuzz test " +:+ FuzzTarget.function target
    +:+ ": " +:+ str_exn e.

Definition failed_msg (target : FuzzTarget.t) : string :=
  "Failed fuzz test: " +:+ FuzzTarget.function target
    +:+ " in " +:+ FuzzTarget.file_path target.

(** [_run_single_fuzz_test].  The core budget and the debug message
    with [os.getcwd()] come before the [try]: what they raise leaves
    the method.  The logging of a non-zero exit stands inside the
    [try], so the last handler also receives what a sink write raises
    there; the handlers' own writes are unguarded. *)
Definition _run_single_fuzz_test (r : FuzzRunner.t) (target : FuzzTarget.t)
           (w : WorkerEnv) : M Host FuzzResult.t :=
  gomaxprocs <- lift (budget r) ;;
  _ <- lift (of_try (cwd_logged w)) ;;
  try_except
    (dir <- lift (of_try (cwd_passed w)) ;;
     p <- subprocess_run w (launch r target (go_mod w) gomaxprocs dir) ;;
     match p with
     | TimedOut => raise TimeoutExpired
     | Raised text => raise (Exception text)
     | Completed returncode stdout stderr =>
         let success := returncode =? 0 in
         (if success then ret tt
          else (logs (_log_error r (failed_msg target)) ;;;
                when (truthy stderr)
                     (logs (_log_error r ("Error output: " +:+ stderr))))
               : M Host unit) ;;;
         ret {| FuzzResult.target := target;
                FuzzResult.success := success;
                FuzzResult.duration := clock w;
                FuzzResult.output := stdout;
                FuzzResult.error := stderr |}
     end)
    is_Exception
    (fun e =>
       let error_msg :=
         match e with
         | TimeoutExpired => timeout_msg target (clock w)
         | _ => exception_msg target e
         end in
       logs (_log_error r error_msg) ;;;
       ret {| FuzzResult.target := target;
              FuzzResult.success := false;
              FuzzResult.duration := clock w;
              FuzzResult.output := "";
              FuzzResult.error := error_msg |}).

End Sandbox.

(** ** The scheduler: [run_fuzz_tests] *)
Module Scheduler.
Import Sandbox.

(** The state of one future of the pool.  [Done] keeps what
    [future.result()] will do: return the result or raise what the
    worker raised. *)
Inductive Status : Type :=
| Pending
| Running
| Done (o : Outcome FuzzResult.t)
| Cancelled.

(** Where the main thread stands: in the [for] loop over
    [as_completed]; in the cancellation loop of the stop-on-failure
    branch, about to look at future [k]; leaving the [with] block, which
    waits for the pool ([shutdown(wait=True)]), after the [break]
    ([Leaving None]) or with an exception in flight; past the block,
    the call returning or raising. *)
Inductive Phase : Type :=
| Looping
| Cancelling (k : nat)
| Leaving (e : option Exn)
| Ended (e : option Exn).

Record State : Type := {
  futures : list Status;
  phase : Phase;
  (** the futures [as_completed] has handed to the loop, latest first *)
  yielded : list nat;
  completed : Z;
  failed : Z;
  (** the records of the error file *)
  sink : list string;
  (** the records still in the buffer of the file object *)
  unflushed : list string;
  (** the calls of [subprocess.run] made by the workers *)
  launched : list Launch
}.

(** The locals of the loop body together with the sink. *)
Record Loop : Type := {
  l_completed : Z;
  l_failed : Z;
  l_sink : Sink
}.

(** A sink action run from the loop body. *)
Definition on_sink {A} (m : M Sink A) : M Loop A :=
  fun s =>
    let '(o, k) := m (l_sink s) in
    (o, {| l_completed := l_completed s; l_failed := l_failed s;
           l_sink := k |}).

Definition incr_completed : M Loop unit :=
  modify (fun s => {| l_completed := l_completed s + 1;
                      l_failed := l_failed s; l_sink := l_sink s |}).

Definition incr_failed : M Loop unit :=
  modify (fun s => {| l_completed := l_completed s;
                      l_failed := l_failed s + 1; l_sink := l_sink s |}).

(** The lines one failing result adds to the error file from the loop. *)
Definition failed_line (res : FuzzResult.t) : string :=
  "FAILED: " +:+ FuzzTarget.function (FuzzResult.target res)
    +:+ " in " +:+ FuzzTarget.file_path (FuzzResult.target res).

Definition details_line (res : FuzzResult.t) : string :=
  "Details: " +:+ FuzzResult.error res.

Definition separator : string := "---".

(** One turn of the [for] loop on a future that is done; [true] when
    the turn ends in [break] (after the cancellation loop, which the
    phase [Cancelling] carries out). *)
Definition loop_body (r : FuzzRunner.t) (o : Outcome FuzzResult.t)
  : M Loop bool :=
  let config := FuzzRunner.config r in
  try_except
    (result <- lift o ;;
     incr_completed ;;;
     if negb (FuzzResult.success result) then
       incr_failed ;;;
       when (truthy_opt (FuzzConfig.error_file config))
            (on_sink (_log_error r (failed_line result)) ;;;
             when (truthy (FuzzResult.error result))
                  (on_sink (_log_error r (details_line result))) ;;;
             on_sink (_log_error r separator)) ;;;
       if negb (FuzzConfig.continue_on_failure config)
       then ret true
       else ret false
     else ret false)
    is_Exception
    (fun _ => incr_completed ;;; incr_failed ;;; ret false).

(** What moves the pool and the loop. *)
Inductive Event : Type :=
(** a worker marks the future of target [i] as running and enters the
    sandbox *)
| Dispatch (i : nat)
(** the worker running target [i] comes back from the sandbox *)
| Finish (i : nat) (w : WorkerEnv) (io : list (option Fault))
(** [as_completed] yields future [i] and the loop body runs on it *)
| Collect (i : nat) (io : list (option Fault))
(** one turn of the cancellation loop *)
| Cancel
(** [KeyboardInterrupt] is raised in the main thread *)
| Interrupt
(** the main thread gets past the [with] block *)
| Exit.

Definition is_pending (s : Status) : bool :=
  match s with Pending => true | _ => false end.

Definition is_running (s : Status) : bool :=
  match s with Running => true | _ => false end.

Definition running (fs : list Status) : nat :=
  List.length (List.filter is_running fs).

(** The pending futures in front of future [i] in the work queue. *)
Definition ahead (fs : list Status) (i : nat) : nat :=
  List.length (List.filter is_pending (take i fs)).

Definition idle (fs : list Status) : bool :=
  forallb (fun s => negb (is_pending s || is_running s)) fs.

Definition set_futures (st : State) (fs : list Status) : State :=
  {| futures := fs; phase := phase st; yielded := yielded st;
     completed := completed st; failed := failed st; sink := sink st;
     unflushed := unflushed st; launched := launched st |}.

Definition set_phase (st : State) (p : Phase) : State :=
  {| futures := futures st; phase := p; yielded := yielded st;
     completed := completed st; failed := failed st; sink := sink st;
     unflushed := unflushed st; launched := launched st |}.

Definition is_ended (p : Phase) : bool :=
  match p with Ended _ => true | _ => false end.

(** One event of the call; [None] when the event cannot happen in this
    state.

    The workers take the work items from the queue in the order of
    submission, each worker one item at a time, and a worker that has
    taken an item marks its future as running only later, unless the
    future has been cancelled meanwhile.  So the future of target [i]
    can be marked as running when it is pending and the futures still
    pending in front of it, each of them in the hands of another
    worker, leave a worker for it beside those that are running.

    [KeyboardInterrupt] reaches the main thread between two turns of
    the loop, in the cancellation loop, and while it waits for the pool
    at the end of the [with] block: there it ends the wait, and the
    call, with workers still running.  Once the main thread is past the block the call is
    over and no event belongs to it any more.

    A sandbox invocation and a turn of the loop each take one step:
    their writes to the error file are not interleaved with another
    thread's, and no interrupt is taken in the middle of a turn. *)
Definition step (r : FuzzRunner.t) (targets : list FuzzTarget.t)
           (st : State) (ev : Event) : option State :=
  if is_ended (phase st) then None
  else
    match ev with
    | Dispatch i =>
        match futures st !! i with
        | Some Pending =>
            if Z.of_nat (running (futures st) + ahead (futures st) i)
               <? FuzzRunner.jobs r
            then Some (set_futures st (<[i := Running]> (futures st)))
            else None
        | _ => None
        end
    | Finish i w io =>
        match futures st !! i, targets !! i with
        | Some Running, Some target =>
            let '(o, h) :=
              _run_single_fuzz_test r target w
                {| h_sink := {| written := sink st;
                                buffered := unflushed st;
                                faults := io |};
                   h_calls := launched st |} in
            Some {| futures := <[i := Done o]> (futures st);
                    phase := phase st; yielded := yielded st;
                    completed := completed st; failed := failed st;
                    sink := written (h_sink h);
                    unflushed := buffered (h_sink h);
                    launched := h_calls h |}
        | _, _ => None
        end
    | Collect i io =>
        match phase st, futures st !! i with
        | Looping, Some (Done o) =>
            if existsb (Nat.eqb i) (yielded st) then None
            else
              let '(b, l) :=
                loop_body r o
                  {| l_completed := completed st; l_failed := failed st;
                     l_sink := {| written := sink st;
                                  buffered := unflushed st;
                                  faults := io |} |} in
              Some {| futures := futures st;
                      phase := match b with
                               | Ok true => Cancelling O
                               | Ok false => Looping
                               | Raise e => Leaving (Some e)
                               end;
                      yielded := i :: yielded st;
                      completed := l_completed l;
                      failed := l_failed l;
                      sink := written (l_sink l);
                      unflushed := buffered (l_sink l);
                      launched := launched st |}
        | _, _ => None
        end
    | Cancel =>
        match phase st with
        | Cancelling k =>
            if (k <? List.length (futures st))%nat then
              let fs :=
                match futures st !! k with
                | Some Pending => <[k := Cancelled]> (futures st)
                | _ => futures st
                end in
              Some (set_phase (set_futures st fs) (Cancelling (S k)))
            else Some (set_phase st (Leaving None))
        | _ => None
        end
    | Interrupt =>
        match phase st with
        | Looping | Cancelling _ =>
            Some (set_phase st (Leaving (Some KeyboardInterrupt)))
        | Leaving _ =>
            Some (set_phase st (Ended (Some KeyboardInterrupt)))
        | Ended _ => None
        end
    | Exit =>
        match phase st with
        | Looping =>
            if (List.length (yielded st) =? List.length (futures st))%nat
            then Some (set_phase st (Ended None))
            else None
        | Leaving e =>
            if idle (futures st) then Some (set_phase st (Ended e)) else None
        | _ => None
        end
    end.

(** A schedule, event after event. *)
Fixpoint exec (r : FuzzRunner.t) (targets : list FuzzTarget.t)
         (st : State) (schedule : list Event) : option State :=
  match schedule with
  | [] => Some st
  | ev :: rest =>
      match step r targets st ev with
      | Some st' => exec r targets st' rest
      | None => None
      end
  end.

(** After the dictionary comprehension: every target submitted, the
    counters at zero.  [sink0] is the error file as it stands. *)
Definition start (targets : list FuzzTarget.t) (sink0 : list string)
  : State :=
  {| futures := map (fun _ => Pending) targets;
     phase := Looping; yielded := [];
     completed := 0; failed := 0; sink := sink0;
     unflushed := []; launched := [] |}.

(** The dictionary [run_fuzz_tests] returns. *)
Record Stats : Type := { s_completed : Z; s_failed : Z }.

(** [run_fuzz_tests] under a schedule: what the call does, and the error
    file with its buffer after it; [None] when the schedule is not a
    whole run. *)
Definition run_fuzz_tests (r : FuzzRunner.t) (targets : list FuzzTarget.t)
           (schedule : list Event) (sink0 : list string)
  : option (Outcome Stats * list string * list string) :=
  match targets with
  | [] => Some (Ok {| s_completed := 0; s_failed := 0 |}, sink0, [])
  | _ =>
      match exec r targets (start targets sink0) schedule with
      | Some st =>
          match phase st with
          | Ended None =>
              Some (Ok {| s_completed := completed st;
                          s_failed := failed st |}, sink st, unflushed st)
          | Ended (Some e) => Some (Raise e, sink st, unflushed st)
          | _ => None
          end
      | None => None
      end
  end.

End Scheduler.

(** ** The entry point: [run] *)
Module Runner.
Import Scheduler.

(** Where, outside the pool, [KeyboardInterrupt] is raised in the main
    thread during [run]: nowhere; before the pool exists (in discovery
    or at the head of [run_fuzz_tests]); when [run_fuzz_tests] has
    returned and the summary begins; or at the end of the summary, the
    exit status about to be returned. *)
Inductive Signal : Type :=
| NoSignal
| BeforePool
| BeforeSummary
| AfterSummary.

Definition at_signal {S} (hit : bool) : M S unit :=
  if hit then raise KeyboardInterrupt else ret tt.

Definition total_line (n : Z) : string :=
  "Total of " +:+ str_int n +:+ " fuzz tests failed".

(** The body of the [try] in [run], after the two calls. *)
Definition summary (r : FuzzRunner.t) (signal : Signal) (o : Outcome Stats)
  : M Sink Z :=
  let config := FuzzRunner.config r in
  stats <- lift o ;;
  at_signal (match signal with BeforeSummary => true | _ => false end) ;;;
  code <- (if s_failed stats >? 0 then
             when (truthy_opt (FuzzConfig.error_file config))
                  (_log_error r (total_line (s_failed stats))) ;;;
             if FuzzConfig.continue_on_failure config then ret 0 else ret 1
           else ret 0) ;;
  at_signal (match signal with AfterSummary => true | _ => false end) ;;;
  ret code.

(** The handlers of [run]. *)
Definition exit_code_of (e : Exn) : Z :=
  match e with
  | KeyboardInterrupt => 130
  | _ => 1
  end.

(** [run]: the exit status and the error file as it stands when [run]
    returns; [io] is what the write of the summary will meet.  [None]
    when the schedule is not a whole run of the pool. *)
Definition run (r : FuzzRunner.t) (cls : Discovery.Classes)
           (tree : Discovery.Tree) (signal : Signal)
           (schedule : list Event) (io : list (option Fault))
  : option (Z * list string) :=
  match signal with
  | BeforePool => Some (exit_code_of KeyboardInterrupt, [])
  | _ =>
      let targets := Discovery.discover_fuzz_targets cls tree in
      match run_fuzz_tests r targets schedule [] with
      | None => None
      | Some (o, sink1, buffer1) =>
          let '(code, k) :=
            try_except (summary r signal o) (fun _ => true)
              (fun e => ret (exit_code_of e))
              {| written := sink1; buffered := buffer1; faults := io |} in
          match code with
          | Ok c => Some (c, written k)
          | Raise _ => None
          end
      end
  end.

End Runner.
(** * Vocabulary of the statements *)

Import Discovery Sandbox Scheduler Runner.

(** The text from offset [n] on. *)
Fixpoint from_offset (n : nat) (s : string) : string :=
  match n, s with
  | O, _ => s
  | S k, String _ rest => from_offset k rest
  | S _, EmptyString => EmptyString
  end.

(** A list of targets whose file paths never go down. *)
Fixpoint ordered_by_path (l : list FuzzTarget.t) : bool :=
  match l with
  | a :: rest =>
      match rest with
      | b :: _ =>
          String.leb (FuzzTarget.file_path a) (FuzzTarget.file_path b)
          && ordered_by_path rest
      | [] => true
      end
  | [] => true
  end.

(** The order of file paths. *)
Definition path_le (a b : string) : Prop := String.leb a b = true.

(** A tree given by the files it lists, each with its text when it can
    be read. *)
Definition tree_of (files : list (string * option string)) : Tree :=
  {| glob := map fst files;
     read := fun p =>
       match List.find (fun e => String.eqb (fst e) p) files with
       | Some e => snd e
       | None => None
       end |}.

(** A tree with the same files to read and another list of paths. *)
Definition listing (tree : Tree) (paths : list string) : Tree :=
  {| glob := paths; read := read tree |}.

(** Every character of a text is of a class. *)
Fixpoint all_chars (f : ascii -> bool) (s : string) : bool :=
  match s with
  | EmptyString => true
  | String c rest => f c && all_chars f rest
  end.

Definition starts_with (p s : string) : bool :=
  match lit p s with
  | Some _ => true
  | None => false
  end.

(** The classes of [re] on the characters below 256, as CPython 3.11
    has them: [\s] holds the ASCII white space, the separators 28 to 31,
    the next-line character 133 and the no-break space 160; [\w] holds
    the ASCII letters, digits and underscore, and the letters and
    numbers of the Latin-1 range. *)
Definition between (lo hi n : nat) : bool := ((lo <=? n) && (n <=? hi))%nat.

Definition latin1 : Classes :=
  {| is_space := fun c =>
       let n := nat_of_ascii c in
       between 9 13 n || between 28 32 n || (n =? 133)%nat || (n =? 160)%nat;
     is_word := fun c =>
       let n := nat_of_ascii c in
       between 48 57 n || between 65 90 n || (n =? 95)%nat
       || between 97 122 n || (n =? 170)%nat || between 178 179 n
       || (n =? 181)%nat || between 185 186 n || between 188 190 n
       || between 192 214 n || between 216 246 n || between 248 255 n |}.

(** ** The failure sink *)

(** No call of the oracle raises. *)
Definition clean (io : list (option Fault)) : bool :=
  forallb (fun f => match f with None => true | Some _ => false end) io.

(** The sink cannot raise: the runner has no error file, or no call of
    the oracle raises. *)
Definition quiet (r : FuzzRunner.t) (s : Sink) : Prop :=
  FuzzRunner.error_file_handle r = false \/ clean (faults s) = true.

(** What a list of logged messages adds to the error file. *)
Definition records (r : FuzzRunner.t) (messages : list string) : list string :=
  if FuzzRunner.error_file_handle r then map error_record messages else [].

(** The runner holds an error file handle exactly when its configuration
    names an error file, as [__init__] makes it. *)
Definition consistent (r : FuzzRunner.t) : Prop :=
  FuzzRunner.error_file_handle r
  = truthy_opt (FuzzConfig.error_file (FuzzRunner.config r)).

(** ** The sandbox *)

(** What the call of [subprocess.run] comes to, the working directory
    included: when [os.getcwd()] raises in the argument list the call
    is not made and the exception takes its place. *)
Definition answer (r : FuzzRunner.t) (target : FuzzTarget.t) (w : WorkerEnv)
           (gomaxprocs : Z) : ProcResult :=
  match cwd_passed w with
  | Got dir => proc w (launch r target (go_mod w) gomaxprocs dir)
  | Failed text => Raised text
  end.

(** The calls of [subprocess.run] of one invocation. *)
Definition calls_of (r : FuzzRunner.t) (target : FuzzTarget.t) (w : WorkerEnv)
  : list Launch :=
  match budget r, cwd_logged w, cwd_passed w with
  | Ok g, Got _, Got dir => [launch r target (go_mod w) g dir]
  | _, _, _ => []
  end.

(** The outcome the specification gives to one invocation of the sandbox,
    from what the external command did. *)
Definition outcome_of (target : FuzzTarget.t) (d : Elapsed) (p : ProcResult)
  : FuzzResult.t :=
  match p with
  | Completed returncode stdout stderr =>
      {| FuzzResult.target := target;
         FuzzResult.success := returncode =? 0;
         FuzzResult.duration := d;
         FuzzResult.output := stdout;
         FuzzResult.error := stderr |}
  | TimedOut =>
      {| FuzzResult.target := target;
         FuzzResult.success := false;
         FuzzResult.duration := d;
         FuzzResult.output := "";
         FuzzResult.error := timeout_msg target d |}
  | Raised text =>
      {| FuzzResult.target := target;
         FuzzResult.success := false;
         FuzzResult.duration := d;
         FuzzResult.output := "";
         FuzzResult.error := exception_msg target (Exception text) |}
  end.

(** The messages one invocation of the sandbox logs as errors. *)
Definition worker_messages (target : FuzzTarget.t) (d : Elapsed)
           (p : ProcResult) : list string :=
  match p with
  | Completed returncode _ stderr =>
      if returncode =? 0 then []
      else failed_msg target
           :: (if truthy stderr then ["Error output: " +:+ stderr] else [])
  | TimedOut => [timeout_msg target d]
  | Raised text => [exception_msg target (Exception text)]
  end.

(** ** Sample data *)

Definition unsorted_tree : Tree :=
  tree_of [("b_test.go", Some "func FuzzB(f *testing.F) {}");
           ("a_test.go", Some "func FuzzA(f *testing.F) {}")].

Definition one_target_tree : Tree :=
  tree_of [("a_test.go", Some "func FuzzA(f *testing.F) {}")].

Definition logging_config : FuzzConfig.t :=
  {| FuzzConfig.fuzz_time := 10; FuzzConfig.jobs := 0;
     FuzzConfig.error_file := Some "fuzz_errors.log";
     FuzzConfig.continue_on_failure := true;
     FuzzConfig.verbose := false; FuzzConfig.config_dir := "./shared" |}.

Definition logging_runner : FuzzRunner.t :=
  FuzzRunner.init logging_config (Some 4).

Definition stop_config : FuzzConfig.t :=
  {| FuzzConfig.fuzz_time := 10; FuzzConfig.jobs := 0;
     FuzzConfig.error_file := None;
     FuzzConfig.continue_on_failure := false;
     FuzzConfig.verbose := false; FuzzConfig.config_dir := "./shared" |}.

(** One worker ([jobs] left to the rule, two cores). *)
Definition stop_runner : FuzzRunner.t := FuzzRunner.init stop_config (Some 2).

Definition stop_logging_config : FuzzConfig.t :=
  {| FuzzConfig.fuzz_time := 10; FuzzConfig.jobs := 0;
     FuzzConfig.error_file := Some "fuzz_errors.log";
     FuzzConfig.continue_on_failure := false;
     FuzzConfig.verbose := false; FuzzConfig.config_dir := "./shared" |}.

Definition stop_logging_runner : FuzzRunner.t :=
  FuzzRunner.init stop_logging_config (Some 4).

Definition target_a : FuzzTarget.t :=
  {| FuzzTarget.directory := "."; FuzzTarget.function := "FuzzA";
     FuzzTarget.file_path := "a_test.go" |}.

Definition target_b : FuzzTarget.t :=
  {| FuzzTarget.directory := "pkg"; FuzzTarget.function := "FuzzB";
     FuzzTarget.file_path := "pkg/b_test.go" |}.

Definition seventy : Elapsed := {| micros := 70000000; fmt1 := "70.0" |}.

(** A worker in the project root, with [go.mod], whose command does
    [p]. *)
Definition env_of (p : ProcResult) : WorkerEnv :=
  {| cwd_logged := Got "/src"; go_mod := true; cwd_passed := Got "/src";
     proc := fun _ => p; clock := seventy |}.

(** A worker whose working directory has been removed. *)
Definition lost_directory : string :=
  "[Errno 2] No such file or directory".

Definition env_lost : WorkerEnv :=
  {| cwd_logged := Failed lost_directory; go_mod := false;
     cwd_passed := Failed lost_directory;
     proc := fun _ => Completed 0 "ok" ""; clock := seventy |}.

Definition failing : WorkerEnv := env_of (Completed 1 "FAIL" "panic: boom").

Definition passing : WorkerEnv := env_of (Completed 0 "ok" "").

Definition silent_failure : WorkerEnv := env_of (Completed 1 "FAIL" "").

Definition disk_full : string := "[Errno 28] No space left on device".

(** The text of the exception a write raises when the record holds a
    character the encoding of the error file lacks. *)
Definition encoding_error : string :=
  "'utf-8' codec can't encode character '\udce9' in position 38: surrogates not allowed".

Definition no_host : Host :=
  {| h_sink := {| written := []; buffered := []; faults := [] |};
     h_calls := [] |}.

(** The calls of [subprocess.run] a schedule leads to: those of the
    sandbox invocations that come back in it. *)
Definition launches (r : FuzzRunner.t) (targets : list FuzzTarget.t)
           (schedule : list Event) : list Launch :=
  flat_map (fun ev =>
              match ev with
              | Finish i w _ =>
                  match targets !! i with
                  | Some target => calls_of r target w
                  | None => []
                  end
              | _ => []
              end) schedule.

(** The messages the loop logs for one failing result: the identity
    line, the detail line when the error text is not empty, and the
    separator. *)
Definition block_messages (res : FuzzResult.t) : list string :=
  failed_line res
  :: (if truthy (FuzzResult.error res) then [details_line res] else [])
  ++ [separator].

(** What a turn of the loop does when the sink cannot raise: whether it
    breaks, what it adds to the two counters, and what it logs. *)
Definition loop_flag (r : FuzzRunner.t) (o : Outcome FuzzResult.t)
  : Outcome bool :=
  match o with
  | Ok res =>
      Ok (negb (FuzzResult.success res)
          && negb (FuzzConfig.continue_on_failure (FuzzRunner.config r)))
  | Raise e => if is_Exception e then Ok false else Raise e
  end.

Definition completed_gain (o : Outcome FuzzResult.t) : Z :=
  match o with
  | Ok _ => 1
  | Raise e => if is_Exception e then 1 else 0
  end.

Definition failed_gain (o : Outcome FuzzResult.t) : Z :=
  match o with
  | Ok res => if FuzzResult.success res then 0 else 1
  | Raise e => if is_Exception e then 1 else 0
  end.

Definition loop_messages (o : Outcome FuzzResult.t) : list string :=
  match o with
  | Ok res => if FuzzResult.success res then [] else block_messages res
  | Raise _ => []
  end.

(** Events whose sink writes all succeed; events of the main thread
    whose sink writes all succeed. *)
Definition clean_event (ev : Event) : bool :=
  match ev with
  | Finish _ _ io | Collect _ io => clean io
  | _ => true
  end.

Definition main_clean (ev : Event) : bool :=
  match ev with
  | Collect _ io => clean io
  | _ => true
  end.

(** No future waits in the queue. *)
Definition no_pending (fs : list Status) : Prop :=
  forall j, fs !! j <> Some Pending.

(** The futures that hold an outcome. *)
Definition is_done (s : Status) : bool :=
  match s with Done _ => true | _ => false end.

Definition outcomes (fs : list Status) : nat :=
  List.length (List.filter is_done fs).

(** What holds from the moment the loop has decided to stop: the
    cancellation loop leaves no pending future behind it. *)
Definition stopping (st : State) : Prop :=
  match phase st with
  | Looping => False
  | Cancelling k =>
      forall j, (j < k)%nat -> futures st !! j <> Some Pending
  | Leaving None => no_pending (futures st)
  | Leaving (Some _) | Ended _ => True
  end.

(** What holds once the cancellation loop is over: no future is
    pending, and the call returns only with an idle pool. *)
Definition drained (st : State) : Prop :=
  match phase st with
  | Looping | Cancelling _ => False
  | Ended None => idle (futures st) = true
  | Leaving _ | Ended (Some _) => no_pending (futures st)
  end.

(** Target a fails; the worker takes target b before the cancellation
    loop reaches it; b passes while the main thread waits for the pool. *)
Definition abort_prefix : list Event :=
  [Dispatch 0; Finish 0 failing []].

Definition abort_mid : list Event := [Dispatch 1; Cancel; Cancel; Cancel].

Definition abort_post : list Event := [Finish 1 passing []; Exit].

(** The same, but the main thread is interrupted while it waits for the
    pool. *)
Definition abort_interrupted : list Event := [Interrupt].

Definition state_after (r : FuzzRunner.t) (targets : list FuzzTarget.t)
           (schedule : list Event) : State :=
  match exec r targets (start targets []) schedule with
  | Some st => st
  | None => start targets []
  end.

(** ** Invariants of the pool *)

(** The futures are those of the targets, and the loop has been handed
    each future at most once, only futures that were done. *)
Definition well_formed (targets : list FuzzTarget.t) (st : State) : Prop :=
  List.length (futures st) = List.length targets
  /\ List.NoDup (yielded st)
  /\ forall i, In i (yielded st) -> exists o, futures st !! i = Some (Done o).

(** The phases in which no exception is in flight. *)
Definition regular (p : Phase) : bool :=
  match p with
  | Leaving (Some _) | Ended (Some _) => false
  | _ => true
  end.

(** [completed] counts the futures the loop has been handed. *)
Definition counted (st : State) : Prop :=
  completed st <= Z.of_nat (List.length (yielded st))
  /\ (regular (phase st) = true ->
      completed st = Z.of_nat (List.length (yielded st))).

(** With the policy set, the loop is left only when [as_completed] has
    nothing more to hand over (or with an exception). *)
Definition runs_to_end (st : State) : Prop :=
  match phase st with
  | Cancelling _ | Leaving None => False
  | Ended None => List.length (yielded st) = List.length (futures st)
  | _ => True
  end.

(** While the loop runs no future has been cancelled. *)
Definition uncancelled (st : State) : Prop :=
  phase st = Looping -> forall i, futures st !! i <> Some Cancelled.


(** Nothing waits in the buffer of the error file. *)
Definition flushed (st : State) : Prop := unflushed st = [].

(** The sink of a step cannot raise. *)
Definition calm (r : FuzzRunner.t) (io : list (option Fault)) : Prop :=
  FuzzRunner.error_file_handle r = false \/ clean io = true.

(** The sink cannot raise in the loop during an event. *)
Definition calm_loop (r : FuzzRunner.t) (ev : Event) : Prop :=
  FuzzRunner.error_file_handle r = false \/ main_clean ev = true.

(** ** What a worker does when the sink cannot raise *)

(** What [future.result()] will do. *)
Definition worker_outcome (r : FuzzRunner.t) (target : FuzzTarget.t)
           (w : WorkerEnv) : Outcome FuzzResult.t :=
  match budget r with
  | Raise e => Raise e
  | Ok g =>
      match cwd_logged w with
      | Failed text => Raise (Exception text)
      | Got _ => Ok (outcome_of target (clock w) (answer r target w g))
      end
  end.

(** The messages the worker logs as errors. *)
Definition worker_log (r : FuzzRunner.t) (target : FuzzTarget.t)
           (w : WorkerEnv) : list string :=
  match budget r, cwd_logged w with
  | Ok g, Got _ => worker_messages target (clock w) (answer r target w g)
  | _, _ => []
  end.

(** ** The failure blocks of the error file *)

(** The records the loop writes for a failing result: an identity line,
    a detail line or the separator. *)
Definition is_block_record (s : string) : bool :=
  starts_with "[ERROR] FAILED: " s
  || starts_with "[ERROR] Details: " s
  || String.eqb s (error_record separator).

Definition block_records (records : list string) : list string :=
  List.filter is_block_record records.

Definition is_separator_record (s : string) : bool :=
  String.eqb s (error_record separator).

(** The failing result the loop found in future [i], if any. *)
Definition failure_of (fs : list Status) (i : nat) : list FuzzResult.t :=
  match fs !! i with
  | Some (Done (Ok res)) => if FuzzResult.success res then [] else [res]
  | _ => []
  end.

(** The failing results the loop has been handed, in the order it was
    handed them. *)
Definition failures (st : State) : list FuzzResult.t :=
  flat_map (failure_of (futures st)) (rev (yielded st)).

(** The exception the loop met in future [i], if the worker raised one
    instead of returning a result. *)
Definition crash_of (fs : list Status) (i : nat) : list Exn :=
  match fs !! i with
  | Some (Done (Raise e)) => if is_Exception e then [e] else []
  | _ => []
  end.

(** The exceptions of the workers the loop has been handed. *)
Definition crashes (st : State) : list Exn :=
  flat_map (crash_of (futures st)) (rev (yielded st)).

(** The failures the loop has met: failing results and workers that
    raised. *)
Definition troubles (st : State) : nat :=
  (List.length (failures st) + List.length (crashes st))%nat.

(** The block the claim describes: identity line, detail line with the
    captured stderr, separator. *)
Definition claimed_block (res : FuzzResult.t) : list string :=
  [error_record (failed_line res);
   error_record ("Details: " +:+ FuzzResult.error res);
   error_record separator].

(** The error file holds the blocks of the failing results the loop has
    met, and [failed] counts them together with the workers that
    raised. *)
Definition tallied (r : FuzzRunner.t) (st : State) : Prop :=
  flushed st
  /\ block_records (sink st)
     = flat_map (fun res => records r (block_messages res)) (failures st)
  /\ failed st = Z.of_nat (troubles st).

(** The working directory is at hand when the worker of an event logs
    it. *)
Definition finds_cwd (ev : Event) : bool :=
  match ev with
  | Finish _ w _ =>
      match cwd_logged w with
      | Got _ => true
      | Failed _ => false
      end
  | _ => true
  end.

(** No worker has raised. *)
Definition no_crash (st : State) : Prop :=
  forall i e, futures st !! i <> Some (Done (Raise e)).

(** Target a exits with status 1.  In the worker the write of the
    failure line raises inside the [try]; the handler's own line is
    written.  In the loop the write of the identity line raises. *)
Definition double_count_schedule : list Event :=
  [Dispatch 0;
   Finish 0 failing [Some (WriteRaises encoding_error); None];
   Collect 0 [Some (WriteRaises encoding_error)]; Exit].

Definition overcount_schedule : list Event :=
  [Dispatch 0;
   Finish 0 failing [Some (WriteRaises encoding_error); None];
   Collect 0 [Some (WriteRaises encoding_error)];
   Dispatch 1; Finish 1 passing []; Collect 1 []].

(** Two targets fail one after the other, each with nothing on stderr. *)
Definition two_failures_schedule : list Event :=
  [Dispatch 0; Finish 0 silent_failure []; Collect 0 [];
   Dispatch 1; Finish 1 silent_failure []; Collect 1 []; Exit].

(** The worker of target a finds its working directory removed; target
    b fails with nothing on stderr. *)
Definition crash_schedule : list Event :=
  [Dispatch 0; Finish 0 env_lost []; Collect 0 [];
   Dispatch 1; Finish 1 silent_failure []; Collect 1 []; Exit].

Definition result_of (target : FuzzTarget.t) (w : WorkerEnv) (stderr : string)
  : FuzzResult.t :=
  {| FuzzResult.target := target; FuzzResult.success := false;
     FuzzResult.duration := clock w; FuzzResult.output := "FAIL";
     FuzzResult.error := stderr |}.

(** ** The exit status *)



(** An event that is not an interrupt. *)
Definition moves_on (ev : Event) : bool :=
  match ev with
  | Interrupt => false
  | _ => true
  end.

(** ** The length of a run *)

(** What a future still has to go through: a pending one is taken and
    then finished (or cancelled), a running one is finished. *)
Definition weight (s : Status) : nat :=
  match s with
  | Pending => 2
  | Running => 1
  | _ => 0
  end.

Definition load (fs : list Status) : nat := list_sum (map weight fs).

(** What the main thread still has to go through in a phase, with [n]
    futures. *)
Definition phase_rank (n : nat) (p : Phase) : nat :=
  match p with
  | Looping => n + 3
  | Cancelling k => (n - k) + 2
  | Leaving _ => 1
  | Ended _ => 0
  end.

(** A bound on the number of events that can still happen. *)
Definition remaining (targets : list FuzzTarget.t) (st : State) : nat :=
  load (futures st)
  + (List.length targets - List.length (yielded st))
  + phase_rank (List.length targets) (phase st).

(** ** Vocabulary of the further properties *)

(** The indices of the targets whose workers come back in a schedule,
    the indices of the futures handed to the loop, and the indices of
    the targets started. *)
Definition finished (schedule : list Event) : list nat :=
  flat_map (fun ev => match ev with Finish i _ _ => [i] | _ => [] end) schedule.

Definition collected (schedule : list Event) : list nat :=
  flat_map (fun ev => match ev with Collect i _ => [i] | _ => [] end) schedule.

Definition dispatched (schedule : list Event) : list nat :=
  flat_map (fun ev => match ev with Dispatch i => [i] | _ => [] end) schedule.

Definition dispatches (schedule : list Event) : nat :=
  List.length (dispatched schedule).

(** The futures that have been started. *)
Definition is_started (s : Status) : bool := is_running s || is_done s.

Definition started (fs : list Status) : nat :=
  List.length (List.filter is_started fs).

(** A started future has fewer than [jobs] pending futures in front of
    it. *)
Definition close_to_order (jobs : Z) (fs : list Status) : Prop :=
  forall j s, fs !! j = Some s -> is_started s = true ->
              Z.of_nat (ahead fs j) < jobs.

(** A failing result has left its note in the error file: the failure
    line of its target, or its own error text. *)
Definition noted (records : list string) (res : FuzzResult.t) : Prop :=
  In (error_record (failed_msg (FuzzResult.target res))) records
  \/ In (error_record (FuzzResult.error res)) records.

Definition failures_noted (st : State) : Prop :=
  forall i res,
    futures st !! i = Some (Done (Ok res)) ->
    FuzzResult.success res = false ->
    noted (sink st) res.

(** An event of a schedule in which every write succeeds, every worker
    finds its working directory and every external command exits with
    status 0. *)
Definition passing_event (ev : Event) : Prop :=
  match ev with
  | Finish _ w io =>
      clean io = true
      /\ (exists dir, cwd_logged w = Got dir)
      /\ (exists dir, cwd_passed w = Got dir)
      /\ forall l, exists stdout stderr, proc w l = Completed 0 stdout stderr
  | Collect _ io => clean io = true
  | _ => True
  end.

(** An event of a run in which, besides, the main thread is not
    interrupted. *)
Definition undisturbed (ev : Event) : Prop :=
  passing_event ev /\ ev <> Interrupt.

Definition all_passed (st : State) : Prop :=
  failed st = 0
  /\ forall i o, futures st !! i = Some (Done o) ->
                 exists res, o = Ok res /\ FuzzResult.success res = true.

Definition all_quiet (sink0 : list string) (st : State) : Prop :=
  all_passed st /\ sink st = sink0 /\ flushed st
  /\ regular (phase st) = true.

(** ** The command line of the examples *)

(** A command line with no option given. *)
Definition no_args : Cli.Args :=
  {| Cli.time := None; Cli.jobs := None; Cli.error_file := None;
     Cli.continue_on_failure := false; Cli.verbose := false;
     Cli.config_dir := None |}.

(** A stand-in for [int] on the decimal texts of the examples. *)
Definition sample_int (s : string) : Outcome Z :=
  if String.eqb s "30" then Ok 30
  else if String.eqb s "8" then Ok 8
  else Raise (Exception ("invalid literal for int() with base 10: '" +:+ s +:+ "'")).

Definition sample_environ : gmap string string :=
  <["FUZZ_TIME" := "30"]> (<["FUZZ_JOBS" := ""]>
    (<["FUZZ_CONTINUE_ON_FAILURE" := "True"]> ∅)).

Definition sample_args : Cli.Args :=
  {| Cli.time := None; Cli.jobs := Some 8; Cli.error_file := Some "errors.log";
     Cli.continue_on_failure := false; Cli.verbose := true;
     Cli.config_dir := None |}.

Definition sample_config : FuzzConfig.t :=
  {| FuzzConfig.fuzz_time := 30; FuzzConfig.jobs := 8;
     FuzzConfig.error_file := Some "errors.log";
     FuzzConfig.continue_on_failure := true;
     FuzzConfig.verbose := true; FuzzConfig.config_dir := "./shared" |}.
(** * Properties *)

(** ** The worker count *)

Lemma determine_jobs_positive (config : FuzzConfig.t) (cpu_cores : Z) :
  0 < FuzzRunner._determine_jobs config cpu_cores.
Proof.
  unfold FuzzRunner._determine_jobs.
  destruct (FuzzConfig.jobs config >? 0) eqn:Hj; [lia|].
  destruct (cpu_cores >? 8); [lia|].
  destruct (cpu_cores >? 4); lia.
Qed.

Lemma init_jobs_positive (config : FuzzConfig.t) (cpu_count : option Z) :
  0 < FuzzRunner.jobs (FuzzRunner.init config cpu_count).
Proof. apply determine_jobs_positive. Qed.

Example jobs_on_6_cores :
  FuzzRunner.jobs (FuzzRunner.init FuzzConfig.init (Some 6)) = 2.
Proof. reflexivity. Qed.

Example jobs_on_16_cores :
  FuzzRunner.jobs (FuzzRunner.init FuzzConfig.init (Some 16)) = 4.
Proof. reflexivity. Qed.

(** C7, as the claim states it, fails: with no worker count configured
    and four cores detected the runner uses one worker, not two. *)
Lemma four_cores_give_one_worker :
  FuzzConfig.jobs FuzzConfig.init = 0
  /\ FuzzRunner.cpu_cores (FuzzRunner.init FuzzConfig.init (Some 4)) = 4
  /\ FuzzRunner.jobs (FuzzRunner.init FuzzConfig.init (Some 4)) = 1
  /\ FuzzRunner.jobs (FuzzRunner.init FuzzConfig.init (Some 4)) <> 2.
Proof. repeat split; discriminate. Qed.

(** C7, amended: when no positive worker count is configured, the
    runner uses one worker up to four cores, two workers from five to
    eight cores and four workers above eight cores. *)
Theorem auto_worker_count (config : FuzzConfig.t) (cpu_count : option Z) :
  FuzzConfig.jobs config <= 0 ->
  let r := FuzzRunner.init config cpu_count in
  (FuzzRunner.cpu_cores r <= 4 -> FuzzRunner.jobs r = 1)
  /\ (4 < FuzzRunner.cpu_cores r <= 8 -> FuzzRunner.jobs r = 2)
  /\ (8 < FuzzRunner.cpu_cores r -> FuzzRunner.jobs r = 4).
Proof.
  intros Hj r. subst r. cbn [FuzzRunner.init FuzzRunner.jobs FuzzRunner.cpu_cores].
  unfold FuzzRunner._determine_jobs.
  destruct (FuzzConfig.jobs config >? 0) eqn:E; [lia|].
  destruct (int_or cpu_count 4 >? 8) eqn:E8;
    destruct (int_or cpu_count 4 >? 4) eqn:E4; repeat split; intros; lia.
Qed.

Lemma auto_worker_count_witness :
  (FuzzRunner.cpu_cores (FuzzRunner.init FuzzConfig.init (Some 3)) <= 4 ->
   FuzzRunner.jobs (FuzzRunner.init FuzzConfig.init (Some 3)) = 1)
  /\ (4 < FuzzRunner.cpu_cores (FuzzRunner.init FuzzConfig.init (Some 3)) <= 8 ->
      FuzzRunner.jobs (FuzzRunner.init FuzzConfig.init (Some 3)) = 2)
  /\ (8 < FuzzRunner.cpu_cores (FuzzRunner.init FuzzConfig.init (Some 3)) ->
      FuzzRunner.jobs (FuzzRunner.init FuzzConfig.init (Some 3)) = 4).
Proof.
  apply (auto_worker_count FuzzConfig.init (Some 3)). simpl. lia.
Defined.

(** C10: a strictly positive configured value is the worker count as it
    stands, whatever the core count; a value that is zero or negative
    leaves the choice to the core count; and when [os.cpu_count()] gives
    [None] the runner counts four cores. *)
Theorem configured_jobs_or_detection (config : FuzzConfig.t)
        (cpu_count : option Z) :
  let r := FuzzRunner.init config cpu_count in
  (0 < FuzzConfig.jobs config -> FuzzRunner.jobs r = FuzzConfig.jobs config)
  /\ (FuzzConfig.jobs config <= 0 ->
      FuzzRunner.jobs r =
        FuzzRunner._determine_jobs FuzzConfig.init (FuzzRunner.cpu_cores r)
      /\ FuzzRunner.jobs r =
           if FuzzRunner.cpu_cores r >? 8 then 4
           else if FuzzRunner.cpu_cores r >? 4 then 2 else 1)
  /\ (cpu_count = None -> FuzzRunner.cpu_cores r = 4)
  /\ (forall n, cpu_count = Some n -> n <> 0 -> FuzzRunner.cpu_cores r = n).
Proof.
  cbn zeta. cbn [FuzzRunner.init FuzzRunner.jobs FuzzRunner.cpu_cores].
  unfold FuzzRunner._determine_jobs. cbn [FuzzConfig.jobs FuzzConfig.init].
  repeat split.
  - intros H. destruct (FuzzConfig.jobs config >? 0) eqn:E; [reflexivity|lia].
  - destruct (FuzzConfig.jobs config >? 0) eqn:E; [lia|reflexivity].
  - destruct (FuzzConfig.jobs config >? 0) eqn:E; [lia|reflexivity].
  - intros ->. reflexivity.
  - intros n -> Hn. simpl. destruct (n =? 0) eqn:E; [lia|reflexivity].
Qed.

Example jobs_above_core_count :
  FuzzRunner.jobs
    (FuzzRunner.init
       {| FuzzConfig.fuzz_time := 10; FuzzConfig.jobs := 64;
          FuzzConfig.error_file := None;
          FuzzConfig.continue_on_failure := false;
          FuzzConfig.verbose := false; FuzzConfig.config_dir := "./shared" |}
       (Some 2)) = 64.
Proof. reflexivity. Qed.

(** ** Target discovery *)

Lemma search_false_no_match (cls : Classes) (s : string) :
  search cls s = false -> forall pos skip, finditer_from cls pos skip s = [].
Proof.
  induction s as [|c rest IH]; intros Hs pos skip; [reflexivity|].
  cbn [search] in Hs.
  destruct (match_at cls (String c rest)) as [[name len]|] eqn:Hm; [discriminate|].
  cbn [finditer_from]. destruct skip as [|k]; [rewrite Hm|]; auto.
Qed.

Lemma from_offset_shift (c : ascii) (rest : string) (p pos : nat) :
  (S pos <= p)%nat ->
  from_offset (p - pos) (String c rest) = from_offset (p - S pos) rest.
Proof.
  intros H. replace (p - pos)%nat with (S (p - S pos)) by lia. reflexivity.
Qed.

(** The matches come at increasing offsets, and each is a match of the
    pattern where it is reported. *)
Lemma finditer_from_ordered (cls : Classes) (s : string) :
  forall pos skip,
    Forall (fun e => (pos <= fst e)%nat
                     /\ exists len,
                          match_at cls (from_offset (fst e - pos) s) = Some (snd e, len))
           (finditer_from cls pos skip s)
    /\ StronglySorted lt (map fst (finditer_from cls pos skip s)).
Proof.
  induction s as [|c rest IH]; intros pos skip; cbn [finditer_from].
  - split; constructor.
  - assert (Hlift : forall k,
      Forall (fun e => (pos <= fst e)%nat
                       /\ exists len,
                            match_at cls (from_offset (fst e - pos) (String c rest))
                            = Some (snd e, len))
             (finditer_from cls (S pos) k rest)).
    { intros k. destruct (IH (S pos) k) as [Hall _].
      eapply List.Forall_impl; [|exact Hall].
      intros e [Hle [len Hm]]. split; [lia|].
      exists len. rewrite from_offset_shift by exact Hle. exact Hm. }
    destruct skip as [|k]; [|split; [apply Hlift|apply IH]].
    destruct (match_at cls (String c rest)) as [[name len]|] eqn:Hm;
      [|split; [apply Hlift|apply IH]].
    split.
    + constructor; [|apply Hlift].
      cbn [fst snd]. split; [lia|]. exists len.
      rewrite Nat.sub_diag. exact Hm.
    + cbn [map fst]. constructor; [apply IH|].
      destruct (IH (S pos) (Nat.pred len)) as [Hall _].
      apply List.Forall_map. eapply List.Forall_impl; [|exact Hall].
      intros e [Hle _]. lia.
Qed.

Lemma flat_map_filter_all {A B} (f : A -> list B) (p : A -> bool) (l : list A) :
  (forall a, p a = false -> f a = []) ->
  flat_map f (List.filter p l) = flat_map f l.
Proof.
  intros H. induction l as [|a l IH]; [reflexivity|].
  cbn [List.filter flat_map]. destruct (p a) eqn:Hp.
  - cbn [flat_map]. now rewrite IH.
  - now rewrite (H a Hp), IH.
Qed.

(** The two loops together: the targets of every listed file, file after
    file as [glob] lists them. *)
Lemma discover_fuzz_targets_flat_map (cls : Classes) (tree : Tree) :
  discover_fuzz_targets cls tree = flat_map (targets_of cls tree) (glob tree).
Proof.
  unfold discover_fuzz_targets.
  rewrite <- (flat_map_filter_all (targets_of cls tree)
     (fun test_file => match read tree test_file with
                       | Some content => search cls content
                       | None => false
                       end) (glob tree)).
  - fold (fuzz_files cls tree). now destruct (fuzz_files cls tree).
  - intros p Hp. unfold targets_of.
    destruct (read tree p) as [content|]; [|reflexivity].
    unfold findall. now rewrite (search_false_no_match cls content Hp).
Qed.

Lemma targets_of_same_text (cls : Classes) (t1 t2 : Tree) (p : string) :
  read t1 p = read t2 p -> targets_of cls t1 p = targets_of cls t2 p.
Proof. unfold targets_of. now intros ->. Qed.

Lemma flat_map_same_on {A B} (f g : A -> list B) (l : list A) :
  (forall a, In a l -> f a = g a) -> flat_map f l = flat_map g l.
Proof.
  induction l as [|a l IH]; intros H; [reflexivity|].
  cbn [flat_map]. rewrite (H a) by now left.
  rewrite IH; [reflexivity|]. intros b Hb. apply H. now right.
Qed.

Lemma targets_of_paths (cls : Classes) (tree : Tree) (p : string) :
  List.Forall (fun target => FuzzTarget.file_path target = p) (targets_of cls tree p).
Proof.
  unfold targets_of. destruct (read tree p); [|constructor].
  apply List.Forall_map, List.Forall_forall. reflexivity.
Qed.

Lemma paths_of_flat_map (cls : Classes) (tree : Tree) (l : list string) (q : string) :
  List.Forall (path_le q) l ->
  List.Forall (fun target => path_le q (FuzzTarget.file_path target))
              (flat_map (targets_of cls tree) l).
Proof.
  induction 1 as [|p l Hp Hl IH]; cbn [flat_map]; [constructor|].
  apply List.Forall_app. split; [|exact IH].
  eapply List.Forall_impl; [|apply targets_of_paths].
  intros target ->. exact Hp.
Qed.

Lemma ordered_by_path_app (p : string) (xs rest : list FuzzTarget.t) :
  List.Forall (fun target => FuzzTarget.file_path target = p) xs ->
  List.Forall (fun target => path_le p (FuzzTarget.file_path target)) rest ->
  ordered_by_path rest = true ->
  ordered_by_path (xs ++ rest) = true.
Proof.
  intros Hxs Hrest Hord. induction Hxs as [|x xs Hx Hxs IH]; [exact Hord|].
  cbn [app ordered_by_path].
  destruct (xs ++ rest) as [|y tl] eqn:E; [reflexivity|].
  rewrite IH, andb_true_r, Hx.
  destruct xs as [|x' xs']; cbn [app] in E.
  - rewrite E in Hrest. now inversion Hrest.
  - injection E as E1 E2. rewrite <- E1.
    inversion Hxs as [|? ? Hy _]. rewrite Hy.
    destruct (String.leb_total p p); assumption.
Qed.

(** When [glob] lists the paths in order, the targets are in the order
    of their file paths. *)
Lemma discovery_ordered_when_glob_ordered (cls : Classes) (tree : Tree) :
  StronglySorted path_le (glob tree) ->
  ordered_by_path (discover_fuzz_targets cls tree) = true.
Proof.
  rewrite discover_fuzz_targets_flat_map.
  induction 1 as [|p l Hl IH Hp]; [reflexivity|]. cbn [flat_map].
  apply (ordered_by_path_app p).
  - apply targets_of_paths.
  - now apply paths_of_flat_map.
  - exact IH.
Qed.

(** C6, as the claim states it, fails: when [glob] lists [b_test.go]
    before [a_test.go] the targets come out in that order, which is not
    the order of the file paths. *)
Lemma discovery_follows_glob_not_paths :
  map FuzzTarget.file_path (discover_fuzz_targets latin1 unsorted_tree)
  = ["b_test.go"; "a_test.go"]
  /\ String.ltb "a_test.go" "b_test.go" = true
  /\ ordered_by_path (discover_fuzz_targets latin1 unsorted_tree) = false.
Proof. repeat split. Qed.

(** C6, amended: discovery reads the tree and nothing else, so two scans
    of trees that list the same files in the same order with the same
    texts give the same list of targets; the list holds the targets of
    each listed file, file after file in the order [glob] lists them
    (which the code does not sort: the targets are in the order of
    their file paths when [glob] lists the paths in order), and within
    one file the functions in the order of their offsets in the text. *)
Theorem discovery_deterministic_in_glob_order (cls : Classes) (t1 t2 : Tree) :
  glob t1 = glob t2 ->
  (forall p, In p (glob t1) -> read t1 p = read t2 p) ->
  discover_fuzz_targets cls t1 = discover_fuzz_targets cls t2
  /\ discover_fuzz_targets cls t1 = flat_map (targets_of cls t1) (glob t1)
  /\ (StronglySorted path_le (glob t1) ->
      ordered_by_path (discover_fuzz_targets cls t1) = true)
  /\ forall p content,
       read t1 p = Some content ->
       Forall (fun target => FuzzTarget.file_path target = p) (targets_of cls t1 p)
       /\ map FuzzTarget.function (targets_of cls t1 p)
          = map snd (finditer_from cls 0 0 content)
       /\ StronglySorted lt (map fst (finditer_from cls 0 0 content))
       /\ Forall (fun e => exists len,
                      match_at cls (from_offset (fst e) content) = Some (snd e, len))
                 (finditer_from cls 0 0 content).
Proof.
  intros Hglob Hread. split; [|split; [|split]].
  - rewrite !discover_fuzz_targets_flat_map, <- Hglob.
    apply flat_map_same_on. intros p Hp.
    apply targets_of_same_text, Hread, Hp.
  - apply discover_fuzz_targets_flat_map.
  - apply discovery_ordered_when_glob_ordered.
  - intros p content Hp. unfold targets_of. rewrite Hp.
    destruct (finditer_from_ordered cls content 0 0) as [Hall Hsorted].
    repeat split.
    + apply List.Forall_map, List.Forall_forall. reflexivity.
    + unfold findall. rewrite List.map_map. cbn [FuzzTarget.function].
      now rewrite List.map_id.
    + exact Hsorted.
    + eapply List.Forall_impl; [|exact Hall].
      intros e [_ [len Hm]]. exists len. now rewrite Nat.sub_0_r in Hm.
Qed.

Lemma discovery_deterministic_in_glob_order_witness :
  discover_fuzz_targets latin1 unsorted_tree = discover_fuzz_targets latin1 unsorted_tree
  /\ discover_fuzz_targets latin1 unsorted_tree
     = flat_map (targets_of latin1 unsorted_tree) (glob unsorted_tree)
  /\ (StronglySorted path_le (glob unsorted_tree) ->
      ordered_by_path (discover_fuzz_targets latin1 unsorted_tree) = true)
  /\ forall p content,
       read unsorted_tree p = Some content ->
       Forall (fun target => FuzzTarget.file_path target = p)
              (targets_of latin1 unsorted_tree p)
       /\ map FuzzTarget.function (targets_of latin1 unsorted_tree p)
          = map snd (finditer_from latin1 0 0 content)
       /\ StronglySorted lt (map fst (finditer_from latin1 0 0 content))
       /\ Forall (fun e => exists len,
                      match_at latin1 (from_offset (fst e) content) = Some (snd e, len))
                 (finditer_from latin1 0 0 content).
Proof.
  apply (discovery_deterministic_in_glob_order latin1 unsorted_tree unsorted_tree).
  - reflexivity.
  - intros p _. reflexivity.
Defined.

Example discover_two_functions_in_one_file :
  discover_fuzz_targets latin1
    (tree_of [("pkg/codec_test.go",
               Some "func FuzzDecode(f *testing.F) {} func Fuzz_enc (f *testing.F) {}");
              ("pkg/unreadable_test.go", None);
              ("main_test.go", Some "func TestMain(m *testing.M) {}")])
  = [ {| FuzzTarget.directory := "pkg"; FuzzTarget.function := "FuzzDecode";
         FuzzTarget.file_path := "pkg/codec_test.go" |};
      {| FuzzTarget.directory := "pkg"; FuzzTarget.function := "Fuzz_enc";
         FuzzTarget.file_path := "pkg/codec_test.go" |} ].
Proof. reflexivity. Qed.

(** A function whose name holds a letter outside ASCII, after a
    no-break space: character 160 is of the class [\s] and character
    201 of the class [\w]. *)
Example discover_beyond_ascii :
  let nbsp := String (ascii_of_nat 160) EmptyString in
  let e_acute := String (ascii_of_nat 201) EmptyString in
  map FuzzTarget.function
      (discover_fuzz_targets latin1
         (tree_of [("a_test.go",
                    Some ("func" +:+ nbsp +:+ "Fuzz" +:+ e_acute
                            +:+ "(f *testing.F) {}"))]))
  = ["Fuzz" +:+ String (ascii_of_nat 201) EmptyString].
Proof. reflexivity. Qed.


(** ** More on target discovery *)

Lemma search_true_some_match (cls : Classes) (s : string) :
  search cls s = true -> forall pos, finditer_from cls pos 0 s <> [].
Proof.
  induction s as [|c rest IH]; intros Hs pos.
  - discriminate.
  - cbn [search] in Hs. cbn [finditer_from].
    destruct (match_at cls (String c rest)) as [[name len]|]; [discriminate|].
    now apply IH.
Qed.

Lemma targets_of_nil_iff (cls : Classes) (tree : Tree) (p : string) :
  targets_of cls tree p = []
  <-> match read tree p with
      | Some content => search cls content = false
      | None => True
      end.
Proof.
  unfold targets_of. destruct (read tree p) as [content|]; [|tauto].
  unfold findall. split.
  - intros H. destruct (search cls content) eqn:Hs; [|reflexivity].
    exfalso. apply (search_true_some_match cls content Hs 0%nat).
    destruct (finditer_from cls 0 0 content); [reflexivity|discriminate].
  - intros H. now rewrite (search_false_no_match cls content H).
Qed.

(** X12: the two loops of discovery agree: the first loop keeps a file
    exactly when the file is listed and the second loop finds at least
    one fuzz function in it; in particular discovery is empty exactly
    when no listed file that can be read holds a match. *)
Theorem first_loop_keeps_files_with_targets (cls : Classes) (tree : Tree) (p : string) :
  (In p (fuzz_files cls tree) <-> In p (glob tree) /\ targets_of cls tree p <> [])
  /\ (discover_fuzz_targets cls tree = [] <-> fuzz_files cls tree = []).
Proof.
  split.
  - unfold fuzz_files. rewrite List.filter_In.
    pose proof (targets_of_nil_iff cls tree p) as Hn.
    destruct (read tree p) as [content|].
    + destruct (search cls content); split; intros [Hin H]; split; auto;
        try discriminate.
      * intros H'. apply Hn in H'. discriminate.
      * exfalso. apply H. now apply Hn.
    + split; intros [Hin H]; [discriminate|]. exfalso. now apply H, Hn.
  - split.
    + intros H. unfold discover_fuzz_targets in H.
      destruct (fuzz_files cls tree) as [|f fs] eqn:E; [reflexivity|].
      exfalso.
      assert (Hin : In f (fuzz_files cls tree)) by (rewrite E; now left).
      unfold fuzz_files in Hin. apply List.filter_In in Hin.
      destruct Hin as [_ Hs].
      cbn [flat_map] in H. apply app_eq_nil in H. destruct H as [H _].
      apply targets_of_nil_iff in H.
      destruct (read tree f); [congruence|discriminate].
    + intros H. unfold discover_fuzz_targets. now rewrite H.
Qed.

Lemma runs_all (f : ascii -> bool) (s : string) :
  List.Forall (fun p => all_chars f (fst p) = true) (runs f s).
Proof.
  induction s as [|c rest IH]; cbn [runs].
  - repeat constructor.
  - destruct (f c) eqn:Hc; [|repeat constructor].
    apply List.Forall_app. split; [|repeat constructor].
    apply List.Forall_map. eapply List.Forall_impl; [|exact IH].
    intros p Hp. cbn. now rewrite Hc.
Qed.

Lemma match_at_name (cls : Classes) (s name : string) (len : nat) :
  match_at cls s = Some (name, len) ->
  exists w, name = "Fuzz" +:+ w /\ all_chars (is_word cls) w = true.
Proof.
  unfold match_at. intros H.
  assert (Hin : In (name, len) (matches_at cls s)).
  { destruct (matches_at cls s) as [|m l]; [discriminate|].
    cbn in H. simplify_eq. now left. }
  clear H. unfold matches_at in Hin.
  destruct (lit "func" s) as [r1|]; [|destruct Hin].
  apply List.in_flat_map in Hin. destruct Hin as (sp1 & _ & Hin).
  destruct (truthy (fst sp1)); [|destruct Hin].
  destruct (lit "Fuzz" (snd sp1)) as [r3|]; [|destruct Hin].
  apply List.in_flat_map in Hin. destruct Hin as (w & Hw & Hin).
  apply List.in_flat_map in Hin. destruct Hin as (sp2 & _ & Hin).
  destruct (lit "(" (snd sp2)); [|destruct Hin].
  destruct Hin as [Hin|[]]. simplify_eq.
  exists (fst w). split; [reflexivity|].
  pose proof (runs_all (is_word cls) r3) as Hall.
  rewrite List.Forall_forall in Hall. now apply Hall.
Qed.

Lemma findall_names (cls : Classes) (content name : string) :
  In name (findall cls content) ->
  exists w, name = "Fuzz" +:+ w /\ all_chars (is_word cls) w = true.
Proof.
  unfold findall. intros H. apply List.in_map_iff in H.
  destruct H as ([pos n] & <- & Hin).
  destruct (finditer_from_ordered cls content 0 0) as [Hall _].
  rewrite List.Forall_forall in Hall.
  destruct (Hall _ Hin) as (_ & len & Hm). eapply match_at_name; eauto.
Qed.

(** X13: every discovered target comes from a file that [glob] lists,
    that can be read and that the pattern matches; its function name is
    [Fuzz] followed by word characters only; and its directory is never
    the empty string. *)
Theorem discovered_targets_are_well_formed (cls : Classes) (tree : Tree)
        (target : FuzzTarget.t) :
  In target (discover_fuzz_targets cls tree) ->
  In (FuzzTarget.file_path target) (glob tree)
  /\ (exists content,
        read tree (FuzzTarget.file_path target) = Some content
        /\ search cls content = true
        /\ In (FuzzTarget.function target) (findall cls content))
  /\ (exists w, FuzzTarget.function target = "Fuzz" +:+ w
                /\ all_chars (is_word cls) w = true)
  /\ FuzzTarget.directory target <> "".
Proof.
  rewrite discover_fuzz_targets_flat_map. intros H.
  apply List.in_flat_map in H. destruct H as (p & Hp & Hin).
  unfold targets_of in Hin.
  destruct (read tree p) as [content|] eqn:Hread; [|destruct Hin].
  apply List.in_map_iff in Hin. destruct Hin as (name & <- & Hname).
  cbn [FuzzTarget.file_path FuzzTarget.function FuzzTarget.directory].
  split; [exact Hp|]. split; [|split].
  - exists content. split; [exact Hread|]. split; [|exact Hname].
    destruct (search cls content) eqn:Hs; [reflexivity|].
    unfold findall in Hname.
    now rewrite (search_false_no_match cls content Hs) in Hname.
  - eapply findall_names; eauto.
  - destruct (dirname p) eqn:Hd; cbn; discriminate.
Qed.

Lemma discovered_targets_are_well_formed_witness :
  In (FuzzTarget.file_path target_a) (glob one_target_tree)
  /\ (exists content,
        read one_target_tree (FuzzTarget.file_path target_a) = Some content
        /\ search latin1 content = true
        /\ In (FuzzTarget.function target_a) (findall latin1 content))
  /\ (exists w, FuzzTarget.function target_a = "Fuzz" +:+ w
                /\ all_chars (is_word latin1) w = true)
  /\ FuzzTarget.directory target_a <> "".
Proof.
  apply (discovered_targets_are_well_formed latin1 one_target_tree target_a).
  left. reflexivity.
Defined.

(** X14: discovery treats each file on its own: the targets of a tree
    whose listing is one list of paths followed by another are the
    targets found under the first list followed by those found under the
    second, and a file that cannot be read or holds no match adds
    nothing. *)
Theorem discovery_file_by_file (cls : Classes) (tree : Tree) (first second : list string)
        (p : string) :
  discover_fuzz_targets cls (listing tree (first ++ second))
  = discover_fuzz_targets cls (listing tree first)
    ++ discover_fuzz_targets cls (listing tree second)
  /\ (match read tree p with
      | Some content => search cls content = false
      | None => True
      end ->
      discover_fuzz_targets cls (listing tree (first ++ p :: second))
      = discover_fuzz_targets cls (listing tree (first ++ second))).
Proof.
  rewrite !discover_fuzz_targets_flat_map. cbn [glob listing].
  assert (Ht : forall paths q,
             targets_of cls (listing tree paths) q = targets_of cls tree q).
  { reflexivity. }
  split.
  - rewrite List.flat_map_app. reflexivity.
  - intros Hp. rewrite !List.flat_map_app. cbn [flat_map].
    assert (Hn : targets_of cls (listing tree (first ++ p :: second)) p = []).
    { rewrite Ht. now apply targets_of_nil_iff. }
    rewrite Hn. reflexivity.
Qed.

(** ** The failure sink *)

Lemma clean_tail (io : list (option Fault)) :
  clean io = true -> clean (tail io) = true.
Proof. destruct io as [|[t|] io]; simpl; auto; discriminate. Qed.

Lemma records_nil (r : FuzzRunner.t) : records r [] = [].
Proof. unfold records. now destruct (FuzzRunner.error_file_handle r). Qed.

Lemma records_app (r : FuzzRunner.t) (a b : list string) :
  records r (a ++ b) = records r a ++ records r b.
Proof.
  unfold records.
  destruct (FuzzRunner.error_file_handle r); [apply map_app|reflexivity].
Qed.

(** A call of [_log_error] on a sink that cannot raise: it returns, and
    with nothing left in the buffer the file gains the record. *)
Lemma log_error_quiet (r : FuzzRunner.t) (message : string) (s : Sink) :
  quiet r s ->
  exists s',
    _log_error r message s = (Ok tt, s')
    /\ quiet r s'
    /\ (buffered s = [] ->
        buffered s' = []
        /\ written s' = written s ++ records r [message]).
Proof.
  unfold quiet, _log_error, records.
  destruct (FuzzRunner.error_file_handle r) eqn:Hh; intros Hq.
  - destruct Hq as [Hq|Hq]; [discriminate|].
    unfold sink_write. destruct s as [wr bf io]. cbn [faults written buffered] in *.
    destruct io as [|[t|] io]; [| discriminate Hq |];
      (eexists; split; [reflexivity|]; split; [right|]);
      cbn [faults written buffered]; try reflexivity; try exact Hq;
      intros ->; split; reflexivity.
  - exists s. split; [reflexivity|]. split; [now left|].
    intros Hb. split; [exact Hb|]. now rewrite app_nil_r.
Qed.

(** ** The execution sandbox *)

Lemma budget_positive (r : FuzzRunner.t) :
  0 < FuzzRunner.jobs r ->
  budget r = Ok (Z.max 1 (FuzzRunner.cpu_cores r / FuzzRunner.jobs r)).
Proof.
  intros Hpos. unfold budget, floordiv.
  destruct (FuzzRunner.jobs r =? 0) eqn:E; [lia|reflexivity].
Qed.

Lemma budget_of_init (config : FuzzConfig.t) (cpu_count : option Z) :
  let r := FuzzRunner.init config cpu_count in
  budget r = Ok (Z.max 1 (FuzzRunner.cpu_cores r / FuzzRunner.jobs r)).
Proof. apply budget_positive, init_jobs_positive. Qed.

Lemma logs_quiet (r : FuzzRunner.t) (message : string) (h : Host) :
  quiet r (h_sink h) ->
  exists k,
    logs (_log_error r message) h
    = (Ok tt, {| h_sink := k; h_calls := h_calls h |})
    /\ quiet r k
    /\ (buffered (h_sink h) = [] ->
        buffered k = []
        /\ written k = written (h_sink h) ++ records r [message]).
Proof.
  intros Hq. destruct (log_error_quiet r message (h_sink h) Hq)
    as (k & E & Hk & W).
  exists k. unfold logs. rewrite E. now split.
Qed.

(** With a sink that cannot raise and the working directory at hand
    for the debug message, the sandbox returns the specification's
    function of what the external command did. *)
Lemma sandbox_quiet (r : FuzzRunner.t) (target : FuzzTarget.t)
      (w : WorkerEnv) (h : Host) (g : Z) (dir : string) :
  budget r = Ok g ->
  cwd_logged w = Got dir ->
  quiet r (h_sink h) ->
  exists h',
    _run_single_fuzz_test r target w h
    = (Ok (outcome_of target (clock w) (answer r target w g)), h')
    /\ quiet r (h_sink h')
    /\ (buffered (h_sink h) = [] ->
        buffered (h_sink h') = []
        /\ written (h_sink h')
           = written (h_sink h)
             ++ records r (worker_messages target (clock w)
                             (answer r target w g))).
Proof.
  intros Hg Hd Hq. unfold _run_single_fuzz_test.
  unfold bind at 1. unfold lift at 1. rewrite Hg.
  unfold bind at 1. unfold lift at 1. rewrite Hd. cbn [of_try].
  unfold try_except, answer.
  destruct (cwd_passed w) as [dir'|text] eqn:Hp.
  - unfold bind at 1. unfold lift at 1. cbn [of_try].
    unfold bind at 1. unfold subprocess_run.
    set (l := launch r target (go_mod w) g dir').
    set (h1 := {| h_sink := h_sink h; h_calls := h_calls h ++ [l] |}).
    assert (Hq1 : quiet r (h_sink h1)) by exact Hq.
    destruct (proc w l) as [rc out err| |text];
      cbn [outcome_of worker_messages].
    + destruct (rc =? 0) eqn:Hrc.
      * unfold bind, ret. exists h1. split; [reflexivity|].
        split; [exact Hq|]. intros Hb. split; [exact Hb|].
        now rewrite records_nil, app_nil_r.
      * destruct (logs_quiet r (failed_msg target) h1 Hq1)
          as (k1 & E1 & Hk1 & W1).
        unfold bind at 1. unfold bind at 1. rewrite E1.
        unfold when. destruct (truthy err).
        -- set (h2 := {| h_sink := k1; h_calls := h_calls h1 |}) in *.
           destruct (logs_quiet r ("Error output: " +:+ err) h2 Hk1)
             as (k2 & E2 & Hk2 & W2).
           rewrite E2. unfold ret. eexists. split; [reflexivity|].
           split; [exact Hk2|]. cbn [h_sink]. intros Hb.
           destruct (W1 Hb) as [B1 W1']. destruct (W2 B1) as [B2 W2'].
           split; [exact B2|]. subst h2 h1. cbn [h_sink] in *.
           rewrite W2', W1', <- app_assoc, <- records_app. reflexivity.
        -- unfold ret. eexists. split; [reflexivity|].
           split; [exact Hk1|]. exact W1.
    + unfold raise. cbn [is_Exception].
      destruct (logs_quiet r (timeout_msg target (clock w)) h1 Hq1)
        as (k1 & E1 & Hk1 & W1).
      unfold bind. rewrite E1. unfold ret. eexists.
      split; [reflexivity|]. split; [exact Hk1|exact W1].
    + unfold raise. cbn [is_Exception].
      destruct (logs_quiet r (exception_msg target (Exception text)) h1 Hq1)
        as (k1 & E1 & Hk1 & W1).
      unfold bind. rewrite E1. unfold ret. eexists.
      split; [reflexivity|]. split; [exact Hk1|exact W1].
  - unfold bind at 1. unfold lift at 1. cbn [of_try is_Exception].
    cbn [outcome_of worker_messages].
    destruct (logs_quiet r (exception_msg target (Exception text)) h Hq)
      as (k1 & E1 & Hk1 & W1).
    unfold bind. rewrite E1. unfold ret. eexists.
    split; [reflexivity|]. split; [exact Hk1|exact W1].
Qed.

Ltac break_match :=
  match goal with
  | |- context [match ?x with _ => _ end] => destruct x eqn:?
  | H : context [match ?x with _ => _ end] |- _ => destruct x eqn:?
  end.

Lemma log_error_raises (r : FuzzRunner.t) (message : string) (s s' : Sink)
      (o : Outcome unit) :
  _log_error r message s = (o, s') ->
  o = Ok tt \/ exists text, o = Raise (Exception text).
Proof.
  unfold _log_error, sink_write, ret. intros H.
  repeat break_match; simplify_eq; eauto.
Qed.

Lemma logs_calls (r : FuzzRunner.t) (message : string) (h h' : Host)
      (o : Outcome unit) :
  logs (_log_error r message) h = (o, h') ->
  h_calls h' = h_calls h
  /\ (o = Ok tt \/ exists text, o = Raise (Exception text)).
Proof.
  unfold logs. intros H.
  destruct (_log_error r message (h_sink h)) as [o' k] eqn:E.
  simplify_eq. split; [reflexivity|]. eapply log_error_raises; eauto.
Qed.

(** The handler of the sandbox: it returns a failing result or raises
    what its own write raises, and calls nothing. *)
Lemma sandbox_handler (r : FuzzRunner.t) (message : string)
      (res : FuzzResult.t) (h h' : Host) (o : Outcome FuzzResult.t) :
  (logs (_log_error r message) ;;; ret res) h = (o, h') ->
  h_calls h' = h_calls h
  /\ (o = Ok res \/ exists text, o = Raise (Exception text)).
Proof.
  unfold bind, ret. intros H.
  destruct (logs (_log_error r message) h) as [o1 h1] eqn:E.
  destruct (logs_calls _ _ _ _ _ E) as [Hc [->|[text ->]]]; simplify_eq;
    eauto.
Qed.

(** The body of the [try] once [subprocess.run] has answered. *)
Lemma sandbox_body (r : FuzzRunner.t) (target : FuzzTarget.t)
      (d : Elapsed) (rc : Z) (out err : string) (h h' : Host)
      (o : Outcome FuzzResult.t) :
  (((if rc =? 0 then ret tt
     else (logs (_log_error r (failed_msg target)) ;;;
           when (truthy err)
                (logs (_log_error r ("Error output: " +:+ err))))
          : M Host unit) ;;;
    ret {| FuzzResult.target := target; FuzzResult.success := rc =? 0;
           FuzzResult.duration := d; FuzzResult.output := out;
           FuzzResult.error := err |}) : M Host FuzzResult.t) h = (o, h') ->
  h_calls h' = h_calls h
  /\ (o = Ok (outcome_of target d (Completed rc out err))
      \/ exists text, o = Raise (Exception text)).
Proof.
  unfold bind, ret, when. cbn [outcome_of]. intros H.
  destruct (rc =? 0); [simplify_eq; eauto|].
  destruct (logs (_log_error r (failed_msg target)) h) as [o1 h1] eqn:E1.
  destruct (logs_calls _ _ _ _ _ E1) as [Hc1 [->|[text ->]]];
    [|simplify_eq; eauto].
  destruct (truthy err);
    [|unfold ret in H; cbn beta iota in H; simplify_eq;
      (split; [congruence|eauto])].
  destruct (logs (_log_error r ("Error output: " +:+ err)) h1)
    as [o2 h2] eqn:E2.
  destruct (logs_calls _ _ _ _ _ E2) as [Hc2 [->|[text ->]]];
    unfold ret in H; cbn beta iota in H; simplify_eq;
      (split; [congruence|eauto]).
Qed.

(** Whatever the sink does, the sandbox calls [subprocess.run] once when
    the budget is computed and both calls of [os.getcwd()] return, and
    not at all otherwise; and what it raises is an [Exception]. *)
Lemma sandbox_calls (r : FuzzRunner.t) (target : FuzzTarget.t)
      (w : WorkerEnv) (h h' : Host) (o : Outcome FuzzResult.t) :
  _run_single_fuzz_test r target w h = (o, h') ->
  h_calls h' = h_calls h ++ calls_of r target w
  /\ (forall e, o = Raise e -> is_Exception e = true).
Proof.
  unfold _run_single_fuzz_test, calls_of.
  unfold bind at 1. unfold lift at 1.
  assert (Hb : forall e, budget r = Raise e -> is_Exception e = true).
  { unfold budget, floordiv. intros e.
    destruct (FuzzRunner.jobs r =? 0); intros [= <-]. reflexivity. }
  destruct (budget r) as [g|e0] eqn:Hg.
  2:{ intros [= <- <-]. rewrite app_nil_r. split; [reflexivity|].
      intros e [= <-]. now apply Hb. }
  unfold bind at 1. unfold lift at 1.
  destruct (cwd_logged w) as [d|text]; cbn [of_try].
  2:{ intros [= <- <-]. rewrite app_nil_r. split; [reflexivity|].
      intros e [= <-]. reflexivity. }
  unfold try_except.
  unfold bind at 1. unfold lift at 1.
  destruct (cwd_passed w) as [dir|text]; cbn [of_try is_Exception].
  2:{ intros H. apply sandbox_handler in H. destruct H as [Hc Ho].
      rewrite Hc, app_nil_r. split; [reflexivity|].
      intros e ->. destruct Ho as [Ho|[t Ho]]; simplify_eq. reflexivity. }
  unfold bind at 1. unfold subprocess_run.
  set (l := launch r target (go_mod w) g dir).
  set (h1 := {| h_sink := h_sink h; h_calls := h_calls h ++ [l] |}).
  assert (Hh1 : h_calls h1 = h_calls h ++ [l]) by reflexivity.
  destruct (proc w l) as [rc out err| |text].
  - match goal with
    | |- context [match ?m h1 with _ => _ end] =>
        destruct (m h1) as [o1 h2] eqn:E
    end.
    apply sandbox_body in E. destruct E as [Hc [->|[text ->]]].
    + intros [= <- <-]. rewrite Hc, Hh1. split; [reflexivity|].
      discriminate.
    + cbn [is_Exception]. intros H. apply sandbox_handler in H.
      destruct H as [Hc' Ho]. rewrite Hc', Hc, Hh1. split; [reflexivity|].
      intros e ->. destruct Ho as [Ho|[t Ho]]; simplify_eq. reflexivity.
  - unfold raise. cbn [is_Exception]. intros H. apply sandbox_handler in H.
    destruct H as [Hc' Ho]. rewrite Hc', Hh1. split; [reflexivity|].
    intros e ->. destruct Ho as [Ho|[t Ho]]; simplify_eq. reflexivity.
  - unfold raise. cbn [is_Exception]. intros H. apply sandbox_handler in H.
    destruct H as [Hc' Ho]. rewrite Hc', Hh1. split; [reflexivity|].
    intros e ->. destruct Ho as [Ho|[t Ho]]; simplify_eq. reflexivity.
Qed.

(** C4, as the claim states it, fails.  With an error file configured
    and its flush raising, an invocation whose subprocess times out
    raises and returns no outcome, and an invocation whose subprocess
    exits with status 1 returns the outcome of a launch exception,
    without the captured stderr.  And with no error file at all, an
    invocation started when the working directory has been removed
    raises from [os.getcwd()] before the [try] and returns no outcome. *)
Lemma sandbox_can_raise_instead_of_returning :
  fst (_run_single_fuzz_test logging_runner target_a (env_of TimedOut)
         {| h_sink := {| written := []; buffered := [];
                         faults := [Some (FlushRaises disk_full)] |};
            h_calls := [] |})
  = Raise (Exception disk_full)
  /\ fst (_run_single_fuzz_test logging_runner target_a
            (env_of (Completed 1 "FAIL" "panic: index out of range"))
            {| h_sink := {| written := []; buffered := [];
                            faults := [Some (FlushRaises disk_full)] |};
               h_calls := [] |})
     = Ok {| FuzzResult.target := target_a;
             FuzzResult.success := false;
             FuzzResult.duration := seventy;
             FuzzResult.output := "";
             FuzzResult.error :=
               "Exception running fuzz test FuzzA: [Errno 28] No space left on device" |}
  /\ FuzzRunner.error_file_handle stop_runner = false
  /\ _run_single_fuzz_test stop_runner target_a env_lost no_host
     = (Raise (Exception lost_directory), no_host).
Proof. repeat split; reflexivity. Qed.

(** C4, amended: an invocation of the sandbox ends in at most one
    FuzzOutcome, and when [os.getcwd()] returns for the debug message
    and no write to the failure sink raises during the invocation
    (always so when no sink is configured) it returns exactly one: a
    zero exit status gives a successful outcome, a non-zero one an
    outcome with succeeded=false keeping stdout and stderr, the expiry
    of the timeout an outcome with succeeded=false, a synthesized
    message and empty output, and any other exception of the launch,
    that of [os.getcwd()] in its argument list included, an outcome
    with succeeded=false, the exception text in its message and empty
    output. *)
Theorem sandbox_one_outcome_when_sink_quiet (config : FuzzConfig.t)
        (cpu_count : option Z) (target : FuzzTarget.t) (w : WorkerEnv)
        (h : Host) (dir : string) :
  let r := FuzzRunner.init config cpu_count in
  let g := Z.max 1 (FuzzRunner.cpu_cores r / FuzzRunner.jobs r) in
  cwd_logged w = Got dir ->
  quiet r (h_sink h) ->
  exists h',
    match cwd_passed w with
    | Failed text =>
        _run_single_fuzz_test r target w h
        = (Ok {| FuzzResult.target := target;
                 FuzzResult.success := false;
                 FuzzResult.duration := clock w;
                 FuzzResult.output := "";
                 FuzzResult.error :=
                   "Exception running fuzz test "
                     +:+ FuzzTarget.function target +:+ ": " +:+ text |}, h')
    | Got dir' =>
        match proc w (launch r target (go_mod w) g dir') with
        | Completed returncode stdout stderr =>
            _run_single_fuzz_test r target w h
            = (Ok {| FuzzResult.target := target;
                     FuzzResult.success := returncode =? 0;
                     FuzzResult.duration := clock w;
                     FuzzResult.output := stdout;
                     FuzzResult.error := stderr |}, h')
            /\ (returncode <> 0 -> (returncode =? 0) = false)
        | TimedOut =>
            _run_single_fuzz_test r target w h
            = (Ok {| FuzzResult.target := target;
                     FuzzResult.success := false;
                     FuzzResult.duration := clock w;
                     FuzzResult.output := "";
                     FuzzResult.error := timeout_msg target (clock w) |}, h')
        | Raised text =>
            _run_single_fuzz_test r target w h
            = (Ok {| FuzzResult.target := target;
                     FuzzResult.success := false;
                     FuzzResult.duration := clock w;
                     FuzzResult.output := "";
                     FuzzResult.error :=
                       "Exception running fuzz test "
                         +:+ FuzzTarget.function target +:+ ": " +:+ text |},
               h')
        end
    end.
Proof.
  intros r g Hd Hq.
  pose proof (budget_of_init config cpu_count) as Hg. cbn zeta in Hg.
  fold r in Hg. fold g in Hg.
  destruct (sandbox_quiet r target w h g dir Hg Hd Hq) as (h' & E & _ & _).
  exists h'. unfold answer in E.
  destruct (cwd_passed w) as [dir'|text]; [|exact E].
  destruct (proc w (launch r target (go_mod w) g dir'))
    as [rc out err| |text]; cbn [outcome_of] in E; try exact E.
  split; [exact E|]. intros Hrc. now apply Z.eqb_neq.
Qed.

Lemma sandbox_one_outcome_when_sink_quiet_witness :
  exists h',
    _run_single_fuzz_test logging_runner target_a (env_of TimedOut) no_host
    = (Ok {| FuzzResult.target := target_a;
             FuzzResult.success := false;
             FuzzResult.duration := seventy;
             FuzzResult.output := "";
             FuzzResult.error := "Fuzz test FuzzA timed out after 70.0s" |}, h').
Proof.
  apply (sandbox_one_outcome_when_sink_quiet logging_config (Some 4) target_a
           (env_of TimedOut) no_host "/src").
  - reflexivity.
  - right. reflexivity.
Defined.

(** ** The loop body *)

Lemma on_sink_log (r : FuzzRunner.t) (message : string) (s s' : Loop)
      (o : Outcome unit) :
  on_sink (_log_error r message) s = (o, s') ->
  l_completed s' = l_completed s /\ l_failed s' = l_failed s
  /\ (o = Ok tt \/ exists text, o = Raise (Exception text)).
Proof.
  unfold on_sink. intros H.
  destruct (_log_error r message (l_sink s)) as [o' k] eqn:E.
  simplify_eq. cbn. repeat split. eapply log_error_raises; eauto.
Qed.

(** The three writes of the loop for a failing result: they leave the
    counters alone and raise nothing but an [Exception]. *)
Lemma log_block_counters (r : FuzzRunner.t) (res : FuzzResult.t)
      (s s' : Loop) (o : Outcome unit) :
  (on_sink (_log_error r (failed_line res)) ;;;
   when (truthy (FuzzResult.error res))
        (on_sink (_log_error r (details_line res))) ;;;
   on_sink (_log_error r separator)) s = (o, s') ->
  l_completed s' = l_completed s /\ l_failed s' = l_failed s
  /\ (o = Ok tt \/ exists text, o = Raise (Exception text)).
Proof.
  unfold bind, when. intros H.
  destruct (on_sink (_log_error r (failed_line res)) s) as [o1 s1] eqn:E1.
  destruct (on_sink_log _ _ _ _ _ E1) as (C1 & F1 & [->|[text ->]]);
    [|simplify_eq; eauto].
  destruct (truthy (FuzzResult.error res)).
  - destruct (on_sink (_log_error r (details_line res)) s1) as [o2 s2] eqn:E2.
    destruct (on_sink_log _ _ _ _ _ E2) as (C2 & F2 & [->|[text ->]]);
      [|simplify_eq; repeat split; eauto; congruence].
    destruct (on_sink_log _ _ _ _ _ H) as (C3 & F3 & Ho).
    repeat split; try congruence; try exact Ho.
  - unfold ret in H. cbn beta iota in H.
    destruct (on_sink_log _ _ _ _ _ H) as (C3 & F3 & Ho).
    repeat split; try congruence; try exact Ho.
Qed.

(** A turn of the loop, whatever the sink does: a passing result is
    counted once; a failing result is counted once, as completed and as
    failed, when its writes succeed, and twice when one of them raises;
    a future that raises an [Exception] is counted once; any other
    exception leaves the loop. *)
Lemma loop_body_cases (r : FuzzRunner.t) (o : Outcome FuzzResult.t)
      (s s' : Loop) (b : Outcome bool) :
  loop_body r o s = (b, s') ->
  match o with
  | Ok res =>
      if FuzzResult.success res then
        b = Ok false /\ s' = {| l_completed := l_completed s + 1;
                                l_failed := l_failed s;
                                l_sink := l_sink s |}
      else
        (b = Ok (negb (FuzzConfig.continue_on_failure (FuzzRunner.config r)))
         /\ l_completed s' = l_completed s + 1
         /\ l_failed s' = l_failed s + 1)
        \/ (b = Ok false
            /\ l_completed s' = l_completed s + 2
            /\ l_failed s' = l_failed s + 2
            /\ truthy_opt (FuzzConfig.error_file (FuzzRunner.config r)) = true
            /\ FuzzRunner.error_file_handle r = true)
  | Raise e =>
      if is_Exception e then
        b = Ok false /\ s' = {| l_completed := l_completed s + 1;
                                l_failed := l_failed s + 1;
                                l_sink := l_sink s |}
      else b = Raise e /\ s' = s
  end.
Proof.
  unfold loop_body, try_except. destruct o as [res|e].
  - unfold bind at 1. unfold lift at 1.
    unfold bind at 1. unfold incr_completed at 1, modify at 1.
    destruct (FuzzResult.success res); cbn [negb].
    + unfold ret. intros [= <- <-]. split; reflexivity.
    + unfold bind at 1. unfold incr_failed at 1, modify at 1.
      unfold bind at 1. unfold when at 1.
      destruct (truthy_opt (FuzzConfig.error_file (FuzzRunner.config r))).
      * match goal with
        | |- context [match ?m ?x with _ => _ end] =>
            match m with
            | bind _ _ => destruct (m x) as [o1 s1] eqn:E
            end
        end.
        destruct (log_block_counters _ _ _ _ _ E) as (C & F & [->|[text ->]]);
          cbn [l_completed l_failed] in *.
        -- destruct (FuzzConfig.continue_on_failure (FuzzRunner.config r));
             cbn [negb]; unfold ret; intros [= <- <-]; left; auto.
        -- cbn [is_Exception]. unfold bind, incr_completed, incr_failed,
             modify, ret. intros [= <- <-]. right. cbn.
           repeat split; try lia.
           unfold bind, on_sink, _log_error, when in E.
           destruct (FuzzRunner.error_file_handle r); [reflexivity|].
           unfold ret in E. cbn in E.
           destruct (truthy (FuzzResult.error res)); cbn in E; discriminate.
      * unfold ret at 1. cbn beta iota.
        destruct (FuzzConfig.continue_on_failure (FuzzRunner.config r));
          cbn [negb]; unfold ret; intros [= <- <-]; left; auto.
  - unfold bind at 1. unfold lift at 1.
    destruct (is_Exception e).
    + unfold bind, incr_completed, incr_failed, modify, ret.
      intros [= <- <-]. split; reflexivity.
    + intros [= <- <-]. split; reflexivity.
Qed.

(** The counters never go down in a turn of the loop, and [failed] never
    gains more than [completed]. *)
Lemma loop_body_counters (r : FuzzRunner.t) (o : Outcome FuzzResult.t)
      (s s' : Loop) (b : Outcome bool) :
  loop_body r o s = (b, s') ->
  l_completed s <= l_completed s' <= l_completed s + 2
  /\ l_failed s <= l_failed s'
  /\ l_failed s' - l_failed s <= l_completed s' - l_completed s.
Proof.
  intros H. apply loop_body_cases in H. destruct o as [res|e].
  - destruct (FuzzResult.success res).
    + destruct H as [_ ->]. cbn. lia.
    + destruct H as [(_ & C & F)|(_ & C & F & _)]; lia.
  - destruct (is_Exception e); destruct H as [_ ->]; cbn; lia.
Qed.

(** The loop breaks only on a failing result, with the policy unset, and
    then the result has been counted once. *)
Lemma loop_body_break (r : FuzzRunner.t) (o : Outcome FuzzResult.t)
      (s s' : Loop) :
  loop_body r o s = (Ok true, s') ->
  FuzzConfig.continue_on_failure (FuzzRunner.config r) = false
  /\ l_completed s' = l_completed s + 1
  /\ l_failed s' = l_failed s + 1
  /\ exists res, o = Ok res /\ FuzzResult.success res = false.
Proof.
  intros H. apply loop_body_cases in H. destruct o as [res|e].
  - destruct (FuzzResult.success res) eqn:Hs.
    + destruct H as [[=] _].
    + destruct H as [([= Hb] & C & F)|([=] & _)].
      symmetry in Hb. apply negb_true_iff in Hb. eauto 10.
  - destruct (is_Exception e); destruct H as [[=] _].
Qed.

(** With the policy set the loop never breaks. *)
Lemma loop_body_continue (r : FuzzRunner.t) (o : Outcome FuzzResult.t)
      (s s' : Loop) (b : Outcome bool) :
  FuzzConfig.continue_on_failure (FuzzRunner.config r) = true ->
  loop_body r o s = (b, s') -> b <> Ok true.
Proof.
  intros Hc H ->. apply loop_body_break in H. destruct H as [H _]. congruence.
Qed.

Lemma on_sink_log_quiet (r : FuzzRunner.t) (message : string) (s : Loop) :
  quiet r (l_sink s) ->
  exists k,
    on_sink (_log_error r message) s
    = (Ok tt, {| l_completed := l_completed s; l_failed := l_failed s;
                 l_sink := k |})
    /\ quiet r k
    /\ (buffered (l_sink s) = [] ->
        buffered k = []
        /\ written k = written (l_sink s) ++ records r [message]).
Proof.
  intros Hq. destruct (log_error_quiet r message (l_sink s) Hq)
    as (k & E & Hk & W).
  exists k. unfold on_sink. rewrite E. now split.
Qed.

Lemma bind_ok {S A B} (m : M S A) (k : A -> M S B) (s s' : S) (a : A) :
  m s = (Ok a, s') -> bind m k s = k a s'.
Proof. unfold bind. now intros ->. Qed.

Lemma log_block_quiet (r : FuzzRunner.t) (res : FuzzResult.t) (s : Loop) :
  quiet r (l_sink s) ->
  exists k,
    (on_sink (_log_error r (failed_line res)) ;;;
     when (truthy (FuzzResult.error res))
          (on_sink (_log_error r (details_line res))) ;;;
     on_sink (_log_error r separator)) s
    = (Ok tt, {| l_completed := l_completed s; l_failed := l_failed s;
                 l_sink := k |})
    /\ quiet r k
    /\ (buffered (l_sink s) = [] ->
        buffered k = []
        /\ written k = written (l_sink s) ++ records r (block_messages res)).
Proof.
  intros Hq.
  destruct (on_sink_log_quiet r (failed_line res) s Hq) as (k1 & E1 & Hq1 & W1).
  rewrite (bind_ok _ _ _ _ _ E1).
  unfold block_messages, when.
  destruct (truthy (FuzzResult.error res)).
  - set (s1 := {| l_completed := l_completed s; l_failed := l_failed s;
                  l_sink := k1 |}) in *.
    destruct (on_sink_log_quiet r (details_line res) s1 Hq1)
      as (k2 & E2 & Hq2 & W2).
    rewrite (bind_ok _ _ _ _ _ E2).
    set (s2 := {| l_completed := l_completed s1; l_failed := l_failed s1;
                  l_sink := k2 |}) in *.
    destruct (on_sink_log_quiet r separator s2 Hq2) as (k3 & E3 & Hq3 & W3).
    exists k3. split; [exact E3|]. split; [exact Hq3|].
    intros Hb. subst s1 s2. cbn [l_sink] in *.
    destruct (W1 Hb) as [B1 W1']. destruct (W2 B1) as [B2 W2'].
    destruct (W3 B2) as [B3 W3']. split; [exact B3|].
    rewrite W3', W2', W1'.
    change (failed_line res :: [details_line res] ++ [separator])
      with ([failed_line res] ++ [details_line res] ++ [separator]).
    rewrite !records_app, <- !app_assoc. reflexivity.
  - unfold ret at 1. cbn beta iota.
    set (s1 := {| l_completed := l_completed s; l_failed := l_failed s;
                  l_sink := k1 |}) in *.
    erewrite bind_ok by reflexivity.
    destruct (on_sink_log_quiet r separator s1 Hq1) as (k3 & E3 & Hq3 & W3).
    exists k3. split; [exact E3|]. split; [exact Hq3|].
    intros Hb. subst s1. cbn [l_sink] in *.
    destruct (W1 Hb) as [B1 W1']. destruct (W3 B1) as [B3 W3'].
    split; [exact B3|]. rewrite W3', W1'.
    change (failed_line res :: [] ++ [separator])
      with ([failed_line res] ++ [separator]).
    rewrite !records_app, <- !app_assoc. reflexivity.
Qed.

Lemma loop_body_quiet (r : FuzzRunner.t) (o : Outcome FuzzResult.t) (s : Loop) :
  consistent r ->
  quiet r (l_sink s) ->
  exists s',
    loop_body r o s = (loop_flag r o, s')
    /\ l_completed s' = l_completed s + completed_gain o
    /\ l_failed s' = l_failed s + failed_gain o
    /\ (buffered (l_sink s) = [] ->
        buffered (l_sink s') = []
        /\ written (l_sink s')
           = written (l_sink s) ++ records r (loop_messages o)).
Proof.
  intros Hh Hq. unfold loop_body, try_except.
  pose proof (records_nil r) as Hnil.
  destruct o as [res|e];
    cbn [loop_flag completed_gain failed_gain loop_messages].
  - erewrite bind_ok by reflexivity.
    erewrite bind_ok by reflexivity.
    destruct (FuzzResult.success res); cbn [negb andb].
    + unfold ret. eexists. split; [reflexivity|]. cbn.
      rewrite Hnil, app_nil_r. repeat split; auto; lia.
    + erewrite bind_ok by reflexivity.
      unfold when at 1.
      destruct (truthy_opt (FuzzConfig.error_file (FuzzRunner.config r))) eqn:Hf.
      * match goal with
        | |- context [bind (bind (on_sink _) _) _ ?x] => set (s1 := x)
        end.
        destruct (log_block_quiet r res s1 Hq) as (k & E & Hk & W).
        rewrite (bind_ok _ _ _ _ _ E).
        destruct (FuzzConfig.continue_on_failure (FuzzRunner.config r));
          cbn [negb]; unfold ret; eexists; (split; [reflexivity|]);
          subst s1; cbn [l_completed l_failed l_sink] in *;
          (split; [lia|split; [lia|exact W]]).
      * erewrite bind_ok by reflexivity.
        assert (Hrec : records r (block_messages res) = []).
        { unfold records. unfold consistent in Hh. now rewrite Hh, Hf. }
        destruct (FuzzConfig.continue_on_failure (FuzzRunner.config r));
          cbn [negb]; unfold ret; eexists; (split; [reflexivity|]);
          cbn [l_completed l_failed l_sink]; rewrite Hrec, app_nil_r;
          repeat split; auto; lia.
  - unfold bind at 1. unfold lift.
    destruct (is_Exception e).
    + unfold bind, incr_completed, incr_failed, modify, ret.
      eexists. split; [reflexivity|]. cbn. rewrite Hnil, app_nil_r.
      repeat split; auto; lia.
    + eexists. split; [reflexivity|]. cbn. rewrite Hnil, app_nil_r.
      repeat split; auto; lia.
Qed.

(** ** The pool *)

Lemma idle_lookup (fs : list Status) (i : nat) :
  idle fs = true -> fs !! i <> Some Pending /\ fs !! i <> Some Running.
Proof.
  unfold idle. rewrite forallb_forall. intros H.
  destruct (fs !! i) as [s|] eqn:E; [|split; discriminate].
  apply list_elem_of_lookup_2, list_elem_of_In, H in E.
  destruct s; cbn in E; split; congruence.
Qed.

Ltac step_inv H :=
  unfold step in H;
  repeat match type of H with
         | context [match ?x with _ => _ end] => destruct x eqn:?
         end;
  try discriminate; simplify_eq.

(** Once the main thread is past the block nothing happens any more. *)
Lemma ended_stuck (r : FuzzRunner.t) (targets : list FuzzTarget.t)
      (st : State) (ev : Event) :
  is_ended (phase st) = true -> step r targets st ev = None.
Proof. unfold step. now intros ->. Qed.

Lemma step_not_ended (r : FuzzRunner.t) (targets : list FuzzTarget.t)
      (st st' : State) (ev : Event) :
  step r targets st ev = Some st' -> is_ended (phase st) = false.
Proof.
  intros H. destruct (is_ended (phase st)) eqn:E; [|reflexivity].
  now rewrite ended_stuck in H.
Qed.

(** The counters never go down, [failed] never gains more than
    [completed], and only a turn of the loop changes them. *)
Lemma step_counters (r : FuzzRunner.t) (targets : list FuzzTarget.t)
      (st st' : State) (ev : Event) :
  step r targets st ev = Some st' ->
  completed st <= completed st'
  /\ failed st <= failed st'
  /\ failed st' - failed st <= completed st' - completed st
  /\ (phase st <> Looping ->
      completed st' = completed st /\ failed st' = failed st).
Proof.
  intros H. step_inv H; cbn; try (repeat split; (lia || congruence)).
  all: match goal with
       | E : loop_body _ _ _ = _ |- _ =>
           apply loop_body_counters in E; cbn in E
       end; repeat split; (lia || congruence).
Qed.

(** ** Stopping on the first failure *)

Lemma insert_keeps_not_pending (fs : list Status) (i j : nat) (s : Status) :
  s <> Pending -> fs !! j <> Some Pending -> <[i := s]> fs !! j <> Some Pending.
Proof.
  intros Hs Hj H. apply list_lookup_insert_Some in H.
  destruct H as [(_ & -> & _)|[_ H]]; congruence.
Qed.

Lemma idle_insert_done (fs : list Status) (i : nat) (o : Outcome FuzzResult.t) :
  idle fs = true -> idle (<[i := Done o]> fs) = true.
Proof.
  unfold idle. rewrite !forallb_forall. intros H s Hs.
  apply list_elem_of_In, list_elem_of_lookup in Hs. destruct Hs as [j Hj].
  apply list_lookup_insert_Some in Hj.
  destruct Hj as [(_ & <- & _)|[_ Hj]]; [reflexivity|].
  apply H, list_elem_of_In, list_elem_of_lookup. eauto.
Qed.

Lemma stopping_step (r : FuzzRunner.t) (targets : list FuzzTarget.t)
      (st st' : State) (ev : Event) :
  stopping st -> step r targets st ev = Some st' -> stopping st'.
Proof.
  unfold stopping. intros P H. destruct ev.
  - (* Dispatch *)
    step_inv H. cbn [phase futures set_futures].
    destruct (phase st) as [|k|[e|]|e]; try easy.
    + intros j Hj. apply insert_keeps_not_pending; [discriminate|auto].
    + exfalso. eapply P; eauto.
  - (* Finish *)
    step_inv H. cbn [phase futures].
    destruct (phase st) as [|k|[e|]|e]; try easy.
    + intros j Hj. apply insert_keeps_not_pending; [discriminate|auto].
    + intros j. apply insert_keeps_not_pending; [discriminate|auto].
  - (* Collect *)
    step_inv H; contradiction.
  - (* Cancel *)
    destruct (phase st) as [|k|[e|]|e] eqn:Hp; unfold step in H;
      rewrite Hp in H; cbn [is_ended] in H; try discriminate.
    destruct (k <? List.length (futures st))%nat eqn:Hk; simplify_eq;
      cbn [phase futures set_phase set_futures].
    + intros j Hj.
      destruct (decide (j = k)) as [->|Hne].
      * destruct (futures st !! k) as [[| | |]|] eqn:Hl; try congruence.
        rewrite list_lookup_insert_eq; [discriminate|].
        now apply Nat.ltb_lt.
      * assert (Hlt : (j < k)%nat) by lia.
        destruct (futures st !! k) as [[| | |]|]; auto.
        apply insert_keeps_not_pending; [discriminate|auto].
    + intros j. apply Nat.ltb_ge in Hk.
      destruct (decide (j < k)%nat) as [Hlt|Hge]; [auto|].
      rewrite lookup_ge_None_2; [discriminate|lia].
  - (* Interrupt *)
    step_inv H; cbn; auto.
  - (* Exit *)
    step_inv H; cbn; auto; try contradiction.
Qed.

Lemma stopping_not_looping (st : State) : stopping st -> phase st <> Looping.
Proof. unfold stopping. now destruct (phase st). Qed.

(** Once the loop has decided to stop, the counters are final. *)
Lemma stopping_exec (r : FuzzRunner.t) (targets : list FuzzTarget.t)
      (schedule : list Event) :
  forall st st',
    stopping st -> exec r targets st schedule = Some st' ->
    stopping st' /\ completed st' = completed st /\ failed st' = failed st.
Proof.
  induction schedule as [|ev rest IH]; intros st st' P H; cbn [exec] in H.
  - now simplify_eq.
  - destruct (step r targets st ev) as [st1|] eqn:E; [|discriminate].
    pose proof (stopping_step _ _ _ _ _ P E) as P1.
    destruct (step_counters _ _ _ _ _ E) as (_ & _ & _ & Hsame).
    destruct (Hsame (stopping_not_looping _ P)) as [Hc Hf].
    destruct (IH _ _ P1 H) as (P' & Hc' & Hf'). split; [exact P'|]. lia.
Qed.

Lemma idle_no_pending (fs : list Status) :
  idle fs = true -> no_pending fs.
Proof. intros H j. now apply idle_lookup. Qed.

Lemma drained_no_pending (st : State) : drained st -> no_pending (futures st).
Proof.
  unfold drained. destruct (phase st) as [|k|e|[e|]]; try easy.
  apply idle_no_pending.
Qed.

(** Once the cancellation loop is over no future is pending, whatever
    happens, and the call returns only with an idle pool. *)
Lemma drained_step (r : FuzzRunner.t) (targets : list FuzzTarget.t)
      (st st' : State) (ev : Event) :
  drained st -> step r targets st ev = Some st' -> drained st'.
Proof.
  intros P H. pose proof (drained_no_pending _ P) as Hnp.
  unfold drained in *. destruct ev.
  - step_inv H. exfalso. eapply Hnp; eauto.
  - step_inv H. cbn [phase futures].
    destruct (phase st) as [|k|e|[e|]]; try easy;
      intros j; apply insert_keeps_not_pending; (discriminate || auto).
  - step_inv H; contradiction.
  - step_inv H; contradiction.
  - step_inv H; cbn [phase set_phase futures]; try contradiction; auto.
  - step_inv H; cbn [phase set_phase futures]; try contradiction.
    destruct e; [now apply idle_no_pending|assumption].
Qed.

Lemma drained_exec (r : FuzzRunner.t) (targets : list FuzzTarget.t)
      (schedule : list Event) :
  forall st st',
    drained st -> exec r targets st schedule = Some st' -> drained st'.
Proof.
  induction schedule as [|ev rest IH]; intros st st' P H; cbn [exec] in H.
  - now simplify_eq.
  - destruct (step r targets st ev) as [st1|] eqn:E; [|discriminate].
    eapply IH; [|exact H]. eapply drained_step; eauto.
Qed.

Lemma finish_enabled (r : FuzzRunner.t) (targets : list FuzzTarget.t)
      (st : State) (j : nat) (target : FuzzTarget.t) (w : WorkerEnv)
      (io : list (option Fault)) :
  is_ended (phase st) = false ->
  futures st !! j = Some Running -> targets !! j = Some target ->
  exists st', step r targets st (Finish j w io) = Some st'
              /\ exists o, futures st' !! j = Some (Done o).
Proof.
  intros He Hr Ht. unfold step. rewrite He, Hr, Ht.
  destruct (_run_single_fuzz_test r target w _) as [o k].
  eexists. split; [reflexivity|]. exists o. cbn [futures].
  apply list_lookup_insert_eq. eapply lookup_lt_Some, Hr.
Qed.

(** After the cancellation loop the main thread waits for the pool:
    the call returns, or an interrupt ends the wait. *)
Lemma leaving_none_step (r : FuzzRunner.t) (targets : list FuzzTarget.t)
      (st st' : State) (ev : Event) :
  step r targets st ev = Some st' ->
  phase st = Leaving None ->
  phase st' = Leaving None \/ phase st' = Ended None
  \/ phase st' = Ended (Some KeyboardInterrupt).
Proof.
  intros H Hp. step_inv H; cbn [phase set_phase set_futures];
    simplify_eq; auto.
Qed.

Lemma leaving_none_exec (r : FuzzRunner.t) (targets : list FuzzTarget.t)
      (schedule : list Event) :
  forall st st',
    exec r targets st schedule = Some st' ->
    phase st = Leaving None ->
    phase st' = Leaving None \/ phase st' = Ended None
    \/ phase st' = Ended (Some KeyboardInterrupt).
Proof.
  induction schedule as [|ev rest IH]; intros st st' H Hp; cbn [exec] in H.
  - simplify_eq. auto.
  - destruct (step r targets st ev) as [st1|] eqn:E; [|discriminate].
    destruct (leaving_none_step _ _ _ _ _ E Hp) as [Hp1|Hp1]; [eauto|].
    destruct rest as [|ev' rest']; cbn [exec] in H; [now simplify_eq; auto|].
    rewrite ended_stuck in H; [discriminate|].
    destruct Hp1 as [->| ->]; reflexivity.
Qed.

(** C1, amended: with continue_on_failure unset, when the loop has met
    a failing outcome and its cancellation loop has gone over all the
    futures, no target is pending any more and none is started from
    then on; a target that was running by then can still finish, and
    the call returns only once the pool is idle, unless an interrupt
    ends the wait; but the outcome of such a target is not counted:
    [completed] and [failed] keep the values they had when the failing
    outcome was counted. *)
Theorem abort_freezes_counters_and_queue (r : FuzzRunner.t)
        (targets : list FuzzTarget.t) (st0 st1 st2 st3 : State)
        (i : nat) (io : list (option Fault)) (mid post : list Event) :
  step r targets st0 (Collect i io) = Some st1 ->
  phase st1 = Cancelling 0 ->
  exec r targets st1 mid = Some st2 ->
  phase st2 = Leaving None ->
  exec r targets st2 post = Some st3 ->
  (FuzzConfig.continue_on_failure (FuzzRunner.config r) = false
   /\ completed st1 = completed st0 + 1
   /\ failed st1 = failed st0 + 1
   /\ exists res, futures st0 !! i = Some (Done (Ok res))
                  /\ FuzzResult.success res = false)
  /\ no_pending (futures st3)
  /\ (forall j, step r targets st3 (Dispatch j) = None)
  /\ completed st3 = completed st1
  /\ failed st3 = failed st1
  /\ (forall j target w io',
        phase st3 = Leaving None ->
        futures st3 !! j = Some Running -> targets !! j = Some target ->
        exists st4, step r targets st3 (Finish j w io') = Some st4
                    /\ exists o, futures st4 !! j = Some (Done o))
  /\ (phase st3 = Leaving None \/ phase st3 = Ended None
      \/ phase st3 = Ended (Some KeyboardInterrupt))
  /\ (phase st3 = Leaving None -> idle (futures st3) = false ->
      step r targets st3 Exit = None)
  /\ (phase st3 = Ended None -> idle (futures st3) = true).
Proof.
  intros Hc Hp Hmid Hl Hpost.
  assert (P1 : stopping st1).
  { unfold stopping. rewrite Hp. intros j Hj. lia. }
  destruct (stopping_exec _ _ _ _ _ P1 Hmid) as (P2 & Hc2 & Hf2).
  assert (D2 : drained st2).
  { unfold drained. unfold stopping in P2. now rewrite Hl in *. }
  pose proof (drained_exec _ _ _ _ _ D2 Hpost) as D3.
  assert (P2' : stopping st2) by exact P2.
  destruct (stopping_exec _ _ _ _ _ P2' Hpost) as (_ & Hc3 & Hf3).
  pose proof (drained_no_pending _ D3) as Hnp.
  split; [|split; [exact Hnp|split; [|split; [lia|split; [lia|split;
    [|split; [|split]]]]]]].
  - unfold step in Hc.
    destruct (is_ended (phase st0)); [discriminate|].
    destruct (phase st0) eqn:Hp0; try discriminate.
    destruct (futures st0 !! i) as [[| |o|]|] eqn:Hi; try discriminate.
    destruct (existsb (Nat.eqb i) (yielded st0)); [discriminate|].
    destruct (loop_body r o _) as [b l] eqn:Hb.
    simplify_eq. cbn [phase completed failed] in *.
    destruct b as [[|]|]; try discriminate.
    apply loop_body_break in Hb. cbn in Hb.
    destruct Hb as (Hcof & Hcompleted & Hfailed & res & -> & Hres). eauto 10.
  - intros j. unfold step.
    destruct (is_ended (phase st3)); [reflexivity|].
    destruct (futures st3 !! j) as [[| | |]|] eqn:Hj; try reflexivity.
    exfalso. exact (Hnp _ Hj).
  - intros j target w io' Hp3 Hr Ht. eapply finish_enabled; eauto.
    now rewrite Hp3.
  - eapply leaving_none_exec; eauto.
  - intros Hp3 Hidle. unfold step. rewrite Hp3. cbn [is_ended].
    now rewrite Hidle.
  - intros He. unfold drained in D3. now rewrite He in D3.
Qed.

(** C1, as the claim states it, fails: with one worker and two targets,
    the worker takes target b after the loop has counted the failure of
    target a, and b then runs to its outcome while the main thread waits
    for the pool; the run ends with two outcomes and [completed] at 1. *)
Lemma abort_leaves_inflight_outcome_uncounted :
  FuzzConfig.continue_on_failure (FuzzRunner.config stop_runner) = false
  /\ (exists st,
        exec stop_runner [target_a; target_b] (start [target_a; target_b] [])
             (abort_prefix ++ [Collect 0 []]) = Some st
        /\ phase st = Cancelling 0
        /\ failed st = 1
        /\ futures st !! 1%nat = Some Pending
        /\ exists st', step stop_runner [target_a; target_b] st (Dispatch 1)
                       = Some st'
                       /\ futures st' !! 1%nat = Some Running)
  /\ (exists st,
        exec stop_runner [target_a; target_b] (start [target_a; target_b] [])
             (abort_prefix ++ [Collect 0 []] ++ abort_mid ++ abort_post) = Some st
        /\ phase st = Ended None
        /\ outcomes (futures st) = 2%nat
        /\ completed st = 1
        /\ failed st = 1)
  /\ run_fuzz_tests stop_runner [target_a; target_b]
       (abort_prefix ++ [Collect 0 []] ++ abort_mid ++ abort_post) []
     = Some (Ok {| s_completed := 1; s_failed := 1 |}, [], []).
Proof.
  split; [reflexivity|]. split; [|split].
  - eexists. split; [vm_compute; reflexivity|]. cbn.
    repeat split. eexists. split; [vm_compute; reflexivity|]. reflexivity.
  - eexists. split; [vm_compute; reflexivity|]. repeat split.
  - vm_compute. reflexivity.
Qed.

(** An interrupt that reaches the main thread while it waits for the
    pool ends the call with target b still running. *)
Example interrupt_ends_the_wait :
  exists st,
    exec stop_runner [target_a; target_b] (start [target_a; target_b] [])
         (abort_prefix ++ [Collect 0 []] ++ abort_mid ++ abort_interrupted)
    = Some st
    /\ phase st = Ended (Some KeyboardInterrupt)
    /\ futures st !! 1%nat = Some Running.
Proof. eexists. split; [vm_compute; reflexivity|]. split; reflexivity. Qed.

Lemma abort_freezes_counters_and_queue_witness :
  let targets := [target_a; target_b] in
  let st0 := state_after stop_runner targets abort_prefix in
  let st1 := state_after stop_runner targets (abort_prefix ++ [Collect 0 []]) in
  let st3 := state_after stop_runner targets
               (abort_prefix ++ [Collect 0 []] ++ abort_mid ++ abort_post) in
  (FuzzConfig.continue_on_failure (FuzzRunner.config stop_runner) = false
   /\ completed st1 = completed st0 + 1
   /\ failed st1 = failed st0 + 1
   /\ exists res, futures st0 !! 0%nat = Some (Done (Ok res))
                  /\ FuzzResult.success res = false)
  /\ no_pending (futures st3)
  /\ (forall j, step stop_runner targets st3 (Dispatch j) = None)
  /\ completed st3 = completed st1
  /\ failed st3 = failed st1
  /\ (forall j target w io',
        phase st3 = Leaving None ->
        futures st3 !! j = Some Running -> targets !! j = Some target ->
        exists st4, step stop_runner targets st3 (Finish j w io') = Some st4
                    /\ exists o, futures st4 !! j = Some (Done o))
  /\ (phase st3 = Leaving None \/ phase st3 = Ended None
      \/ phase st3 = Ended (Some KeyboardInterrupt))
  /\ (phase st3 = Leaving None -> idle (futures st3) = false ->
      step stop_runner targets st3 Exit = None)
  /\ (phase st3 = Ended None -> idle (futures st3) = true).
Proof.
  apply (abort_freezes_counters_and_queue stop_runner [target_a; target_b]
           (state_after stop_runner [target_a; target_b] abort_prefix)
           (state_after stop_runner [target_a; target_b]
              (abort_prefix ++ [Collect 0 []]))
           (state_after stop_runner [target_a; target_b]
              (abort_prefix ++ [Collect 0 []] ++ abort_mid))
           (state_after stop_runner [target_a; target_b]
              (abort_prefix ++ [Collect 0 []] ++ abort_mid ++ abort_post))
           0%nat [] abort_mid abort_post).
  - vm_compute. reflexivity.
  - vm_compute. reflexivity.
  - vm_compute. reflexivity.
  - vm_compute. reflexivity.
  - vm_compute. reflexivity.
Defined.

(** ** Invariants of the pool *)

(** A future that is done stays as it is. *)
Lemma done_stable (r : FuzzRunner.t) (targets : list FuzzTarget.t)
      (st st' : State) (ev : Event) (i : nat) (o : Outcome FuzzResult.t) :
  step r targets st ev = Some st' ->
  futures st !! i = Some (Done o) -> futures st' !! i = Some (Done o).
Proof.
  intros H Hi. destruct ev.
  - step_inv H. cbn [futures set_futures].
    rewrite list_lookup_insert_ne; [exact Hi|]. intros ->. congruence.
  - step_inv H. cbn [futures].
    rewrite list_lookup_insert_ne; [exact Hi|]. intros ->. congruence.
  - step_inv H; exact Hi.
  - step_inv H; cbn [futures set_futures set_phase]; try exact Hi.
    rewrite list_lookup_insert_ne; [exact Hi|]. intros ->. congruence.
  - step_inv H; exact Hi.
  - step_inv H; exact Hi.
Qed.

Lemma step_length (r : FuzzRunner.t) (targets : list FuzzTarget.t)
      (st st' : State) (ev : Event) :
  step r targets st ev = Some st' ->
  List.length (futures st') = List.length (futures st).
Proof.
  intros H. step_inv H; cbn [futures set_futures set_phase];
    rewrite ?length_insert; reflexivity.
Qed.

Lemma existsb_eqb_false (i : nat) (l : list nat) :
  existsb (Nat.eqb i) l = false -> ~ In i l.
Proof.
  intros H Hin. assert (existsb (Nat.eqb i) l = true); [|congruence].
  apply existsb_exists. exists i. split; [exact Hin|apply Nat.eqb_refl].
Qed.

Lemma well_formed_step (r : FuzzRunner.t) (targets : list FuzzTarget.t)
      (st st' : State) (ev : Event) :
  well_formed targets st -> step r targets st ev = Some st' ->
  well_formed targets st'.
Proof.
  intros (Hlen & Hnd & Hdone) H. split; [|split].
  - rewrite (step_length _ _ _ _ _ H). exact Hlen.
  - destruct ev; step_inv H; cbn [yielded set_futures set_phase]; auto;
      apply List.NoDup_cons; auto using existsb_eqb_false.
  - assert (Hy : forall i, In i (yielded st') ->
                           In i (yielded st)
                           \/ exists o, futures st !! i = Some (Done o)).
    { destruct ev; step_inv H; cbn [yielded set_futures set_phase]; auto;
        intros j [<-|Hj]; eauto. }
    intros i Hi. destruct (Hy i Hi) as [Hin|[o Ho]].
    + destruct (Hdone i Hin) as [o Ho]. exists o.
      eapply done_stable; eauto.
    + exists o. eapply done_stable; eauto.
Qed.

Lemma well_formed_start (targets : list FuzzTarget.t) (sink0 : list string) :
  well_formed targets (start targets sink0).
Proof.
  split; [|split]; cbn.
  - apply List.length_map.
  - constructor.
  - intros i [].
Qed.

Lemma yielded_bounded (targets : list FuzzTarget.t) (st : State) :
  well_formed targets st ->
  (List.length (yielded st) <= List.length targets)%nat.
Proof.
  intros (Hlen & Hnd & Hdone).
  rewrite <- (List.length_seq (List.length targets) 0).
  apply List.NoDup_incl_length; [exact Hnd|].
  intros i Hi. destruct (Hdone i Hi) as [o Ho].
  apply lookup_lt_Some in Ho. apply List.in_seq. lia.
Qed.

Lemma init_consistent (config : FuzzConfig.t) (cpu_count : option Z) :
  consistent (FuzzRunner.init config cpu_count).
Proof. reflexivity. Qed.

(** What a turn of the loop makes of the state when its writes cannot
    raise. *)
Lemma collect_clean (r : FuzzRunner.t) (targets : list FuzzTarget.t)
      (st st' : State) (i : nat) (io : list (option Fault)) :
  consistent r -> calm r io ->
  step r targets st (Collect i io) = Some st' ->
  exists o,
    phase st = Looping
    /\ futures st !! i = Some (Done o)
    /\ ~ In i (yielded st)
    /\ futures st' = futures st
    /\ yielded st' = i :: yielded st
    /\ phase st' = match loop_flag r o with
                   | Ok true => Cancelling 0
                   | Ok false => Looping
                   | Raise e => Leaving (Some e)
                   end
    /\ completed st' = completed st + completed_gain o
    /\ failed st' = failed st + failed_gain o
    /\ launched st' = launched st
    /\ (flushed st ->
        flushed st' /\ sink st' = sink st ++ records r (loop_messages o)).
Proof.
  intros Hr Hio H. unfold step in H.
  destruct (is_ended (phase st)); [discriminate|].
  destruct (phase st) eqn:Hp; try discriminate.
  destruct (futures st !! i) as [[| |o|]|] eqn:Hi; try discriminate.
  destruct (existsb (Nat.eqb i) (yielded st)) eqn:Hy; [discriminate|].
  destruct (loop_body_quiet r o
              {| l_completed := completed st; l_failed := failed st;
                 l_sink := {| written := sink st; buffered := unflushed st;
                              faults := io |} |} Hr Hio)
    as (l & E & Hc & Hf & Hw).
  rewrite E in H. simplify_eq. cbn in *.
  exists o. repeat split; auto using existsb_eqb_false; now apply Hw.
Qed.

Lemma regular_back (r : FuzzRunner.t) (targets : list FuzzTarget.t)
      (st st' : State) (ev : Event) :
  step r targets st ev = Some st' ->
  regular (phase st') = true -> regular (phase st) = true.
Proof.
  intros H. step_inv H; cbn [phase set_phase set_futures]; auto;
    try (rewrite ?Heqp; reflexivity); try discriminate.
Qed.

Lemma other_steps_keep (r : FuzzRunner.t) (targets : list FuzzTarget.t)
      (st st' : State) (ev : Event) :
  (forall i io, ev <> Collect i io) ->
  step r targets st ev = Some st' ->
  yielded st' = yielded st /\ completed st' = completed st
  /\ failed st' = failed st.
Proof.
  intros Hev H. destruct ev; try (now step_inv H).
  now destruct (Hev i io).
Qed.


Lemma counted_step (r : FuzzRunner.t) (targets : list FuzzTarget.t)
      (st st' : State) (ev : Event) :
  consistent r -> calm_loop r ev ->
  counted st -> step r targets st ev = Some st' -> counted st'.
Proof.
  intros Hr Hev [Hle Heq] H.
  destruct (match ev with Collect _ _ => true | _ => false end) eqn:Hk.
  - destruct ev; try discriminate. cbn [main_clean] in Hev.
    destruct (collect_clean _ _ _ _ _ _ Hr Hev H)
      as (o & Hp & _ & _ & _ & Hy & Hp' & Hc & _).
    rewrite Hp in Heq. specialize (Heq eq_refl).
    unfold counted. rewrite Hy, Hc, Hp'. cbn [List.length].
    destruct o as [res|e]; cbn [completed_gain loop_flag].
    + split; lia.
    + destruct (is_Exception e); cbn [regular]; split; (lia || discriminate).
  - assert (Hne : forall i io, ev <> Collect i io).
    { intros i io Heq'. rewrite Heq' in Hk. discriminate. }
    destruct (other_steps_keep _ _ _ _ _ Hne H) as (Hy & Hc & _).
    unfold counted. rewrite Hy, Hc. split; [exact Hle|].
    intros Hreg. apply Heq. eapply regular_back; eauto.
Qed.

Lemma runs_to_end_step (r : FuzzRunner.t) (targets : list FuzzTarget.t)
      (st st' : State) (ev : Event) :
  FuzzConfig.continue_on_failure (FuzzRunner.config r) = true ->
  runs_to_end st -> step r targets st ev = Some st' -> runs_to_end st'.
Proof.
  unfold runs_to_end. intros Hc P H. destruct ev.
  - step_inv H. cbn [phase set_futures yielded futures].
    destruct (phase st) as [|k|[e|]|[e|]]; auto.
    now rewrite length_insert.
  - step_inv H. cbn [phase yielded futures].
    destruct (phase st) as [|k|[e|]|[e|]]; auto.
    now rewrite length_insert.
  - step_inv H; cbn [phase]; auto.
    exfalso. eapply loop_body_continue; eauto.
  - step_inv H; contradiction.
  - step_inv H; cbn [phase set_phase]; auto.
  - step_inv H; cbn [phase set_phase yielded futures]; auto.
    + now apply Nat.eqb_eq.
    + match goal with e : option Exn |- _ => destruct e end;
        [exact I|contradiction].
Qed.

(** ** A worker and a sink that cannot raise *)

Lemma sandbox_calm (r : FuzzRunner.t) (target : FuzzTarget.t)
      (w : WorkerEnv) (h : Host) :
  quiet r (h_sink h) ->
  exists h',
    _run_single_fuzz_test r target w h = (worker_outcome r target w, h')
    /\ quiet r (h_sink h')
    /\ (buffered (h_sink h) = [] ->
        buffered (h_sink h') = []
        /\ written (h_sink h')
           = written (h_sink h) ++ records r (worker_log r target w)).
Proof.
  intros Hq. unfold worker_outcome, worker_log.
  destruct (budget r) as [g|e] eqn:Hg.
  - destruct (cwd_logged w) as [dir|text] eqn:Hd.
    + exact (sandbox_quiet r target w h g dir Hg Hd Hq).
    + exists h. unfold _run_single_fuzz_test, bind, lift. rewrite Hg, Hd.
      cbn [of_try]. split; [reflexivity|]. split; [exact Hq|].
      intros Hb. now rewrite records_nil, app_nil_r.
  - exists h. unfold _run_single_fuzz_test, bind, lift. rewrite Hg.
    split; [reflexivity|]. split; [exact Hq|].
    intros Hb. now rewrite records_nil, app_nil_r.
Qed.

(** What the return of a worker makes of the state. *)
Lemma finish_any (r : FuzzRunner.t) (targets : list FuzzTarget.t)
      (st st' : State) (i : nat) (w : WorkerEnv) (io : list (option Fault)) :
  step r targets st (Finish i w io) = Some st' ->
  exists target o,
    futures st !! i = Some Running
    /\ targets !! i = Some target
    /\ futures st' = <[i := Done o]> (futures st)
    /\ (forall e, o = Raise e -> is_Exception e = true)
    /\ launched st' = launched st ++ calls_of r target w
    /\ phase st' = phase st
    /\ yielded st' = yielded st
    /\ completed st' = completed st
    /\ failed st' = failed st.
Proof.
  intros H. unfold step in H.
  destruct (is_ended (phase st)); [discriminate|].
  destruct (futures st !! i) as [[| | |]|] eqn:Hi; try discriminate.
  destruct (targets !! i) as [target|] eqn:Ht; [|discriminate].
  destruct (_run_single_fuzz_test r target w _) as [o h] eqn:E.
  apply sandbox_calls in E. destruct E as [Hc Ho].
  simplify_eq. cbn in *. exists target, o. repeat split; auto.
Qed.

(** What the return of a worker makes of the state when its writes
    cannot raise. *)
Lemma finish_clean (r : FuzzRunner.t) (targets : list FuzzTarget.t)
      (st st' : State) (i : nat) (w : WorkerEnv) (io : list (option Fault)) :
  calm r io ->
  step r targets st (Finish i w io) = Some st' ->
  exists target,
    futures st !! i = Some Running
    /\ targets !! i = Some target
    /\ futures st' = <[i := Done (worker_outcome r target w)]> (futures st)
    /\ yielded st' = yielded st
    /\ failed st' = failed st
    /\ (flushed st ->
        flushed st'
        /\ sink st' = sink st ++ records r (worker_log r target w)).
Proof.
  intros Hio H. unfold step in H.
  destruct (is_ended (phase st)); [discriminate|].
  destruct (futures st !! i) as [[| | |]|] eqn:Hi; try discriminate.
  destruct (targets !! i) as [target|] eqn:Ht; [|discriminate].
  destruct (sandbox_calm r target w
              {| h_sink := {| written := sink st; buffered := unflushed st;
                              faults := io |};
                 h_calls := launched st |} Hio) as (k & E & _ & W).
  rewrite E in H. simplify_eq. cbn in *. exists target.
  repeat split; auto; now apply W.
Qed.

(** ** Whole runs *)

Lemma exec_invariant (r : FuzzRunner.t) (targets : list FuzzTarget.t)
      (good : Event -> bool) (P : State -> Prop) :
  (forall st ev st',
      good ev = true -> P st -> step r targets st ev = Some st' -> P st') ->
  forall schedule st st',
    forallb good schedule = true -> P st ->
    exec r targets st schedule = Some st' -> P st'.
Proof.
  intros Hstep. induction schedule as [|ev rest IH]; intros st st' Hg HP H;
    cbn [exec forallb] in *.
  - now simplify_eq.
  - apply andb_true_iff in Hg. destruct Hg as [Hev Hrest].
    destruct (step r targets st ev) as [st1|] eqn:E; [|discriminate].
    exact (IH st1 st' Hrest (Hstep _ _ _ Hev HP E) H).
Qed.

Lemma forallb_always (schedule : list Event) :
  forallb (fun _ => true) schedule = true.
Proof. now induction schedule. Qed.

Lemma well_formed_exec (r : FuzzRunner.t) (targets : list FuzzTarget.t)
      (schedule : list Event) (sink0 : list string) (st : State) :
  exec r targets (start targets sink0) schedule = Some st ->
  well_formed targets st.
Proof.
  intros H.
  refine (exec_invariant r targets (fun _ => true) (well_formed targets)
            _ schedule _ st (forallb_always _) _ H).
  - intros st0 ev st1 _. apply well_formed_step.
  - apply well_formed_start.
Qed.

(** Throughout every run both counters are monotone from zero and
    [failed] stays at or below [completed]. *)
Lemma failed_le_completed (r : FuzzRunner.t) (targets : list FuzzTarget.t)
      (schedule : list Event) (sink0 : list string) (st : State) :
  exec r targets (start targets sink0) schedule = Some st ->
  0 <= failed st <= completed st.
Proof.
  intros H.
  refine (exec_invariant r targets (fun _ => true)
            (fun st => 0 <= failed st <= completed st)
            _ schedule _ st (forallb_always _) _ H).
  - intros st0 ev st1 _ H0 H1. apply step_counters in H1. lia.
  - cbn. lia.
Qed.

Lemma counters_monotone (r : FuzzRunner.t) (targets : list FuzzTarget.t)
      (schedule : list Event) :
  forall st st',
    exec r targets st schedule = Some st' ->
    completed st <= completed st' /\ failed st <= failed st'.
Proof.
  induction schedule as [|ev rest IH]; intros st st' H; cbn [exec] in H.
  - simplify_eq. lia.
  - destruct (step r targets st ev) as [st1|] eqn:E; [|discriminate].
    apply step_counters in E. apply IH in H. lia.
Qed.

Lemma counted_exec (r : FuzzRunner.t) (targets : list FuzzTarget.t)
      (schedule : list Event) (sink0 : list string) (st : State) :
  consistent r -> forallb main_clean schedule = true ->
  exec r targets (start targets sink0) schedule = Some st ->
  counted st.
Proof.
  intros Hr Hs H.
  refine (exec_invariant r targets main_clean counted _ schedule _ st Hs _ H).
  - intros st0 ev st1 Hev. apply counted_step; [exact Hr|now right].
  - split; reflexivity.
Qed.

(** When no write of the loop raises, [completed] never exceeds the
    number of targets. *)
Lemma completed_bounded_when_clean (r : FuzzRunner.t)
      (targets : list FuzzTarget.t) (schedule : list Event)
      (sink0 : list string) (st : State) :
  consistent r -> forallb main_clean schedule = true ->
  exec r targets (start targets sink0) schedule = Some st ->
  completed st <= Z.of_nat (List.length targets).
Proof.
  intros Hr Hs H. destruct (counted_exec _ _ _ _ _ Hr Hs H) as [Hle _].
  pose proof (yielded_bounded _ _ (well_formed_exec _ _ _ _ _ H)). lia.
Qed.

(** With the policy set and no write of the loop raising, a run that
    ends normally has counted every target once. *)
Lemma completed_is_total_when_clean (r : FuzzRunner.t)
      (targets : list FuzzTarget.t) (schedule : list Event)
      (sink0 : list string) (st : State) :
  consistent r ->
  FuzzConfig.continue_on_failure (FuzzRunner.config r) = true ->
  forallb main_clean schedule = true ->
  exec r targets (start targets sink0) schedule = Some st ->
  phase st = Ended None ->
  completed st = Z.of_nat (List.length targets).
Proof.
  intros Hr Hc Hs H Hp.
  destruct (counted_exec _ _ _ _ _ Hr Hs H) as [_ Heq].
  destruct (well_formed_exec _ _ _ _ _ H) as (Hlen & _).
  assert (Hend : runs_to_end st).
  { refine (exec_invariant r targets (fun _ => true) runs_to_end
              _ schedule _ st (forallb_always _) _ H).
    - intros st0 ev st1 _. now apply runs_to_end_step.
    - exact I. }
  unfold runs_to_end in Hend. rewrite Hp in *. cbn in Heq.
  rewrite Heq by reflexivity. now rewrite Hend, Hlen.
Qed.

Lemma clean_event_main_clean (schedule : list Event) :
  forallb clean_event schedule = true -> forallb main_clean schedule = true.
Proof.
  induction schedule as [|ev rest IH]; [reflexivity|]. cbn [forallb].
  rewrite !andb_true_iff. intros [Hev Hrest]. split; [|auto].
  now destruct ev.
Qed.

(** ** The failure blocks of the error file *)

Lemma worker_records_not_blocks (r : FuzzRunner.t) (target : FuzzTarget.t)
      (w : WorkerEnv) :
  block_records (records r (worker_log r target w)) = [].
Proof.
  unfold records. destruct (FuzzRunner.error_file_handle r); [|reflexivity].
  unfold worker_log. destruct (budget r) as [g|e]; [|reflexivity].
  destruct (cwd_logged w); [|reflexivity].
  destruct (answer r target w g) as [rc out err| |text];
    cbn [worker_messages]; try reflexivity.
  destruct (rc =? 0); [reflexivity|]. destruct (truthy err); reflexivity.
Qed.

Lemma block_messages_are_blocks (r : FuzzRunner.t) (res : FuzzResult.t) :
  block_records (records r (block_messages res))
  = records r (block_messages res).
Proof.
  unfold records. destruct (FuzzRunner.error_file_handle r); [|reflexivity].
  unfold block_messages.
  destruct (truthy (FuzzResult.error res)); vm_compute; reflexivity.
Qed.

(** The outcomes the loop has met are those of the futures it was
    handed: an event that hands it nothing leaves them as they are. *)
Lemma met_stable (r : FuzzRunner.t) (targets : list FuzzTarget.t)
      (st st' : State) (ev : Event) :
  well_formed targets st ->
  step r targets st ev = Some st' ->
  yielded st' = yielded st ->
  failures st' = failures st /\ crashes st' = crashes st.
Proof.
  intros (_ & _ & Hdone) H Hy. unfold failures, crashes. rewrite Hy.
  split; apply flat_map_same_on; intros i Hi; apply List.in_rev in Hi;
    destruct (Hdone i Hi) as [o Ho]; unfold failure_of, crash_of;
    now rewrite Ho, (done_stable _ _ _ _ _ _ _ H Ho).
Qed.

(** A turn of the loop adds the outcome of its future to those met. *)
Lemma met_collect (r : FuzzRunner.t) (targets : list FuzzTarget.t)
      (st st' : State) (i : nat) (io : list (option Fault)) :
  well_formed targets st ->
  step r targets st (Collect i io) = Some st' ->
  exists o,
    futures st !! i = Some (Done o)
    /\ failures st' = failures st ++ failure_of (futures st) i
    /\ crashes st' = crashes st ++ crash_of (futures st) i.
Proof.
  intros Hwf H.
  assert (Hf : futures st' = futures st /\ yielded st' = i :: yielded st
               /\ exists o, futures st !! i = Some (Done o)).
  { step_inv H; cbn; eauto. }
  destruct Hf as (Hf & Hy & o & Hi). exists o. split; [exact Hi|].
  unfold failures, crashes. rewrite Hy, Hf. cbn [rev].
  rewrite !List.flat_map_app. cbn [flat_map]. now rewrite !app_nil_r.
Qed.

Lemma tallied_step (r : FuzzRunner.t) (targets : list FuzzTarget.t)
      (st st' : State) (ev : Event) :
  consistent r -> clean_event ev = true ->
  well_formed targets st -> tallied r st ->
  step r targets st ev = Some st' -> tallied r st'.
Proof.
  intros Hr Hev Hwf (Hflush & Hblocks & Hfailed) H.
  destruct (match ev with
            | Finish _ _ _ | Collect _ _ => true
            | _ => false
            end) eqn:Hk.
  - destruct ev; try discriminate; cbn [clean_event] in Hev.
    + (* Finish *)
      destruct (met_stable _ _ _ _ _ Hwf H) as [Hfs Hcs];
        [now step_inv H|].
      destruct (finish_clean _ _ _ _ _ _ _ (or_intror Hev) H)
        as (target & Hi & Ht & Hf' & Hy' & Hfl' & Hs').
      destruct (Hs' Hflush) as [Hflush' Hsink].
      unfold tallied, troubles. rewrite Hsink, Hfl', Hfs, Hcs.
      split; [exact Hflush'|]. split; [|exact Hfailed].
      unfold block_records in *. rewrite List.filter_app.
      fold (block_records (records r (worker_log r target w))).
      rewrite worker_records_not_blocks, app_nil_r. exact Hblocks.
    + (* Collect *)
      destruct (met_collect _ _ _ _ _ _ Hwf H) as (o' & Hi' & Hfs & Hcs).
      destruct (collect_clean _ _ _ _ _ _ Hr (or_intror Hev) H)
        as (o & Hp & Hi & Hni & Hf' & Hy' & Hp' & Hc' & Hfl' & _ & Hs').
      destruct (Hs' Hflush) as [Hflush' Hsink].
      unfold tallied, troubles. rewrite Hsink, Hfl', Hfs, Hcs.
      split; [exact Hflush'|].
      unfold failure_of, crash_of. rewrite Hi.
      unfold block_records in *.
      rewrite List.filter_app, List.flat_map_app, !List.length_app, Hblocks.
      unfold troubles in Hfailed. rewrite Hfailed.
      destruct o as [res|e]; cbn [loop_messages failed_gain].
      * destruct (FuzzResult.success res); cbn [flat_map List.length].
        -- rewrite records_nil. cbn [List.filter]. split; [reflexivity|lia].
        -- fold (block_records (records r (block_messages res))).
           rewrite block_messages_are_blocks, app_nil_r.
           split; [reflexivity|lia].
      * rewrite records_nil. cbn [List.filter flat_map].
        split; [reflexivity|].
        destruct (is_Exception e); cbn [List.length]; lia.
  - destruct (met_stable _ _ _ _ _ Hwf H) as [Hfs Hcs];
      [destruct ev; try discriminate; now step_inv H|].
    assert (Hsame : sink st' = sink st /\ unflushed st' = unflushed st
                    /\ failed st' = failed st).
    { destruct ev; try discriminate; step_inv H; cbn; auto. }
    destruct Hsame as (Hs & Hu & Hf).
    unfold tallied, troubles, flushed in *. rewrite Hs, Hu, Hf, Hfs, Hcs.
    auto.
Qed.

Lemma tallied_exec (r : FuzzRunner.t) (targets : list FuzzTarget.t)
      (schedule : list Event) (st : State) :
  consistent r ->
  forallb clean_event schedule = true ->
  exec r targets (start targets []) schedule = Some st ->
  tallied r st.
Proof.
  intros Hr Hs H.
  cut (well_formed targets st /\ tallied r st); [tauto|].
  refine (exec_invariant r targets clean_event
            (fun st => well_formed targets st /\ tallied r st)
            _ schedule _ st Hs _ H).
  - intros st0 ev st1 Hev [Hwf Ht] H1. split.
    + eapply well_formed_step; eauto.
    + eapply tallied_step; eauto.
  - split; [apply well_formed_start|].
    split; [|split]; reflexivity.
Qed.

(** When the working directory is at hand for every worker, no worker
    raises as long as no write does. *)
Lemma no_crash_step (r : FuzzRunner.t) (targets : list FuzzTarget.t)
      (st st' : State) (ev : Event) :
  0 < FuzzRunner.jobs r ->
  clean_event ev && finds_cwd ev = true ->
  no_crash st -> step r targets st ev = Some st' -> no_crash st'.
Proof.
  intros Hpos Hev P H. apply andb_true_iff in Hev. destruct Hev as [Hc Hd].
  unfold no_crash in *. destruct ev.
  - step_inv H. cbn [futures set_futures]. intros j e Hj.
    apply list_lookup_insert_Some in Hj.
    destruct Hj as [(_ & Hj & _)|[_ Hj]]; [discriminate|]. exact (P _ _ Hj).
  - cbn [clean_event finds_cwd] in *.
    destruct (finish_clean _ _ _ _ _ _ _ (or_intror Hc) H)
      as (target & _ & _ & Hf' & _).
    rewrite Hf'. intros j e Hj. apply list_lookup_insert_Some in Hj.
    destruct Hj as [(_ & Hj & _)|[_ Hj]]; [|exact (P _ _ Hj)].
    unfold worker_outcome in Hj. rewrite (budget_positive r Hpos) in Hj.
    destruct (cwd_logged w); discriminate.
  - step_inv H; exact P.
  - step_inv H; cbn [futures set_futures set_phase]; try exact P.
    intros j e Hj. apply list_lookup_insert_Some in Hj.
    destruct Hj as [(_ & Hj & _)|[_ Hj]]; [discriminate|]. exact (P _ _ Hj).
  - step_inv H; exact P.
  - step_inv H; exact P.
Qed.

Lemma no_crash_crashes (st : State) : no_crash st -> crashes st = [].
Proof.
  intros P. unfold crashes.
  induction (rev (yielded st)) as [|i l IH]; [reflexivity|].
  cbn [flat_map]. rewrite IH, app_nil_r. unfold crash_of.
  destruct (futures st !! i) as [[| |[res|e]|]|] eqn:Hi; try reflexivity.
  now destruct (P i e).
Qed.

(** ** The counters *)

(** C2: the code misses the claim.  With continue_on_failure set and one
    target, whose failure line the loop cannot write, the run ends with
    [completed] at 2: the target is counted once before the write and
    once more by the handler of the loop. *)
Theorem completed_counts_a_target_twice :
  FuzzConfig.continue_on_failure (FuzzRunner.config logging_runner) = true
  /\ run_fuzz_tests logging_runner [target_a] double_count_schedule []
     = Some (Ok {| s_completed := 2; s_failed := 2 |},
             [error_record
                ("Exception running fuzz test FuzzA: " +:+ encoding_error)],
             [])
  /\ 2 <> Z.of_nat (List.length [target_a]).
Proof.
  split; [reflexivity|]. split; [vm_compute; reflexivity|discriminate].
Qed.

(** C5: the code misses the claim.  With two targets, the first of which
    fails and has its failure line refused by the error file, the loop
    is still running when [completed] stands at 3, above the number of
    targets. *)
Theorem completed_exceeds_the_number_of_targets :
  exists st,
    exec stop_logging_runner [target_a; target_b]
         (start [target_a; target_b] []) overcount_schedule = Some st
    /\ phase st = Looping
    /\ completed st = 3
    /\ failed st = 2
    /\ Z.of_nat (List.length [target_a; target_b]) < completed st.
Proof.
  eexists. split; [vm_compute; reflexivity|]. repeat split.
Qed.

(** ** The error file *)

Lemma filter_within (p q : string -> bool) (l : list string) :
  (forall s, p s = true -> q s = true) ->
  List.filter p (List.filter q l) = List.filter p l.
Proof.
  intros H. induction l as [|s l IH]; [reflexivity|]. cbn [List.filter].
  destruct (q s) eqn:Hq; cbn [List.filter].
  - now rewrite IH.
  - destruct (p s) eqn:Hp; [|exact IH]. apply H in Hp. congruence.
Qed.

Lemma one_per_block (p : string -> bool) (l : list FuzzResult.t) :
  (forall res,
      List.length (List.filter p (map error_record (block_messages res)))
      = 1%nat) ->
  List.length
    (List.filter p
       (flat_map (fun res => map error_record (block_messages res)) l))
  = List.length l.
Proof.
  intros H. induction l as [|res l IH]; [reflexivity|].
  cbn [flat_map]. rewrite List.filter_app, List.length_app, H, IH.
  reflexivity.
Qed.

Lemma separator_is_block (s : string) :
  is_separator_record s = true -> is_block_record s = true.
Proof.
  unfold is_separator_record, is_block_record. intros ->.
  now rewrite !orb_true_r.
Qed.

Lemma identity_is_block (s : string) :
  starts_with "[ERROR] FAILED: " s = true -> is_block_record s = true.
Proof. unfold is_block_record. now intros ->. Qed.

Lemma one_separator (res : FuzzResult.t) :
  List.length (List.filter is_separator_record
                 (map error_record (block_messages res))) = 1%nat.
Proof.
  unfold block_messages.
  destruct (truthy (FuzzResult.error res)); vm_compute; reflexivity.
Qed.

Lemma one_identity (res : FuzzResult.t) :
  List.length (List.filter (starts_with "[ERROR] FAILED: ")
                 (map error_record (block_messages res))) = 1%nat.
Proof.
  unfold block_messages.
  destruct (truthy (FuzzResult.error res)); vm_compute; reflexivity.
Qed.

(** C9, as the claim states it, fails: two targets fail with nothing on
    stderr, the error file is configured and every write succeeds; the
    file holds two blocks, each an identity line and a separator with no
    detail line between them. *)
Lemma two_failures_without_detail_lines :
  run_fuzz_tests logging_runner [target_a; target_b] two_failures_schedule []
  = Some (Ok {| s_completed := 2; s_failed := 2 |},
          [error_record "Failed fuzz test: FuzzA in a_test.go";
           error_record "FAILED: FuzzA in a_test.go";
           error_record "---";
           error_record "Failed fuzz test: FuzzB in pkg/b_test.go";
           error_record "FAILED: FuzzB in pkg/b_test.go";
           error_record "---"],
          [])
  /\ block_records
       (sink (state_after logging_runner [target_a; target_b]
                two_failures_schedule))
     = [error_record "FAILED: FuzzA in a_test.go"; error_record "---";
        error_record "FAILED: FuzzB in pkg/b_test.go"; error_record "---"]
  /\ block_records
       (sink (state_after logging_runner [target_a; target_b]
                two_failures_schedule))
     <> flat_map claimed_block
          [result_of target_a silent_failure "";
           result_of target_b silent_failure ""].
Proof.
  split; [vm_compute; reflexivity|]. split; [vm_compute; reflexivity|].
  vm_compute. discriminate.
Qed.

(** Two targets are counted as failed and the file holds one block: the
    worker of target a raised instead of returning an outcome, which the
    handler of the loop counts without writing anything. *)
Example two_counted_one_block :
  run_fuzz_tests logging_runner [target_a; target_b] crash_schedule []
  = Some (Ok {| s_completed := 2; s_failed := 2 |},
          [error_record "Failed fuzz test: FuzzB in pkg/b_test.go";
           error_record "FAILED: FuzzB in pkg/b_test.go";
           error_record "---"],
          []).
Proof. vm_compute. reflexivity. Qed.

(** C9, amended: when a failure sink is configured, no write to it
    raises and no interrupt cuts a turn of the loop short, the sink
    holds, between the turns of the loop and at the end of the run,
    exactly one failure block for each failing FuzzOutcome the loop has
    counted, in the order it counted them: an identity line, then a
    detail line with the captured error text when that text is not
    empty, then a separator.
    [failed] counts these outcomes together with the workers that raised
    instead of returning an outcome, for which the loop writes no block;
    when the working directory is at hand for every worker no worker
    raises, and the number of blocks is [failed] (two blocks when two
    targets have been counted as failed). *)
Theorem sink_holds_one_block_per_counted_failure (config : FuzzConfig.t)
        (cpu_count : option Z) (targets : list FuzzTarget.t)
        (schedule : list Event) (st : State) :
  let r := FuzzRunner.init config cpu_count in
  truthy_opt (FuzzConfig.error_file config) = true ->
  forallb clean_event schedule = true ->
  exec r targets (start targets []) schedule = Some st ->
  block_records (sink st)
  = flat_map (fun res => map error_record (block_messages res))
             (failures st)
  /\ List.length (List.filter (starts_with "[ERROR] FAILED: ") (sink st))
     = List.length (failures st)
  /\ List.length (List.filter is_separator_record (sink st))
     = List.length (failures st)
  /\ failed st
     = Z.of_nat (List.length (failures st))
       + Z.of_nat (List.length (crashes st))
  /\ (forallb finds_cwd schedule = true ->
      crashes st = []
      /\ failed st = Z.of_nat (List.length (failures st))).
Proof.
  intros r Hfile Hs H.
  destruct (tallied_exec r targets schedule st
              (init_consistent config cpu_count) Hs H)
    as (_ & Hblocks & Hfailed).
  assert (Hrec : forall res,
             records r (block_messages res)
             = map error_record (block_messages res)).
  { intros res. unfold records. subst r. cbn [FuzzRunner.init
      FuzzRunner.error_file_handle]. now rewrite Hfile. }
  assert (Hb : block_records (sink st)
               = flat_map (fun res => map error_record (block_messages res))
                          (failures st)).
  { rewrite Hblocks. apply flat_map_same_on. intros res _. apply Hrec. }
  unfold troubles in Hfailed.
  split; [exact Hb|]. split; [|split; [|split; [lia|]]].
  - rewrite <- (filter_within _ is_block_record) by apply identity_is_block.
    fold (block_records (sink st)). rewrite Hb.
    apply (one_per_block _ _ one_identity).
  - rewrite <- (filter_within _ is_block_record) by apply separator_is_block.
    fold (block_records (sink st)). rewrite Hb.
    apply (one_per_block _ _ one_separator).
  - intros Hd.
    assert (Hn : no_crash st).
    { refine (exec_invariant r targets
                (fun ev => clean_event ev && finds_cwd ev) no_crash
                _ schedule _ st _ _ H).
      - intros st0 ev st1 Hev. apply no_crash_step; [|exact Hev].
        apply init_jobs_positive.
      - clear -Hs Hd. induction schedule as [|ev rest IH]; [reflexivity|].
        cbn [forallb] in *. apply andb_true_iff in Hs, Hd.
        destruct Hs as [-> Hs], Hd as [-> Hd]. now apply IH.
      - intros i e. cbn [futures start]. rewrite list_lookup_fmap.
        destruct (targets !! i); discriminate. }
    rewrite (no_crash_crashes _ Hn) in *. cbn [List.length] in Hfailed.
    split; [reflexivity|lia].
Qed.

Lemma sink_holds_one_block_per_counted_failure_witness :
  let st := state_after logging_runner [target_a; target_b]
              two_failures_schedule in
  block_records (sink st)
  = flat_map (fun res => map error_record (block_messages res))
             (failures st)
  /\ List.length (List.filter (starts_with "[ERROR] FAILED: ") (sink st))
     = List.length (failures st)
  /\ List.length (List.filter is_separator_record (sink st))
     = List.length (failures st)
  /\ failed st
     = Z.of_nat (List.length (failures st))
       + Z.of_nat (List.length (crashes st))
  /\ (forallb finds_cwd two_failures_schedule = true ->
      crashes st = []
      /\ failed st = Z.of_nat (List.length (failures st))).
Proof.
  apply (sink_holds_one_block_per_counted_failure logging_config (Some 4)
           [target_a; target_b] two_failures_schedule).
  - reflexivity.
  - vm_compute. reflexivity.
  - vm_compute. reflexivity.
Defined.

(** ** The failures the loop has met, whatever the sink does *)

(** What a turn of the loop makes of the state. *)
Lemma collect_any (r : FuzzRunner.t) (targets : list FuzzTarget.t)
      (st st' : State) (i : nat) (io : list (option Fault)) :
  step r targets st (Collect i io) = Some st' ->
  exists o b l,
    phase st = Looping
    /\ futures st !! i = Some (Done o)
    /\ loop_body r o {| l_completed := completed st; l_failed := failed st;
                        l_sink := {| written := sink st;
                                     buffered := unflushed st;
                                     faults := io |} |} = (b, l)
    /\ completed st' = l_completed l
    /\ failed st' = l_failed l
    /\ phase st' = match b with
                   | Ok true => Cancelling 0
                   | Ok false => Looping
                   | Raise e => Leaving (Some e)
                   end.
Proof.
  intros H. unfold step in H.
  destruct (is_ended (phase st)); [discriminate|].
  destruct (phase st) eqn:Hp; try discriminate.
  destruct (futures st !! i) as [[| |o|]|] eqn:Hi; try discriminate.
  destruct (existsb (Nat.eqb i) (yielded st)); [discriminate|].
  destruct (loop_body r o _) as [b l] eqn:E.
  simplify_eq. cbn. exists o, b, l. repeat split; auto.
Qed.



(** ** The exit status *)






(** ** The launch of the subprocess *)

Lemma launched_step (r : FuzzRunner.t) (targets : list FuzzTarget.t)
      (st st' : State) (ev : Event) :
  step r targets st ev = Some st' ->
  launched st' = launched st ++ launches r targets [ev].
Proof.
  intros H. unfold launches. cbn [flat_map]. rewrite app_nil_r.
  destruct ev; try (step_inv H; cbn; now rewrite app_nil_r).
  destruct (finish_any _ _ _ _ _ _ _ H)
    as (target & o & _ & Ht & _ & _ & Hl & _).
  now rewrite Ht.
Qed.

Lemma launched_exec (r : FuzzRunner.t) (targets : list FuzzTarget.t)
      (schedule : list Event) :
  forall st st',
    exec r targets st schedule = Some st' ->
    launched st' = launched st ++ launches r targets schedule.
Proof.
  induction schedule as [|ev rest IH]; intros st st' H; cbn [exec] in H.
  - simplify_eq. unfold launches. cbn. now rewrite app_nil_r.
  - destruct (step r targets st ev) as [st1|] eqn:E; [|discriminate].
    rewrite (IH _ _ H), (launched_step _ _ _ _ _ E), <- app_assoc.
    f_equal. unfold launches. now rewrite <- List.flat_map_app.
Qed.

(** C8: in every run of the pool of a runner built by [__init__], the
    calls of [subprocess.run] are those of the sandbox invocations that
    have come back, one call for each invocation in which [os.getcwd()]
    returns twice (and none for the others); every call carries
    [max(1, cpu_cores // jobs)] as [GOMAXPROCS] and a timeout of
    [fuzz_time + 60], above [fuzz_time]; and an invocation, whatever
    the sink does, adds this call and no other to the calls made. *)
Theorem launch_budget_and_timeout (config : FuzzConfig.t)
        (cpu_count : option Z) (targets : list FuzzTarget.t)
        (schedule : list Event) (sink0 : list string) (st : State) :
  let r := FuzzRunner.init config cpu_count in
  let g := Z.max 1 (FuzzRunner.cpu_cores r / FuzzRunner.jobs r) in
  exec r targets (start targets sink0) schedule = Some st ->
  launched st = launches r targets schedule
  /\ List.Forall (fun l => GOMAXPROCS l = str_int g
                           /\ timeout l = FuzzConfig.fuzz_time config + 60
                           /\ FuzzConfig.fuzz_time config < timeout l)
                 (launched st)
  /\ (forall target w,
        calls_of r target w
        = match cwd_logged w, cwd_passed w with
          | Got _, Got dir => [launch r target (go_mod w) g dir]
          | _, _ => []
          end)
  /\ (forall target w h,
        h_calls (snd (_run_single_fuzz_test r target w h))
        = h_calls h ++ calls_of r target w).
Proof.
  intros r g H.
  pose proof (budget_of_init config cpu_count) as Hg. cbn zeta in Hg.
  fold r in Hg. fold g in Hg.
  assert (Hcalls : forall target w,
             calls_of r target w
             = match cwd_logged w, cwd_passed w with
               | Got _, Got dir => [launch r target (go_mod w) g dir]
               | _, _ => []
               end).
  { intros target w. unfold calls_of. now rewrite Hg. }
  pose proof (launched_exec _ _ _ _ _ H) as Hl. cbn [launched start app] in Hl.
  split; [exact Hl|]. split; [|split; [exact Hcalls|]].
  - rewrite Hl. unfold launches. apply List.Forall_flat_map.
    apply List.Forall_forall. intros ev _.
    destruct ev; try constructor.
    destruct (targets !! i) as [target|]; [|constructor].
    rewrite Hcalls.
    destruct (cwd_logged w); [|constructor].
    destruct (cwd_passed w); [|constructor].
    constructor; [|constructor]. cbn [GOMAXPROCS timeout launch].
    subst r. cbn [FuzzRunner.config FuzzRunner.init]. repeat split. lia.
  - intros target w h.
    destruct (_run_single_fuzz_test r target w h) as [o h'] eqn:E.
    apply sandbox_calls in E. apply E.
Qed.

Lemma launch_budget_and_timeout_witness :
  let r := FuzzRunner.init stop_config (Some 2) in
  let st := state_after r [target_a; target_b]
              (abort_prefix ++ [Collect 0 []] ++ abort_mid ++ abort_post) in
  launched st
  = launches r [target_a; target_b]
      (abort_prefix ++ [Collect 0 []] ++ abort_mid ++ abort_post)
  /\ List.Forall (fun l => GOMAXPROCS l = str_int 2
                           /\ timeout l = 70
                           /\ 10 < timeout l)
                 (launched st)
  /\ (forall target w,
        calls_of r target w
        = match cwd_logged w, cwd_passed w with
          | Got _, Got dir => [launch r target (go_mod w) 2 dir]
          | _, _ => []
          end)
  /\ (forall target w h,
        h_calls (snd (_run_single_fuzz_test r target w h))
        = h_calls h ++ calls_of r target w).
Proof.
  apply (launch_budget_and_timeout stop_config (Some 2) [target_a; target_b]
           (abort_prefix ++ [Collect 0 []] ++ abort_mid ++ abort_post) []).
  vm_compute. reflexivity.
Defined.

Example gomaxprocs_8_cores_3_jobs :
  launches
    (FuzzRunner.init
       {| FuzzConfig.fuzz_time := 30; FuzzConfig.jobs := 3;
          FuzzConfig.error_file := None;
          FuzzConfig.continue_on_failure := false;
          FuzzConfig.verbose := false; FuzzConfig.config_dir := "./shared" |}
       (Some 8))
    [{| FuzzTarget.directory := "pkg"; FuzzTarget.function := "FuzzParse";
        FuzzTarget.file_path := "pkg/parse_test.go" |}]
    [Dispatch 0; Finish 0 passing []]
  = [{| cmd := ["go"; "test"; "./pkg"; "-run=^FuzzParse$";
                "-fuzz=^FuzzParse$"; "-fuzztime=30s"];
        GOMAXPROCS := "2"; cwd := "/src"; timeout := 90 |}].
Proof. vm_compute. reflexivity. Qed.

(** ** No run gets stuck *)

Lemma uncancelled_step (r : FuzzRunner.t) (targets : list FuzzTarget.t)
      (st st' : State) (ev : Event) :
  uncancelled st -> step r targets st ev = Some st' -> uncancelled st'.
Proof.
  unfold uncancelled. intros P H. destruct ev;
    step_inv H; cbn [phase futures set_phase set_futures] in *;
    try discriminate; auto.
  - intros Hp j Hj. apply list_lookup_insert_Some in Hj.
    destruct Hj as [(_ & Hj & _)|[_ Hj]]; [discriminate|]. now apply (P Hp j).
  - intros Hp j Hj. apply list_lookup_insert_Some in Hj.
    destruct Hj as [(_ & Hj & _)|[_ Hj]]; [discriminate|]. now apply (P Hp j).
Qed.

Lemma running_zero (fs : list Status) :
  running fs = 0%nat -> forall i, fs !! i <> Some Running.
Proof.
  unfold running. intros H i Hi.
  apply list_elem_of_lookup_2, list_elem_of_In in Hi.
  assert (Hin : In Running (List.filter is_running fs)).
  { apply List.filter_In. now split. }
  destruct (List.filter is_running fs); [contradiction|discriminate].
Qed.

Lemma running_positive (fs : list Status) :
  running fs <> 0%nat -> exists i, fs !! i = Some Running.
Proof.
  unfold running. intros H.
  destruct (List.filter is_running fs) as [|s l] eqn:E; [contradiction|].
  assert (Hin : In s (List.filter is_running fs)) by (rewrite E; now left).
  apply List.filter_In in Hin. destruct Hin as [Hin Hs].
  destruct s; try discriminate.
  apply list_elem_of_In, list_elem_of_lookup in Hin. exact Hin.
Qed.

Lemma idle_false (fs : list Status) :
  idle fs = false ->
  exists i, fs !! i = Some Pending \/ fs !! i = Some Running.
Proof.
  unfold idle. intros H.
  assert (Hex : existsb (fun s => is_pending s || is_running s) fs = true).
  { induction fs as [|s fs IH]; [discriminate|]. cbn [forallb existsb] in *.
    destruct (is_pending s || is_running s); [reflexivity|].
    cbn in H. now apply IH. }
  apply existsb_exists in Hex. destruct Hex as (s & Hin & Hs).
  apply list_elem_of_In, list_elem_of_lookup in Hin. destruct Hin as [i Hi].
  exists i. destruct s; try discriminate; auto.
Qed.

(** The first future that is done and has not been handed to the loop. *)
Lemma collect_or_all_yielded (fs : list Status) (ys : list nat) :
  (exists i o, fs !! i = Some (Done o) /\ existsb (Nat.eqb i) ys = false)
  \/ (forall i o, fs !! i = Some (Done o) -> In i ys).
Proof.
  destruct (List.find
              (fun i => match fs !! i with
                        | Some (Done _) => negb (existsb (Nat.eqb i) ys)
                        | _ => false
                        end) (seq 0 (List.length fs))) as [i|] eqn:E.
  - left. apply List.find_some in E. destruct E as [_ E].
    destruct (fs !! i) as [[| |o|]|] eqn:Hi; try discriminate.
    exists i, o. split; [exact Hi|]. now apply negb_true_iff.
  - right. intros i o Hi.
    pose proof (List.find_none _ _ E i) as Hn.
    assert (Hin : In i (seq 0 (List.length fs))).
    { apply List.in_seq. apply lookup_lt_Some in Hi. lia. }
    specialize (Hn Hin). cbn beta in Hn. rewrite Hi in Hn.
    apply negb_false_iff, existsb_exists in Hn.
    destruct Hn as (j & Hj & Hij). apply Nat.eqb_eq in Hij. now subst.
Qed.

(** The first pending future has no pending future in front of it. *)
Lemma least_pending (fs : list Status) :
  (exists i, fs !! i = Some Pending) ->
  exists j, fs !! j = Some Pending /\ ahead fs j = 0%nat.
Proof.
  induction fs as [|s fs IH]; intros [i Hi]; [now rewrite lookup_nil in Hi|].
  destruct (is_pending s) eqn:Hs.
  - exists 0%nat. destruct s; try discriminate. split; reflexivity.
  - destruct i as [|i]; cbn in Hi; [simplify_eq; discriminate|].
    destruct (IH (ex_intro _ i Hi)) as (j & Hj & Ha).
    exists (S j). split; [exact Hj|].
    unfold ahead in *. cbn [take List.filter]. now rewrite Hs.
Qed.

(** Until the main thread is past the [with] block some event other
    than an interrupt can happen. *)
Lemma progress (r : FuzzRunner.t) (targets : list FuzzTarget.t) (st : State) :
  0 < FuzzRunner.jobs r ->
  well_formed targets st -> uncancelled st ->
  is_ended (phase st) = false ->
  exists ev st', moves_on ev = true /\ step r targets st ev = Some st'.
Proof.
  intros Hpos (Hlen & Hnd & Hdone) Hunc Hend.
  assert (Hfinish : forall i, futures st !! i = Some Running ->
                              exists ev st', moves_on ev = true
                                             /\ step r targets st ev = Some st').
  { intros i Hi.
    destruct (targets !! i) as [target|] eqn:Ht.
    - destruct (finish_enabled r targets st i target passing [] Hend Hi Ht)
        as (st' & H & _). exists (Finish i passing []). eauto.
    - apply lookup_lt_Some in Hi. apply lookup_ge_None in Ht. lia. }
  assert (Hdispatch : forall i, running (futures st) = 0%nat ->
                                futures st !! i = Some Pending ->
                                exists ev st', moves_on ev = true
                                               /\ step r targets st ev = Some st').
  { intros i Hrun Hi.
    destruct (least_pending (futures st) (ex_intro _ i Hi)) as (j & Hj & Ha).
    exists (Dispatch j). unfold step. rewrite Hend, Hj, Hrun, Ha.
    destruct (Z.ltb_spec (Z.of_nat (0 + 0)) (FuzzRunner.jobs r)); [|lia].
    eauto. }
  destruct (Nat.eq_dec (running (futures st)) 0%nat) as [Hrun|Hrun];
    [|destruct (running_positive _ Hrun) as [i Hi]; eauto].
  destruct (phase st) as [|k|e|e] eqn:Hp; [| | |discriminate].
  - (* in the loop *)
    destruct (idle (futures st)) eqn:Hidle.
    + destruct (collect_or_all_yielded (futures st) (yielded st))
        as [(i & o & Hi & Hy)|Hall].
      * exists (Collect i []). unfold step. rewrite Hp, Hi, Hy. cbn [is_ended].
        destruct (loop_body r o _). eauto.
      * exists Exit. unfold step. rewrite Hp. cbn [is_ended].
        assert (Hle : (List.length (futures st)
                       <= List.length (yielded st))%nat).
        { rewrite <- (List.length_seq (List.length (futures st)) 0).
          apply List.NoDup_incl_length; [apply List.seq_NoDup|].
          intros i Hi. apply List.in_seq in Hi.
          destruct (futures st !! i) as [s|] eqn:E;
            [|apply lookup_ge_None in E; lia].
          destruct (idle_lookup _ i Hidle) as [Hnp Hnr].
          destruct s; try congruence; [eauto|].
          now destruct (Hunc Hp i). }
        pose proof (yielded_bounded targets st
                      (conj Hlen (conj Hnd Hdone))) as Hge.
        destruct (Nat.eqb_spec (List.length (yielded st))
                               (List.length (futures st))); [eauto|lia].
    + destruct (idle_false _ Hidle) as [i [Hi|Hi]]; [eauto|].
      now destruct (running_zero _ Hrun i).
  - (* in the cancellation loop *)
    exists Cancel. unfold step. rewrite Hp. cbn [is_ended].
    destruct (k <? List.length (futures st))%nat; eauto.
  - (* leaving the block *)
    destruct (idle (futures st)) eqn:Hidle.
    + exists Exit. unfold step. rewrite Hp, Hidle. cbn [is_ended]. eauto.
    + destruct (idle_false _ Hidle) as [i [Hi|Hi]]; [eauto|].
      now destruct (running_zero _ Hrun i).
Qed.

Lemma uncancelled_exec (r : FuzzRunner.t) (targets : list FuzzTarget.t)
      (schedule : list Event) (sink0 : list string) (st : State) :
  exec r targets (start targets sink0) schedule = Some st -> uncancelled st.
Proof.
  intros H.
  refine (exec_invariant r targets (fun _ => true) uncancelled
            _ schedule _ st (forallb_always _) _ H).
  - intros st0 ev st1 _. apply uncancelled_step.
  - intros _ i. cbn [futures start]. rewrite list_lookup_fmap.
    destruct (targets !! i); discriminate.
Qed.

(** ** The length of a run *)

Lemma load_insert (fs : list Status) (i : nat) (s s' : Status) :
  fs !! i = Some s ->
  (load (<[i := s']> fs) + weight s = load fs + weight s')%nat.
Proof.
  unfold load. revert i. induction fs as [|x fs IH]; intros [|i] H;
    cbn in H; try discriminate.
  - simplify_eq. cbn. lia.
  - cbn [map list_sum]. specialize (IH i H).
    change (<[S i := s']> (x :: fs)) with (x :: <[i := s']> fs).
    rewrite !List.map_cons. unfold list_sum in *. cbn [fold_right]. lia.
Qed.

Lemma load_start (targets : list FuzzTarget.t) :
  load (map (fun _ => Pending) targets) = (2 * List.length targets)%nat.
Proof.
  unfold load. induction targets as [|t ts IH]; [reflexivity|].
  rewrite !List.map_cons. unfold list_sum in *. cbn [fold_right weight List.length].
  rewrite IH. lia.
Qed.

Lemma remaining_step (r : FuzzRunner.t) (targets : list FuzzTarget.t)
      (st st' : State) (ev : Event) :
  well_formed targets st -> step r targets st ev = Some st' ->
  (remaining targets st' < remaining targets st)%nat.
Proof.
  intros Hwf H.
  pose proof (well_formed_step _ _ _ _ _ Hwf H) as Hwf'.
  pose proof (yielded_bounded _ _ Hwf') as Hy'.
  destruct Hwf as (Hlen & _). unfold remaining.
  destruct ev.
  - step_inv H. cbn [futures set_futures phase yielded].
    match goal with
    | E : futures st !! _ = Some Pending |- _ =>
        pose proof (load_insert _ _ _ Running E) as Hl
    end.
    cbn [weight] in Hl. lia.
  - step_inv H. cbn [futures phase yielded].
    match goal with
    | E : futures st !! _ = Some Running |- _ =>
        pose proof (load_insert _ _ _ (Done o) E) as Hl
    end.
    cbn [weight] in Hl. lia.
  - step_inv H; cbn [futures phase yielded List.length phase_rank] in *; lia.
  - step_inv H;
      cbn [futures set_futures set_phase phase yielded phase_rank] in *;
      try match goal with
          | E : (_ <? _)%nat = true |- _ => apply Nat.ltb_lt in E
          end;
      try match goal with
          | E : futures st !! _ = Some Pending |- _ =>
              pose proof (load_insert _ _ _ Cancelled E) as Hl;
              cbn [weight] in Hl
          end;
      try rewrite Hlen in *; lia.
  - step_inv H; cbn [futures set_phase phase yielded phase_rank]; lia.
  - step_inv H; cbn [futures set_phase phase yielded phase_rank]; lia.
Qed.

(** X22: a run is finite: with N targets no more than 4 N + 3 events
    (a worker taking a target, a sandbox invocation ending, a turn of
    the loop, a step of the cancellation loop, an interrupt, the end of
    the [with] block) can happen, whatever the commands and the writes
    do; and the loop takes at most N turns. *)
Theorem a_run_has_at_most_4n_plus_3_events (r : FuzzRunner.t)
        (targets : list FuzzTarget.t) (schedule : list Event)
        (sink0 : list string) (st : State) :
  exec r targets (start targets sink0) schedule = Some st ->
  (List.length schedule <= 4 * List.length targets + 3)%nat
  /\ (List.length (yielded st) <= List.length targets)%nat.
Proof.
  intros H. split; [|exact (yielded_bounded _ _ (well_formed_exec _ _ _ _ _ H))].
  assert (Hgen : forall sched s s',
             well_formed targets s ->
             exec r targets s sched = Some s' ->
             (List.length sched + remaining targets s'
              <= remaining targets s)%nat).
  { induction sched as [|ev rest IH]; intros s s' Hwf He; cbn [exec] in He.
    - simplify_eq. cbn. lia.
    - destruct (step r targets s ev) as [s1|] eqn:E; [|discriminate].
      pose proof (remaining_step _ _ _ _ _ Hwf E).
      pose proof (IH s1 s' (well_formed_step _ _ _ _ _ Hwf E) He).
      cbn [List.length]. lia. }
  pose proof (Hgen schedule _ _ (well_formed_start targets sink0) H) as Hb.
  unfold remaining at 2 in Hb.
  cbn [start futures yielded phase phase_rank List.length] in Hb.
  rewrite load_start in Hb. lia.
Qed.

Lemma a_run_has_at_most_4n_plus_3_events_witness :
  (List.length overcount_schedule <= 4 * List.length [target_a; target_b] + 3)%nat
  /\ (List.length (yielded (state_after stop_logging_runner
                              [target_a; target_b] overcount_schedule))
      <= List.length [target_a; target_b])%nat.
Proof.
  apply (a_run_has_at_most_4n_plus_3_events stop_logging_runner
           [target_a; target_b] overcount_schedule []).
  vm_compute. reflexivity.
Defined.

(** X23: the pool cannot get stuck: in every state a run can reach
    before the main thread is past the [with] block, some event other
    than an interrupt can happen (a worker starts or finishes a target,
    the loop takes a turn, the cancellation loop goes on, or the block
    is left); and from every such state the run can be brought to its
    end without any interrupt. *)
Theorem a_run_can_always_end (r : FuzzRunner.t) (targets : list FuzzTarget.t)
        (schedule : list Event) (sink0 : list string) (st : State) :
  0 < FuzzRunner.jobs r ->
  exec r targets (start targets sink0) schedule = Some st ->
  (is_ended (phase st) = false ->
   exists ev st', moves_on ev = true /\ step r targets st ev = Some st')
  /\ exists rest st',
       forallb moves_on rest = true
       /\ exec r targets st rest = Some st'
       /\ is_ended (phase st') = true.
Proof.
  intros Hpos H.
  pose proof (well_formed_exec _ _ _ _ _ H) as Hwf.
  pose proof (uncancelled_exec _ _ _ _ _ H) as Hunc.
  split; [now apply progress|].
  clear H. remember (remaining targets st) as n eqn:Hn.
  assert (Hle : (remaining targets st <= n)%nat) by lia. clear Hn.
  revert st Hwf Hunc Hle.
  induction n as [|n IH]; intros st Hwf Hunc Hle.
  - destruct (is_ended (phase st)) eqn:He.
    + exists [], st. repeat split; auto.
    + destruct (progress r targets st Hpos Hwf Hunc He) as (ev & st1 & _ & E).
      pose proof (remaining_step _ _ _ _ _ Hwf E). lia.
  - destruct (is_ended (phase st)) eqn:He.
    + exists [], st. repeat split; auto.
    + destruct (progress r targets st Hpos Hwf Hunc He) as (ev & st1 & Hev & E).
      pose proof (remaining_step _ _ _ _ _ Hwf E) as Hlt.
      destruct (IH st1 (well_formed_step _ _ _ _ _ Hwf E)
                  (uncancelled_step _ _ _ _ _ Hunc E)) as (rest & st' & Hr & Hx & Hd);
        [lia|].
      exists (ev :: rest), st'. cbn [forallb exec]. rewrite Hev, E.
      repeat split; auto.
Qed.

Lemma a_run_can_always_end_witness :
  let st := state_after stop_runner [target_a; target_b]
              (abort_prefix ++ [Collect 0 []]) in
  (is_ended (phase st) = false ->
   exists ev st', moves_on ev = true
                  /\ step stop_runner [target_a; target_b] st ev = Some st')
  /\ exists rest st',
       forallb moves_on rest = true
       /\ exec stop_runner [target_a; target_b] st rest = Some st'
       /\ is_ended (phase st') = true.
Proof.
  apply (a_run_can_always_end stop_runner [target_a; target_b]
           (abort_prefix ++ [Collect 0 []]) []).
  - reflexivity.
  - vm_compute. reflexivity.
Defined.

(** * Further properties *)

(** ** The pool under its worker budget *)

Lemma count_insert (p : Status -> bool) (fs : list Status) (i : nat)
      (s s' : Status) :
  fs !! i = Some s ->
  (List.length (List.filter p (<[i := s']> fs)) + (if p s then 1 else 0)
   = List.length (List.filter p fs) + (if p s' then 1 else 0))%nat.
Proof.
  revert i. induction fs as [|a fs IH]; intros i Hi; [discriminate|].
  destruct i as [|i]; cbn in Hi.
  - simplify_eq. simpl.
    destruct (p s), (p s'); simpl; lia.
  - specialize (IH i Hi). simpl. destruct (p a); simpl; lia.
Qed.

(** What each event does to the futures. *)
Lemma step_futures (r : FuzzRunner.t) (targets : list FuzzTarget.t)
      (st st' : State) (ev : Event) :
  step r targets st ev = Some st' ->
  (futures st' = futures st
   /\ match ev with Dispatch _ | Finish _ _ _ => False | _ => True end)
  \/ exists i,
       (futures st !! i = Some Pending
        /\ futures st' = <[i := Running]> (futures st)
        /\ ev = Dispatch i
        /\ Z.of_nat (running (futures st) + ahead (futures st) i)
           < FuzzRunner.jobs r)
       \/ (futures st !! i = Some Running
           /\ exists o, futures st' = <[i := Done o]> (futures st)
                        /\ exists w io, ev = Finish i w io)
       \/ (futures st !! i = Some Pending
           /\ futures st' = <[i := Cancelled]> (futures st)
           /\ ev = Cancel).
Proof.
  intros H. destruct ev.
  - step_inv H. right. exists i. left. cbn [futures set_futures].
    repeat split; eauto. now apply Z.ltb_lt.
  - step_inv H. right. exists i. right. left. cbn [futures]. eauto 10.
  - step_inv H; now left.
  - step_inv H; cbn [futures set_futures set_phase]; try now left.
    right. exists k. right. right. eauto.
  - step_inv H; now left.
  - step_inv H; now left.
Qed.

Lemma running_start (targets : list FuzzTarget.t) (sink0 : list string) :
  running (futures (start targets sink0)) = 0%nat
  /\ started (futures (start targets sink0)) = 0%nat.
Proof.
  unfold running, started. cbn [futures start].
  induction targets as [|t ts [IH1 IH2]]; split; auto.
Qed.

Lemma running_step (r : FuzzRunner.t) (targets : list FuzzTarget.t)
      (st st' : State) (ev : Event) :
  step r targets st ev = Some st' ->
  (running (futures st)
   + (match ev with Dispatch _ => 1 | _ => 0 end)
   = running (futures st')
     + (match ev with Finish _ _ _ => 1 | _ => 0 end))%nat
  /\ (started (futures st) + (match ev with Dispatch _ => 1 | _ => 0 end)
      = started (futures st'))%nat.
Proof.
  intros H. unfold running, started.
  destruct (step_futures _ _ _ _ _ H)
    as [[Heq Hev]|(i & [(Hi & Hf & -> & _)|[(Hi & o & Hf & w & io & ->)
                                     |(Hi & Hf & ->)]])]; rewrite ?Hf.
  - rewrite Heq. destruct ev; try contradiction; split; lia.
  - pose proof (count_insert is_running _ _ _ Running Hi) as H1.
    pose proof (count_insert is_started _ _ _ Running Hi) as H2.
    cbn in H1, H2. split; lia.
  - pose proof (count_insert is_running _ _ _ (Done o) Hi) as H1.
    pose proof (count_insert is_started _ _ _ (Done o) Hi) as H2.
    cbn in H1, H2. split; lia.
  - pose proof (count_insert is_running _ _ _ Cancelled Hi) as H1.
    pose proof (count_insert is_started _ _ _ Cancelled Hi) as H2.
    cbn in H1, H2. split; lia.
Qed.

Lemma running_exec (r : FuzzRunner.t) (targets : list FuzzTarget.t)
      (schedule : list Event) :
  forall st st',
    exec r targets st schedule = Some st' ->
    (running (futures st) + dispatches schedule
     = running (futures st') + List.length (finished schedule))%nat
    /\ (started (futures st) + dispatches schedule
        = started (futures st'))%nat.
Proof.
  induction schedule as [|ev rest IH]; intros st st' H; cbn [exec] in H.
  - simplify_eq. cbn. lia.
  - destruct (step r targets st ev) as [st1|] eqn:E; [|discriminate].
    destruct (running_step _ _ _ _ _ E) as [H1 H2].
    destruct (IH _ _ H) as [H3 H4].
    unfold dispatches, dispatched, finished in *. cbn [flat_map].
    rewrite !List.length_app.
    destruct ev; cbn [List.length app] in *; lia.
Qed.

Lemma started_bounded (fs : list Status) :
  (started fs <= List.length fs)%nat.
Proof. unfold started. apply List.filter_length_le. Qed.

(** X1: at every point of every run at most [jobs] targets are running
    at once. *)
Theorem never_more_than_jobs_running (config : FuzzConfig.t)
        (cpu_count : option Z) (targets : list FuzzTarget.t)
        (schedule : list Event) (sink0 : list string) (st : State) :
  exec (FuzzRunner.init config cpu_count) targets (start targets sink0)
       schedule = Some st ->
  Z.of_nat (running (futures st))
  <= FuzzRunner.jobs (FuzzRunner.init config cpu_count).
Proof.
  set (r := FuzzRunner.init config cpu_count). intros H.
  pose proof (init_jobs_positive config cpu_count) as Hpos. fold r in Hpos.
  refine (exec_invariant r targets (fun _ => true)
            (fun st => Z.of_nat (running (futures st)) <= FuzzRunner.jobs r)
            _ schedule _ st (forallb_always _) _ H).
  - intros st0 ev st1 _ Hle Hstep.
    destruct (running_step _ _ _ _ _ Hstep) as [Hrun _].
    destruct (step_futures _ _ _ _ _ Hstep)
      as [[_ Hev]|(i & [(_ & _ & -> & Hlt)|[(_ & o & _ & w & io & ->)
                                               |(_ & _ & ->)]])];
      [destruct ev; try contradiction| | |]; lia.
  - destruct (running_start targets sink0) as [-> _]. lia.
Qed.

Lemma never_more_than_jobs_running_witness :
  Z.of_nat (running (futures (state_after stop_runner [target_a; target_b]
                                (abort_prefix ++ [Collect 0 []; Dispatch 1]))))
  <= FuzzRunner.jobs stop_runner.
Proof.
  apply (never_more_than_jobs_running stop_config (Some 2)
           [target_a; target_b] (abort_prefix ++ [Collect 0 []; Dispatch 1]) []).
  vm_compute. reflexivity.
Defined.

(** ** Each target at most once *)

Lemma finish_enabled_done (r : FuzzRunner.t) (targets : list FuzzTarget.t)
      (st st' : State) (i : nat) (w : WorkerEnv) (io : list (option Fault)) :
  step r targets st (Finish i w io) = Some st' ->
  exists o, futures st' !! i = Some (Done o).
Proof.
  intros H. step_inv H. cbn [futures]. eexists.
  apply list_lookup_insert_eq. eapply lookup_lt_Some; eauto.
Qed.


Lemma no_finish_after_done (r : FuzzRunner.t) (targets : list FuzzTarget.t)
      (schedule : list Event) (i : nat) :
  forall st st' o,
    exec r targets st schedule = Some st' ->
    futures st !! i = Some (Done o) ->
    ~ In i (finished schedule).
Proof.
  induction schedule as [|ev rest IH]; intros st st' o H Hi; cbn [exec] in H;
    [intros []|].
  destruct (step r targets st ev) as [st1|] eqn:E; [|discriminate].
  pose proof (done_stable _ _ _ _ _ _ _ E Hi) as Hi1.
  unfold finished. cbn [flat_map]. intros Hin. apply in_app_or in Hin.
  destruct Hin as [Hin|Hin]; [|exact (IH _ _ _ H Hi1 Hin)].
  destruct ev; try contradiction. destruct Hin as [<-|[]].
  step_inv E; congruence.
Qed.

Lemma yielded_grows (r : FuzzRunner.t) (targets : list FuzzTarget.t)
      (st st' : State) (ev : Event) (i : nat) :
  step r targets st ev = Some st' -> In i (yielded st) -> In i (yielded st').
Proof.
  intros H Hi. destruct ev; step_inv H;
    cbn [yielded set_futures set_phase]; auto; now right.
Qed.

Lemma no_collect_after_yield (r : FuzzRunner.t) (targets : list FuzzTarget.t)
      (schedule : list Event) (i : nat) :
  forall st st',
    exec r targets st schedule = Some st' ->
    In i (yielded st) -> ~ In i (collected schedule).
Proof.
  induction schedule as [|ev rest IH]; intros st st' H Hi; cbn [exec] in H;
    [intros []|].
  destruct (step r targets st ev) as [st1|] eqn:E; [|discriminate].
  pose proof (yielded_grows _ _ _ _ _ _ E Hi) as Hi1.
  unfold collected. cbn [flat_map]. intros Hin. apply in_app_or in Hin.
  destruct Hin as [Hin|Hin]; [|exact (IH _ _ H Hi1 Hin)].
  destruct ev; try contradiction. destruct Hin as [<-|[]].
  step_inv E;
    match goal with
    | Hx : existsb (Nat.eqb _) _ = false |- _ =>
        now apply existsb_eqb_false in Hx
    end.
Qed.

Lemma collected_were_done (r : FuzzRunner.t) (targets : list FuzzTarget.t)
      (schedule : list Event) :
  forall st st' i,
    exec r targets st schedule = Some st' ->
    In i (collected schedule) ->
    (exists o, futures st !! i = Some (Done o)) \/ In i (finished schedule).
Proof.
  induction schedule as [|ev rest IH]; intros st st' i H Hi; cbn [exec] in H;
    [destruct Hi|].
  destruct (step r targets st ev) as [st1|] eqn:E; [|discriminate].
  unfold collected, finished in *. cbn [flat_map] in *.
  apply in_app_or in Hi. destruct Hi as [Hi|Hi].
  - destruct ev; try contradiction. destruct Hi as [<-|[]].
    left. step_inv E; eauto.
  - destruct (IH _ _ _ H Hi) as [[o Ho]|Hin];
      [|right; apply in_or_app; now right].
    destruct (step_futures _ _ _ _ _ E)
      as [[Heq _]|(k & [(Hk & Hf & _)|[(Hk & o' & Hf & w & io & ->)
                                       |(Hk & Hf & _)]])].
    + left. exists o. now rewrite <- Heq.
    + rewrite Hf in Ho. apply list_lookup_insert_Some in Ho.
      destruct Ho as [(_ & Ho & _)|[_ Ho]]; [discriminate|eauto].
    + rewrite Hf in Ho. apply list_lookup_insert_Some in Ho.
      destruct Ho as [(<- & _ & _)|[_ Ho]]; [|eauto].
      right. apply in_or_app. left. now left.
    + rewrite Hf in Ho. apply list_lookup_insert_Some in Ho.
      destruct Ho as [(_ & Ho & _)|[_ Ho]]; [discriminate|eauto].
Qed.

Lemma finished_nodup (r : FuzzRunner.t) (targets : list FuzzTarget.t)
      (schedule : list Event) :
  forall st st',
    exec r targets st schedule = Some st' -> List.NoDup (finished schedule).
Proof.
  induction schedule as [|ev rest IH]; intros st st' H; cbn [exec] in H;
    [constructor|].
  destruct (step r targets st ev) as [st1|] eqn:E; [|discriminate].
  unfold finished. cbn [flat_map].
  destruct ev; cbn [app]; try exact (IH _ _ H).
  constructor; [|exact (IH _ _ H)].
  destruct (finish_enabled_done r targets st st1 i w io E) as [o Ho].
  exact (no_finish_after_done _ _ _ _ _ _ _ H Ho).
Qed.

Lemma collected_nodup (r : FuzzRunner.t) (targets : list FuzzTarget.t)
      (schedule : list Event) :
  forall st st',
    exec r targets st schedule = Some st' -> List.NoDup (collected schedule).
Proof.
  induction schedule as [|ev rest IH]; intros st st' H; cbn [exec] in H;
    [constructor|].
  destruct (step r targets st ev) as [st1|] eqn:E; [|discriminate].
  unfold collected. cbn [flat_map].
  destruct ev; cbn [app]; try exact (IH _ _ H).
  constructor; [|exact (IH _ _ H)].
  apply (no_collect_after_yield _ _ _ _ _ _ H).
  step_inv E; cbn [yielded]; now left.
Qed.

(** A future that has left the queue never comes back to it. *)
Lemma not_pending_stable (r : FuzzRunner.t) (targets : list FuzzTarget.t)
      (st st' : State) (ev : Event) (i : nat) :
  step r targets st ev = Some st' ->
  futures st !! i <> Some Pending -> futures st' !! i <> Some Pending.
Proof.
  intros H Hi.
  destruct (step_futures _ _ _ _ _ H)
    as [[Heq _]|(k & [(_ & Hf & _)|[(_ & o & Hf & _)|(_ & Hf & _)]])];
    rewrite ?Heq, ?Hf; auto;
    apply insert_keeps_not_pending; (discriminate || auto).
Qed.

Lemma no_dispatch_after_start (r : FuzzRunner.t) (targets : list FuzzTarget.t)
      (schedule : list Event) (i : nat) :
  forall st st',
    exec r targets st schedule = Some st' ->
    futures st !! i <> Some Pending ->
    ~ In i (dispatched schedule).
Proof.
  induction schedule as [|ev rest IH]; intros st st' H Hi; cbn [exec] in H;
    [intros []|].
  destruct (step r targets st ev) as [st1|] eqn:E; [|discriminate].
  pose proof (not_pending_stable _ _ _ _ _ _ E Hi) as Hi1.
  unfold dispatched. cbn [flat_map]. intros Hin. apply in_app_or in Hin.
  destruct Hin as [Hin|Hin]; [|exact (IH _ _ H Hi1 Hin)].
  destruct ev; try contradiction. destruct Hin as [<-|[]].
  step_inv E; congruence.
Qed.

Lemma dispatched_nodup (r : FuzzRunner.t) (targets : list FuzzTarget.t)
      (schedule : list Event) :
  forall st st',
    exec r targets st schedule = Some st' -> List.NoDup (dispatched schedule).
Proof.
  induction schedule as [|ev rest IH]; intros st st' H; cbn [exec] in H;
    [constructor|].
  destruct (step r targets st ev) as [st1|] eqn:E; [|discriminate].
  unfold dispatched. cbn [flat_map].
  destruct ev; cbn [app]; try exact (IH _ _ H).
  constructor; [|exact (IH _ _ H)].
  apply (no_dispatch_after_start _ _ _ _ _ _ H).
  step_inv E. cbn [futures set_futures].
  rewrite list_lookup_insert_eq; [discriminate|].
  eapply lookup_lt_Some; eauto.
Qed.

Lemma finished_were_started (r : FuzzRunner.t) (targets : list FuzzTarget.t)
      (schedule : list Event) :
  forall st st' i,
    exec r targets st schedule = Some st' ->
    In i (finished schedule) ->
    futures st !! i = Some Running \/ In i (dispatched schedule).
Proof.
  induction schedule as [|ev rest IH]; intros st st' i H Hi; cbn [exec] in H;
    [destruct Hi|].
  destruct (step r targets st ev) as [st1|] eqn:E; [|discriminate].
  unfold dispatched, finished in *. cbn [flat_map] in *.
  apply in_app_or in Hi. destruct Hi as [Hi|Hi].
  - destruct ev; try contradiction. destruct Hi as [<-|[]].
    left. step_inv E; eauto.
  - destruct (IH _ _ _ H Hi) as [Hr|Hin];
      [|right; apply in_or_app; now right].
    destruct (step_futures _ _ _ _ _ E)
      as [[Heq _]|(k & [(Hk & Hf & -> & _)|[(Hk & o' & Hf & _)
                                          |(Hk & Hf & _)]])].
    + left. now rewrite <- Heq.
    + rewrite Hf in Hr. apply list_lookup_insert_Some in Hr.
      destruct Hr as [(<- & _ & _)|[_ Hr]]; [|now left].
      right. apply in_or_app. left. now left.
    + rewrite Hf in Hr. apply list_lookup_insert_Some in Hr.
      destruct Hr as [(_ & Hr & _)|[_ Hr]]; [discriminate|now left].
    + rewrite Hf in Hr. apply list_lookup_insert_Some in Hr.
      destruct Hr as [(_ & Hr & _)|[_ Hr]]; [discriminate|now left].
Qed.

(** X2: in every run each target is started at most once, its worker
    comes back at most once and only when it has been started, and its
    outcome is handed to the loop at most once and only after the worker
    has come back. *)
Theorem each_target_at_most_once (r : FuzzRunner.t)
        (targets : list FuzzTarget.t) (schedule : list Event)
        (sink0 : list string) (st : State) :
  exec r targets (start targets sink0) schedule = Some st ->
  List.NoDup (finished schedule)
  /\ List.NoDup (collected schedule)
  /\ incl (collected schedule) (finished schedule)
  /\ (List.length (finished schedule) <= dispatches schedule)%nat
  /\ (dispatches schedule <= List.length targets)%nat
  /\ List.NoDup (dispatched schedule)
  /\ incl (finished schedule) (dispatched schedule).
Proof.
  intros H. split; [|split; [|split; [|split; [|split; [|split]]]]].
  - exact (finished_nodup _ _ _ _ _ H).
  - exact (collected_nodup _ _ _ _ _ H).
  - intros i Hi.
    destruct (collected_were_done _ _ _ _ _ i H Hi) as [[o Ho]|Hin]; [|exact Hin].
    cbn [futures start] in Ho. rewrite list_lookup_fmap in Ho.
    destruct (targets !! i); discriminate.
  - destruct (running_exec _ _ _ _ _ H) as [Hr _].
    destruct (running_start targets sink0) as [Hz _]. lia.
  - destruct (running_exec _ _ _ _ _ H) as [_ Hs].
    destruct (running_start targets sink0) as [_ Hz].
    pose proof (started_bounded (futures st)).
    destruct (well_formed_exec _ _ _ _ _ H) as (Hlen & _). lia.
  - exact (dispatched_nodup _ _ _ _ _ H).
  - intros i Hi.
    destruct (finished_were_started _ _ _ _ _ i H Hi) as [Hr|Hin]; [|exact Hin].
    cbn [futures start] in Hr. rewrite list_lookup_fmap in Hr.
    destruct (targets !! i); discriminate.
Qed.

Lemma each_target_at_most_once_witness :
  List.NoDup (finished two_failures_schedule)
  /\ List.NoDup (collected two_failures_schedule)
  /\ incl (collected two_failures_schedule) (finished two_failures_schedule)
  /\ (List.length (finished two_failures_schedule)
      <= dispatches two_failures_schedule)%nat
  /\ (dispatches two_failures_schedule
      <= List.length [target_a; target_b])%nat
  /\ List.NoDup (dispatched two_failures_schedule)
  /\ incl (finished two_failures_schedule)
          (dispatched two_failures_schedule).
Proof.
  apply (each_target_at_most_once logging_runner [target_a; target_b]
           two_failures_schedule []
           (state_after logging_runner [target_a; target_b]
              two_failures_schedule)).
  vm_compute. reflexivity.
Defined.

(** ** The order of the queue *)

Lemma ahead_insert (fs : list Status) (k j : nat) (s : Status) :
  is_pending s = false ->
  (ahead (<[k := s]> fs) j <= ahead fs j)%nat.
Proof.
  intros Hs. unfold ahead.
  destruct (decide (k < j)%nat) as [Hlt|Hge].
  - rewrite take_insert_lt by exact Hlt.
    destruct (take j fs !! k) as [s0|] eqn:E.
    + pose proof (count_insert is_pending _ _ _ s E) as Hc.
      rewrite Hs in Hc. destruct (is_pending s0); lia.
    + rewrite list_insert_ge; [lia|]. now apply lookup_ge_None.
  - rewrite take_insert_ge by lia. lia.
Qed.

Lemma ahead_insert_self (fs : list Status) (j : nat) (s : Status) :
  ahead (<[j := s]> fs) j = ahead fs j.
Proof. unfold ahead. now rewrite take_insert_ge by lia. Qed.

Lemma ahead_zero (fs : list Status) (j : nat) :
  ahead fs j = 0%nat ->
  forall i, (i < j)%nat -> fs !! i <> Some Pending.
Proof.
  unfold ahead. intros Hz i Hij Hi.
  assert (Hin : In Pending (List.filter is_pending (take j fs))).
  { apply List.filter_In. split; [|reflexivity].
    apply list_elem_of_In, list_elem_of_lookup. exists i.
    now rewrite lookup_take_lt. }
  destruct (List.filter is_pending (take j fs)); [destruct Hin|discriminate].
Qed.

Lemma close_to_order_step (r : FuzzRunner.t) (targets : list FuzzTarget.t)
      (st st' : State) (ev : Event) :
  close_to_order (FuzzRunner.jobs r) (futures st) ->
  step r targets st ev = Some st' ->
  close_to_order (FuzzRunner.jobs r) (futures st').
Proof.
  unfold close_to_order. intros P H.
  destruct (step_futures _ _ _ _ _ H)
    as [[Heq _]|(k & [(Hk & Hf & _ & Hlt)|[(Hk & o & Hf & _)
                                          |(Hk & Hf & _)]])];
    rewrite ?Hf; [now rewrite Heq| | |].
  - intros j s Hj Hs. apply list_lookup_insert_Some in Hj.
    destruct Hj as [(<- & _ & _)|[Hne Hj]].
    + rewrite ahead_insert_self. lia.
    + pose proof (ahead_insert (futures st) k j Running eq_refl).
      specialize (P j s Hj Hs). lia.
  - intros j s Hj Hs. apply list_lookup_insert_Some in Hj.
    destruct Hj as [(<- & _ & _)|[Hne Hj]].
    + rewrite ahead_insert_self. exact (P k Running Hk eq_refl).
    + pose proof (ahead_insert (futures st) k j (Done o) eq_refl).
      specialize (P j s Hj Hs). lia.
  - intros j s Hj Hs. apply list_lookup_insert_Some in Hj.
    destruct Hj as [(_ & <- & _)|[Hne Hj]]; [discriminate|].
    pose proof (ahead_insert (futures st) k j Cancelled eq_refl).
    specialize (P j s Hj Hs). lia.
Qed.

(** X3: the work queue is served first in, first out by [jobs] workers:
    at every point of every run a target that has been started has fewer
    than [jobs] targets in front of it in the list that are still
    pending; with one worker no target in front of a started one is
    pending, so the targets start in the order of the list. *)
Theorem targets_start_in_list_order (r : FuzzRunner.t)
        (targets : list FuzzTarget.t) (schedule : list Event)
        (sink0 : list string) (st : State) (j : nat) (s : Status) :
  exec r targets (start targets sink0) schedule = Some st ->
  futures st !! j = Some s -> is_started s = true ->
  Z.of_nat (ahead (futures st) j) < FuzzRunner.jobs r
  /\ (FuzzRunner.jobs r = 1 ->
      forall i, (i < j)%nat -> futures st !! i <> Some Pending).
Proof.
  intros H Hj Hs.
  assert (P : close_to_order (FuzzRunner.jobs r) (futures st)).
  { refine (exec_invariant r targets (fun _ => true)
              (fun st => close_to_order (FuzzRunner.jobs r) (futures st))
              _ schedule _ st (forallb_always _) _ H).
    - intros st0 ev st1 _. apply close_to_order_step.
    - intros j' s' Hj'. cbn [futures start] in Hj'.
      rewrite list_lookup_fmap in Hj'.
      destruct (targets !! j'); cbn in Hj'; simplify_eq. discriminate. }
  specialize (P j s Hj Hs). split; [exact P|].
  intros Hone. apply ahead_zero. lia.
Qed.

Lemma targets_start_in_list_order_witness :
  let st := state_after stop_runner [target_a; target_b; target_a]
              [Dispatch 0; Finish 0 passing []; Dispatch 1] in
  Z.of_nat (ahead (futures st) 1) < FuzzRunner.jobs stop_runner
  /\ (FuzzRunner.jobs stop_runner = 1 ->
      forall i, (i < 1)%nat -> futures st !! i <> Some Pending).
Proof.
  apply (targets_start_in_list_order stop_runner
           [target_a; target_b; target_a] [Dispatch 0; Finish 0 passing []; Dispatch 1] []
           (state_after stop_runner [target_a; target_b; target_a]
              [Dispatch 0; Finish 0 passing []; Dispatch 1])
           1%nat Running).
  - vm_compute. reflexivity.
  - reflexivity.
  - reflexivity.
Defined.

(** ** The end of a run *)

Lemma all_yielded (targets : list FuzzTarget.t) (st : State) :
  well_formed targets st ->
  List.length (yielded st) = List.length (futures st) ->
  forall i, (i < List.length (futures st))%nat -> In i (yielded st).
Proof.
  intros (Hlen & Hnd & Hdone) Hy i Hi.
  apply (List.NoDup_length_incl Hnd (l' := seq 0 (List.length (futures st)))).
  - rewrite List.length_seq. lia.
  - intros j Hj. destruct (Hdone j Hj) as [o Ho].
    apply lookup_lt_Some in Ho. apply List.in_seq. lia.
  - apply List.in_seq. lia.
Qed.

Lemma idle_forall (fs : list Status) :
  (forall i s, fs !! i = Some s -> s <> Pending /\ s <> Running) ->
  idle fs = true.
Proof.
  intros H. unfold idle. apply forallb_forall. intros s Hs.
  apply list_elem_of_In, list_elem_of_lookup in Hs. destruct Hs as [i Hi].
  destruct (H i s Hi). now destruct s.
Qed.

Lemma returned_idle_step (r : FuzzRunner.t) (targets : list FuzzTarget.t)
      (st st' : State) (ev : Event) :
  well_formed targets st ->
  step r targets st ev = Some st' ->
  phase st' = Ended None -> idle (futures st') = true.
Proof.
  intros Hwf H Hend. destruct ev.
  - step_inv H. cbn [phase set_futures] in Hend.
    rewrite Hend in *. discriminate.
  - step_inv H. cbn [phase futures] in *. rewrite Hend in *. discriminate.
  - step_inv H; cbn [phase] in Hend; discriminate.
  - step_inv H; cbn [phase set_phase set_futures] in Hend; discriminate.
  - step_inv H; cbn [phase set_phase] in Hend; discriminate.
  - step_inv H; cbn [phase futures set_phase] in *; auto.
    apply idle_forall. intros i s Hi.
    match goal with
    | Hx : (_ =? _)%nat = true |- _ => apply Nat.eqb_eq in Hx;
        pose proof (all_yielded _ _ Hwf Hx i (lookup_lt_Some _ _ _ Hi)) as Hin
    end.
    destruct Hwf as (_ & _ & Hdone). destruct (Hdone i Hin) as [o Ho].
    rewrite Ho in Hi. simplify_eq. split; discriminate.
Qed.

Lemma never_cancelled_step (r : FuzzRunner.t) (targets : list FuzzTarget.t)
      (st st' : State) (ev : Event) :
  runs_to_end st ->
  (forall i, futures st !! i <> Some Cancelled) ->
  step r targets st ev = Some st' ->
  forall i, futures st' !! i <> Some Cancelled.
Proof.
  intros Hrun P H.
  destruct (step_futures _ _ _ _ _ H)
    as [[Heq _]|(k & [(Hk & Hf & _)|[(Hk & o & Hf & _)|(Hk & Hf & ->)]])];
    rewrite ?Hf; [now rewrite Heq| | |].
  - intros i Hi. apply list_lookup_insert_Some in Hi.
    destruct Hi as [(_ & Hi & _)|[_ Hi]]; [discriminate|]. exact (P i Hi).
  - intros i Hi. apply list_lookup_insert_Some in Hi.
    destruct Hi as [(_ & Hi & _)|[_ Hi]]; [discriminate|]. exact (P i Hi).
  - exfalso. unfold runs_to_end in Hrun. step_inv H; contradiction.
Qed.

(** X4: when [run_fuzz_tests] returns, the pool is idle: every target
    has an outcome or was cancelled before it started; with
    continue_on_failure set no target is ever cancelled, so every target
    then has an outcome.  (A call that [KeyboardInterrupt] ends can leave
    workers running.) *)
Theorem run_returns_with_idle_pool (r : FuzzRunner.t)
        (targets : list FuzzTarget.t) (schedule : list Event)
        (sink0 : list string) (st : State) :
  exec r targets (start targets sink0) schedule = Some st ->
  phase st = Ended None ->
  (forall i, (i < List.length targets)%nat ->
             (exists o, futures st !! i = Some (Done o))
             \/ futures st !! i = Some Cancelled)
  /\ (FuzzConfig.continue_on_failure (FuzzRunner.config r) = true ->
      forall i, (i < List.length targets)%nat ->
                exists o, futures st !! i = Some (Done o)).
Proof.
  intros H Hend.
  pose proof (well_formed_exec _ _ _ _ _ H) as Hwf.
  assert (Hidle : idle (futures st) = true).
  { cut (well_formed targets st
         /\ (phase st = Ended None -> idle (futures st) = true));
      [tauto|].
    refine (exec_invariant r targets (fun _ => true)
              (fun st => well_formed targets st
                         /\ (phase st = Ended None ->
                             idle (futures st) = true))
              _ schedule _ st (forallb_always _) _ H).
    - intros st0 ev st1 _ [Hwf0 P0] Hstep. split.
      + eapply well_formed_step; eauto.
      + eapply returned_idle_step; eauto.
    - split; [apply well_formed_start|discriminate]. }
  assert (Hcases : forall i, (i < List.length targets)%nat ->
             (exists o, futures st !! i = Some (Done o))
             \/ futures st !! i = Some Cancelled).
  { intros i Hi. destruct Hwf as (Hlen & _).
    destruct (futures st !! i) as [s|] eqn:E;
      [|apply lookup_ge_None in E; lia].
    destruct (idle_lookup _ i Hidle) as [Hp Hr].
    destruct s; try congruence; eauto. }
  split; [exact Hcases|].
  intros Hc i Hi. destruct (Hcases i Hi) as [Ho|Hcancel]; [exact Ho|].
  exfalso. revert Hcancel.
  cut (runs_to_end st /\ forall i, futures st !! i <> Some Cancelled);
    [intros [_ Hn]; apply Hn|].
  refine (exec_invariant r targets (fun _ => true)
            (fun st => runs_to_end st
                       /\ forall i, futures st !! i <> Some Cancelled)
            _ schedule _ st (forallb_always _) _ H).
  - intros st0 ev st1 _ [Hrun0 Hn0] Hstep. split.
    + eapply runs_to_end_step; eauto.
    + eapply never_cancelled_step; eauto.
  - split; [exact I|]. intros j. cbn [futures start].
    rewrite list_lookup_fmap. destruct (targets !! j); discriminate.
Qed.

Lemma run_returns_with_idle_pool_witness :
  let st := state_after stop_runner [target_a; target_b]
              (abort_prefix ++ [Collect 0 []] ++ [Cancel; Cancel; Cancel; Exit])
  in
  (forall i, (i < List.length [target_a; target_b])%nat ->
             (exists o, futures st !! i = Some (Done o))
             \/ futures st !! i = Some Cancelled)
  /\ (FuzzConfig.continue_on_failure (FuzzRunner.config stop_runner) = true ->
      forall i, (i < List.length [target_a; target_b])%nat ->
                exists o, futures st !! i = Some (Done o)).
Proof.
  apply (run_returns_with_idle_pool stop_runner [target_a; target_b]
           (abort_prefix ++ [Collect 0 []] ++ [Cancel; Cancel; Cancel; Exit])
           []).
  - vm_compute. reflexivity.
  - vm_compute. reflexivity.
Defined.

(** An interrupt during the wait for the pool ends the call while a
    worker is still running. *)
Example interrupted_call_leaves_a_worker_running :
  let st := state_after stop_runner [target_a]
              [Dispatch 0; Interrupt; Interrupt] in
  phase st = Ended (Some KeyboardInterrupt)
  /\ futures st = [Running].
Proof. vm_compute. split; reflexivity. Qed.

(** ** The counters in every run *)

Lemma twice_yielded_step (r : FuzzRunner.t) (targets : list FuzzTarget.t)
      (st st' : State) (ev : Event) :
  completed st <= 2 * Z.of_nat (List.length (yielded st)) ->
  step r targets st ev = Some st' ->
  completed st' <= 2 * Z.of_nat (List.length (yielded st')).
Proof.
  intros P H.
  destruct (match ev with Collect _ _ => true | _ => false end) eqn:Hk.
  - destruct ev; try discriminate.
    destruct (collect_any _ _ _ _ _ _ H)
      as (o & b & l & _ & _ & E & Hc & _ & _).
    assert (Hy : yielded st' = i :: yielded st) by (step_inv H; reflexivity).
    apply loop_body_counters in E. cbn [l_completed l_failed] in E.
    rewrite Hy, Hc. cbn [List.length]. lia.
  - assert (Hne : forall i io, ev <> Collect i io).
    { intros i io Heq. rewrite Heq in Hk. discriminate. }
    destruct (other_steps_keep _ _ _ _ _ Hne H) as (Hy & Hc & _).
    now rewrite Hy, Hc.
Qed.

(** X5: in every run, whatever the sink does, neither counter ever goes
    down, [failed] stays between zero and [completed], and [completed]
    never exceeds twice the number of outcomes handed to the loop, hence
    twice the number of targets. *)
Theorem counters_monotone_and_bounded (r : FuzzRunner.t)
        (targets : list FuzzTarget.t) (before after : list Event)
        (sink0 : list string) (st st' : State) :
  exec r targets (start targets sink0) before = Some st ->
  exec r targets st after = Some st' ->
  completed st <= completed st'
  /\ failed st <= failed st'
  /\ 0 <= failed st' <= completed st'
  /\ completed st' <= 2 * Z.of_nat (List.length (yielded st'))
  /\ completed st' <= 2 * Z.of_nat (List.length targets).
Proof.
  intros H1 H2.
  assert (H : exec r targets (start targets sink0) (before ++ after) = Some st').
  { clear -H1 H2. revert H1. generalize (start targets sink0).
    induction before as [|ev rest IH]; intros s H1; cbn [exec app] in *.
    - now simplify_eq.
    - destruct (step r targets s ev); [eauto|discriminate]. }
  destruct (counters_monotone _ _ _ _ _ H2) as [Hc Hf].
  pose proof (failed_le_completed _ _ _ _ _ H) as Hfc.
  assert (Hy : completed st' <= 2 * Z.of_nat (List.length (yielded st'))).
  { refine (exec_invariant r targets (fun _ => true)
              (fun st => completed st
                         <= 2 * Z.of_nat (List.length (yielded st)))
              _ (before ++ after) _ st' (forallb_always _) _ H).
    - intros st0 ev st1 _. apply twice_yielded_step.
    - cbn. lia. }
  pose proof (yielded_bounded _ _ (well_formed_exec _ _ _ _ _ H)).
  repeat split; lia.
Qed.

Lemma counters_monotone_and_bounded_witness :
  let st := state_after stop_logging_runner [target_a; target_b]
              [Dispatch 0;
               Finish 0 failing [Some (WriteRaises encoding_error); None]] in
  let st' := state_after stop_logging_runner [target_a; target_b]
               overcount_schedule in
  completed st <= completed st'
  /\ failed st <= failed st'
  /\ 0 <= failed st' <= completed st'
  /\ completed st' <= 2 * Z.of_nat (List.length (yielded st'))
  /\ completed st' <= 2 * Z.of_nat (List.length [target_a; target_b]).
Proof.
  apply (counters_monotone_and_bounded stop_logging_runner
           [target_a; target_b]
           [Dispatch 0;
               Finish 0 failing [Some (WriteRaises encoding_error); None]]
           [Collect 0 [Some (WriteRaises encoding_error)];
            Dispatch 1; Finish 1 passing []; Collect 1 []] []).
  - vm_compute. reflexivity.
  - vm_compute. reflexivity.
Defined.

(** X6: when no write of the loop to the sink raises, [completed] is the
    number of outcomes handed to the loop as long as no exception is in
    flight, and never exceeds the number of targets; with
    continue_on_failure set, a run that ends normally has counted every
    target once. *)
Theorem clean_runs_count_each_outcome_once (config : FuzzConfig.t)
        (cpu_count : option Z) (targets : list FuzzTarget.t)
        (schedule : list Event) (sink0 : list string) (st : State) :
  forallb main_clean schedule = true ->
  exec (FuzzRunner.init config cpu_count) targets (start targets sink0)
       schedule = Some st ->
  completed st <= Z.of_nat (List.length targets)
  /\ (regular (phase st) = true ->
      completed st = Z.of_nat (List.length (yielded st)))
  /\ (FuzzConfig.continue_on_failure config = true ->
      phase st = Ended None ->
      completed st = Z.of_nat (List.length targets)).
Proof.
  intros Hs H.
  pose proof (init_consistent config cpu_count) as Hr.
  split; [|split].
  - eapply completed_bounded_when_clean; eauto.
  - apply (counted_exec _ _ _ _ _ Hr Hs H).
  - intros Hc Hp. eapply completed_is_total_when_clean; eauto.
Qed.

Lemma clean_runs_count_each_outcome_once_witness :
  let st := state_after logging_runner [target_a; target_b]
              two_failures_schedule in
  completed st <= Z.of_nat (List.length [target_a; target_b])
  /\ (regular (phase st) = true ->
      completed st = Z.of_nat (List.length (yielded st)))
  /\ (FuzzConfig.continue_on_failure logging_config = true ->
      phase st = Ended None ->
      completed st = Z.of_nat (List.length [target_a; target_b])).
Proof.
  apply (clean_runs_count_each_outcome_once logging_config (Some 4)
           [target_a; target_b] two_failures_schedule []).
  - reflexivity.
  - vm_compute. reflexivity.
Defined.

(** ** The stop-on-failure policy *)

Lemma looping_back (r : FuzzRunner.t) (targets : list FuzzTarget.t)
      (st st' : State) (ev : Event) :
  step r targets st ev = Some st' ->
  phase st' = Looping -> phase st = Looping.
Proof.
  intros H. step_inv H; cbn [phase set_phase set_futures]; auto;
    try discriminate.
Qed.

Lemma no_crash_exec (r : FuzzRunner.t) (targets : list FuzzTarget.t)
      (schedule : list Event) (sink0 : list string) (st : State) :
  0 < FuzzRunner.jobs r ->
  forallb clean_event schedule = true ->
  forallb finds_cwd schedule = true ->
  exec r targets (start targets sink0) schedule = Some st ->
  no_crash st.
Proof.
  intros Hpos Hs Hd H.
  refine (exec_invariant r targets
            (fun ev => clean_event ev && finds_cwd ev) no_crash
            _ schedule _ st _ _ H).
  - intros st0 ev st1 Hev. now apply no_crash_step.
  - clear -Hs Hd. induction schedule as [|ev rest IH]; [reflexivity|].
    cbn [forallb] in *. apply andb_true_iff in Hs, Hd.
    destruct Hs as [-> Hs], Hd as [-> Hd]. now apply IH.
  - intros i e. cbn [futures start]. rewrite list_lookup_fmap.
    destruct (targets !! i); discriminate.
Qed.

(** X7: with continue_on_failure unset, no write to the sink raising
    and no interrupt cutting a turn of the loop short, the loop is
    handed at most one failing result, and none as long as it goes on;
    [failed] counts that result and the workers that raised instead of
    returning one, which do not stop the loop; when every
    worker finds its working directory no worker raises, and [failed]
    is at most 1, and 0 as long as the loop goes on. *)
Theorem stop_policy_counts_one_failure (config : FuzzConfig.t)
        (cpu_count : option Z) (targets : list FuzzTarget.t)
        (schedule : list Event) (st : State) :
  FuzzConfig.continue_on_failure config = false ->
  forallb clean_event schedule = true ->
  exec (FuzzRunner.init config cpu_count) targets (start targets [])
       schedule = Some st ->
  (List.length (failures st) <= 1)%nat
  /\ (phase st = Looping -> failures st = [])
  /\ failed st
     = Z.of_nat (List.length (failures st))
       + Z.of_nat (List.length (crashes st))
  /\ (forallb finds_cwd schedule = true ->
      0 <= failed st <= 1 /\ (phase st = Looping -> failed st = 0)).
Proof.
  set (r := FuzzRunner.init config cpu_count). intros Hc Hs H.
  pose proof (init_consistent config cpu_count) as Hr.
  pose proof (init_jobs_positive config cpu_count) as Hpos.
  destruct (tallied_exec r targets schedule st Hr Hs H) as (_ & _ & Hfailed).
  unfold troubles in Hfailed.
  assert (Hone : (List.length (failures st) <= 1)%nat
                 /\ (phase st = Looping -> failures st = [])).
  { cut (well_formed targets st
         /\ (List.length (failures st) <= 1)%nat
         /\ (phase st = Looping -> failures st = [])); [tauto|].
    refine (exec_invariant r targets clean_event
              (fun st => well_formed targets st
                         /\ (List.length (failures st) <= 1)%nat
                         /\ (phase st = Looping -> failures st = []))
              _ schedule _ st Hs _ H).
    - intros st0 ev st1 Hev (Hwf & Hle & Hloop) Hstep.
      split; [eapply well_formed_step; eauto|].
      destruct (match ev with Collect _ _ => true | _ => false end) eqn:Hk.
      + destruct ev; try discriminate. cbn [clean_event] in Hev.
        destruct (met_collect _ _ _ _ _ _ Hwf Hstep) as (o' & Hi' & Hfs & _).
        destruct (collect_clean _ _ _ _ _ _ Hr (or_intror Hev) Hstep)
          as (o & Hp & Hi & _ & _ & _ & Hp' & _).
        rewrite Hfs, (Hloop Hp), Hp'. unfold failure_of. rewrite Hi.
        cbn [app]. destruct o as [res|e]; cbn [loop_flag].
        * subst r. cbn [FuzzRunner.init FuzzRunner.config]. rewrite Hc.
          destruct (FuzzResult.success res); cbn;
            split; (lia || discriminate || reflexivity).
        * destruct (is_Exception e); cbn;
            split; (lia || discriminate || reflexivity).
      + assert (Hy : yielded st1 = yielded st0).
        { assert (Hne : forall i io, ev <> Collect i io).
          { intros i io Heq. rewrite Heq in Hk. discriminate. }
          now destruct (other_steps_keep _ _ _ _ _ Hne Hstep). }
        destruct (met_stable _ _ _ _ _ Hwf Hstep Hy) as [-> _].
        split; [exact Hle|].
        intros Hp'. apply Hloop. eapply looping_back; eauto.
    - split; [apply well_formed_start|]. cbn. split; [lia|reflexivity]. }
  destruct Hone as [Hle Hloop].
  split; [exact Hle|]. split; [exact Hloop|]. split; [lia|].
  intros Hd.
  pose proof (no_crash_crashes _
                (no_crash_exec r targets schedule [] st Hpos Hs Hd H)) as Hn.
  rewrite Hn in Hfailed. cbn [List.length] in Hfailed.
  split; [lia|]. intros Hp. rewrite (Hloop Hp) in Hfailed.
  cbn [List.length] in Hfailed. lia.
Qed.

Lemma stop_policy_counts_one_failure_witness :
  let schedule := abort_prefix ++ [Collect 0 []] ++ abort_mid ++ abort_post in
  let st := state_after stop_runner [target_a; target_b] schedule in
  (List.length (failures st) <= 1)%nat
  /\ (phase st = Looping -> failures st = [])
  /\ failed st
     = Z.of_nat (List.length (failures st))
       + Z.of_nat (List.length (crashes st))
  /\ (forallb finds_cwd schedule = true ->
      0 <= failed st <= 1 /\ (phase st = Looping -> failed st = 0)).
Proof.
  apply (stop_policy_counts_one_failure stop_config (Some 2)
           [target_a; target_b]
           (abort_prefix ++ [Collect 0 []] ++ abort_mid ++ abort_post)).
  - reflexivity.
  - reflexivity.
  - vm_compute. reflexivity.
Defined.

(** Two workers that find their working directory removed are both
    counted as failed, and the loop goes on, though the policy is to
    stop at the first failure. *)
Example stop_policy_counts_two_crashes :
  let st := state_after stop_runner [target_a; target_b]
              [Dispatch 0; Finish 0 env_lost []; Collect 0 [];
               Dispatch 1; Finish 1 env_lost []; Collect 1 []] in
  failed st = 2 /\ phase st = Looping /\ failures st = [].
Proof. vm_compute. repeat split; reflexivity. Qed.

(** ** What the sandbox reports *)

(** X9: whatever the sink does, an outcome the sandbox returns names the
    target it was called with, and it reports success only when the
    external command exited with status 0; it then carries the command's
    stdout and stderr and nothing has been written to the sink. *)
Theorem success_only_from_zero_exit (r : FuzzRunner.t)
        (target : FuzzTarget.t) (w : WorkerEnv) (h h' : Host)
        (res : FuzzResult.t) :
  _run_single_fuzz_test r target w h = (Ok res, h') ->
  FuzzResult.target res = target
  /\ (FuzzResult.success res = true ->
      h_sink h' = h_sink h
      /\ exists g dir stdout stderr,
           budget r = Ok g
           /\ cwd_passed w = Got dir
           /\ h_calls h' = h_calls h ++ [launch r target (go_mod w) g dir]
           /\ proc w (launch r target (go_mod w) g dir)
              = Completed 0 stdout stderr
           /\ FuzzResult.output res = stdout
           /\ FuzzResult.error res = stderr).
Proof.
  unfold _run_single_fuzz_test.
  unfold bind at 1. unfold lift at 1.
  destruct (budget r) as [g|e0] eqn:Hg; [|discriminate].
  unfold bind at 1. unfold lift at 1.
  destruct (cwd_logged w) as [d|text]; cbn [of_try]; [|discriminate].
  unfold try_except.
  unfold bind at 1. unfold lift at 1.
  assert (Hhandler : forall message k k' (o : Outcome FuzzResult.t),
             (logs (_log_error r message) ;;;
              ret {| FuzzResult.target := target;
                     FuzzResult.success := false;
                     FuzzResult.duration := clock w;
                     FuzzResult.output := "";
                     FuzzResult.error := message |}) k = (o, k') ->
             o = Ok res ->
             FuzzResult.target res = target
             /\ FuzzResult.success res = false).
  { intros message k k' o H ->. apply sandbox_handler in H.
    destruct H as [_ [H|[t H]]]; simplify_eq. split; reflexivity. }
  destruct (cwd_passed w) as [dir|text] eqn:Hdir; cbn [of_try is_Exception].
  2:{ intros H. destruct (Hhandler _ _ _ _ H eq_refl) as [Ht Hs].
      split; [exact Ht|]. rewrite Hs. discriminate. }
  unfold bind at 1. unfold subprocess_run.
  remember (launch r target (go_mod w) g dir) as l eqn:Hl.
  remember {| h_sink := h_sink h; h_calls := h_calls h ++ [l] |} as h1
    eqn:Hh1.
  destruct (proc w l) as [rc out err| |text] eqn:Hproc.
  - match goal with
    | |- context [match ?m h1 with _ => _ end] =>
        destruct (m h1) as [o1 h2] eqn:E
    end.
    pose proof (sandbox_body _ _ _ _ _ _ _ _ _ E) as [_ Ho].
    destruct (rc =? 0) eqn:Hrc.
    + unfold bind, ret in E. simplify_eq. intros [= <- <-].
      apply Z.eqb_eq in Hrc. subst rc.
      cbn [FuzzResult.target FuzzResult.success FuzzResult.output
           FuzzResult.error].
      split; [reflexivity|]. intros _. split; [reflexivity|].
      exists g, dir, out, err. cbn [h_calls]. auto 10.
    + destruct Ho as [->|[text ->]].
      * intros [= <- <-]. cbn [outcome_of FuzzResult.target
                               FuzzResult.success].
        rewrite Hrc. split; [reflexivity|discriminate].
      * cbn [is_Exception]. intros H.
        destruct (Hhandler _ _ _ _ H eq_refl) as [Ht Hs].
        split; [exact Ht|]. rewrite Hs. discriminate.
  - unfold raise. cbn [is_Exception]. intros H.
    destruct (Hhandler _ _ _ _ H eq_refl) as [Ht Hs].
    split; [exact Ht|]. rewrite Hs. discriminate.
  - unfold raise. cbn [is_Exception]. intros H.
    destruct (Hhandler _ _ _ _ H eq_refl) as [Ht Hs].
    split; [exact Ht|]. rewrite Hs. discriminate.
Qed.

Lemma success_only_from_zero_exit_witness :
  let h := {| h_sink := {| written := []; buffered := [];
                           faults := [Some (WriteRaises encoding_error)] |};
              h_calls := [] |} in
  let res := {| FuzzResult.target := target_a; FuzzResult.success := true;
                FuzzResult.duration := clock passing;
                FuzzResult.output := "ok"; FuzzResult.error := "" |} in
  let h' := snd (_run_single_fuzz_test logging_runner target_a passing h) in
  FuzzResult.target res = target_a
  /\ (FuzzResult.success res = true ->
      h_sink h' = h_sink h
      /\ exists g dir stdout stderr,
           budget logging_runner = Ok g
           /\ cwd_passed passing = Got dir
           /\ h_calls h'
              = h_calls h ++ [launch logging_runner target_a (go_mod passing)
                                g dir]
           /\ proc passing (launch logging_runner target_a (go_mod passing)
                              g dir)
              = Completed 0 stdout stderr
           /\ FuzzResult.output res = stdout
           /\ FuzzResult.error res = stderr).
Proof.
  apply (success_only_from_zero_exit logging_runner target_a passing).
  vm_compute. reflexivity.
Defined.

(** ** Every failure leaves a record *)

Lemma noted_app (l m : list string) (res : FuzzResult.t) :
  noted l res -> noted (l ++ m) res.
Proof. intros [H|H]; [left|right]; apply in_or_app; now left. Qed.

(** With writes that succeed the error file only grows. *)
Lemma sink_grows (r : FuzzRunner.t) (targets : list FuzzTarget.t)
      (st st' : State) (ev : Event) :
  consistent r -> clean_event ev = true -> flushed st ->
  step r targets st ev = Some st' ->
  flushed st' /\ exists m, sink st' = sink st ++ m.
Proof.
  intros Hr Hev Hfl H. destruct ev; cbn [clean_event] in Hev.
  - step_inv H. split; [exact Hfl|]. exists []. now rewrite app_nil_r.
  - destruct (finish_clean _ _ _ _ _ _ _ (or_intror Hev) H)
      as (target & _ & _ & _ & _ & _ & Hs).
    destruct (Hs Hfl) as [Hfl' ->]. eauto.
  - destruct (collect_clean _ _ _ _ _ _ Hr (or_intror Hev) H)
      as (o & _ & _ & _ & _ & _ & _ & _ & _ & _ & Hs).
    destruct (Hs Hfl) as [Hfl' ->]. eauto.
  - step_inv H; (split; [exact Hfl|]); exists []; now rewrite app_nil_r.
  - step_inv H; (split; [exact Hfl|]); exists []; now rewrite app_nil_r.
  - step_inv H; (split; [exact Hfl|]); exists []; now rewrite app_nil_r.
Qed.

Lemma failures_noted_step (r : FuzzRunner.t) (targets : list FuzzTarget.t)
      (st st' : State) (ev : Event) :
  consistent r -> FuzzRunner.error_file_handle r = true ->
  clean_event ev = true -> flushed st ->
  failures_noted st -> step r targets st ev = Some st' -> failures_noted st'.
Proof.
  intros Hr Hh Hev Hfl P H i res Hi Hres.
  destruct (sink_grows _ _ _ _ _ Hr Hev Hfl H) as [_ [m Hm]].
  destruct (step_futures _ _ _ _ _ H)
    as [[Heq _]|(k & [(Hk & Hf & _)|[(Hk & o & Hf & w & io & ->)
                                     |(Hk & Hf & _)]])].
  - rewrite Heq in Hi. rewrite Hm. apply noted_app. eauto.
  - rewrite Hf in Hi. apply list_lookup_insert_Some in Hi.
    destruct Hi as [(_ & Hi & _)|[_ Hi]]; [discriminate|].
    rewrite Hm. apply noted_app. eauto.
  - cbn [clean_event] in Hev.
    destruct (finish_clean _ _ _ _ _ _ _ (or_intror Hev) H)
      as (target & _ & _ & Hf' & _ & _ & Hs).
    destruct (Hs Hfl) as [_ Hs'].
    rewrite Hf' in Hi. apply list_lookup_insert_Some in Hi.
    destruct Hi as [(_ & Hi & _)|[_ Hi]];
      [|rewrite Hm; apply noted_app; eauto].
    rewrite Hs'. unfold records. rewrite Hh. unfold noted.
    unfold worker_outcome, worker_log in *.
    destruct (budget r) as [g|e]; [|discriminate].
    destruct (cwd_logged w) as [d|text]; [|discriminate].
    destruct (answer r target w g) as [rc out err| |text];
      cbn [outcome_of] in Hi; simplify_eq;
      cbn [worker_messages FuzzResult.target FuzzResult.error
           FuzzResult.success] in *.
    + rewrite Hres. left. apply in_or_app. right. now left.
    + right. apply in_or_app. right. now left.
    + right. apply in_or_app. right. now left.
  - rewrite Hf in Hi. apply list_lookup_insert_Some in Hi.
    destruct Hi as [(_ & Hi & _)|[_ Hi]]; [discriminate|].
    rewrite Hm. apply noted_app. eauto.
Qed.

(** X10: with an error file configured and no write raising, every
    target that has produced a failing outcome has a record of its own in
    the error file (its failure line, or its timeout or exception
    message), whether or not the loop has processed that outcome. *)
Theorem every_failure_leaves_a_record (config : FuzzConfig.t)
        (cpu_count : option Z) (targets : list FuzzTarget.t)
        (schedule : list Event) (sink0 : list string) (st : State)
        (i : nat) (res : FuzzResult.t) :
  truthy_opt (FuzzConfig.error_file config) = true ->
  forallb clean_event schedule = true ->
  exec (FuzzRunner.init config cpu_count) targets (start targets sink0)
       schedule = Some st ->
  futures st !! i = Some (Done (Ok res)) ->
  FuzzResult.success res = false ->
  In (error_record (failed_msg (FuzzResult.target res))) (sink st)
  \/ In (error_record (FuzzResult.error res)) (sink st).
Proof.
  set (r := FuzzRunner.init config cpu_count). intros Hfile Hs H.
  pose proof (init_consistent config cpu_count) as Hr. fold r in Hr.
  cut (flushed st /\ failures_noted st).
  { intros [_ Hn]. exact (Hn i res). }
  refine (exec_invariant r targets clean_event
            (fun st => flushed st /\ failures_noted st)
            _ schedule _ st Hs _ H).
  - intros st0 ev st1 Hev [Hfl Hn] Hstep. split.
    + now destruct (sink_grows _ _ _ _ _ Hr Hev Hfl Hstep).
    + eapply failures_noted_step; eauto.
  - split; [reflexivity|]. intros j res' Hj. cbn [futures start] in Hj.
    rewrite list_lookup_fmap in Hj. destruct (targets !! j); discriminate.
Qed.

Lemma every_failure_leaves_a_record_witness :
  let schedule :=
    [Dispatch 0; Dispatch 1; Finish 0 failing []; Collect 0 [];
     Cancel; Cancel; Cancel;
     Finish 1 (env_of (Completed 1 "FAIL" "panic: boom")) []; Exit] in
  let st := state_after (FuzzRunner.init stop_logging_config (Some 8))
              [target_a; target_b] schedule in
  In (error_record
        (failed_msg
           (FuzzResult.target (result_of target_b failing "panic: boom"))))
     (sink st)
  \/ In (error_record
           (FuzzResult.error (result_of target_b failing "panic: boom")))
        (sink st).
Proof.
  apply (every_failure_leaves_a_record stop_logging_config (Some 8)
           [target_a; target_b]
           [Dispatch 0; Dispatch 1; Finish 0 failing []; Collect 0 [];
            Cancel; Cancel; Cancel;
            Finish 1 (env_of (Completed 1 "FAIL" "panic: boom")) []; Exit]
           [] _ 1%nat).
  - reflexivity.
  - reflexivity.
  - vm_compute. reflexivity.
  - vm_compute. reflexivity.
  - reflexivity.
Defined.

(** ** A run in which every target passes *)

Lemma passing_worker (r : FuzzRunner.t) (target : FuzzTarget.t)
      (w : WorkerEnv) (i : nat) (io : list (option Fault)) :
  0 < FuzzRunner.jobs r ->
  passing_event (Finish i w io) ->
  worker_log r target w = []
  /\ exists res, worker_outcome r target w = Ok res
                 /\ FuzzResult.success res = true.
Proof.
  intros Hpos (_ & [d Hd] & [d' Hd'] & Hproc).
  pose proof (budget_positive r Hpos) as Hg.
  unfold worker_log, worker_outcome, answer. rewrite Hg, Hd, Hd'.
  destruct (Hproc (launch r target (go_mod w)
                     (Z.max 1 (FuzzRunner.cpu_cores r / FuzzRunner.jobs r))
                     d')) as (out & err & ->).
  cbn. eauto.
Qed.

Lemma all_passed_step (r : FuzzRunner.t) (targets : list FuzzTarget.t)
      (st st' : State) (ev : Event) :
  consistent r -> 0 < FuzzRunner.jobs r -> passing_event ev ->
  all_passed st -> step r targets st ev = Some st' -> all_passed st'.
Proof.
  intros Hr Hpos Hev [Hf Hd] H. destruct ev.
  - step_inv H. split; [exact Hf|]. cbn [futures set_futures].
    intros j o Hj. apply list_lookup_insert_Some in Hj.
    destruct Hj as [(_ & Hj & _)|[_ Hj]]; [discriminate|eauto].
  - pose proof Hev as (Hio & _).
    destruct (finish_clean _ _ _ _ _ _ _ (or_intror Hio) H)
      as (target & _ & _ & Hf' & _ & Hfl' & _).
    split; [lia|]. rewrite Hf'. intros j o Hj.
    apply list_lookup_insert_Some in Hj.
    destruct Hj as [(_ & Hj & _)|[_ Hj]]; [|eauto].
    destruct (passing_worker r target w i io Hpos Hev) as (_ & res & Ho & Hs).
    simplify_eq. eauto.
  - cbn [passing_event] in Hev.
    destruct (collect_clean _ _ _ _ _ _ Hr (or_intror Hev) H)
      as (o & _ & Hi & _ & Hf' & _ & _ & _ & Hfl' & _).
    unfold all_passed. rewrite Hf'. split; [|exact Hd].
    destruct (Hd i o Hi) as (res & -> & Hres). cbn [failed_gain] in Hfl'.
    rewrite Hres in Hfl'. lia.
  - split.
    + assert (Hne : forall i io, Cancel <> Collect i io) by discriminate.
      destruct (other_steps_keep _ _ _ _ _ Hne H) as (_ & _ & Hk). lia.
    + step_inv H; cbn [futures set_futures set_phase]; auto.
      intros j o Hj. apply list_lookup_insert_Some in Hj.
      destruct Hj as [(_ & Hj & _)|[_ Hj]]; [discriminate|eauto].
  - step_inv H; now split.
  - step_inv H; now split.
Qed.

Lemma all_quiet_step (r : FuzzRunner.t) (targets : list FuzzTarget.t)
      (sink0 : list string) (st st' : State) (ev : Event) :
  consistent r -> 0 < FuzzRunner.jobs r -> undisturbed ev ->
  all_quiet sink0 st -> step r targets st ev = Some st' ->
  all_quiet sink0 st'.
Proof.
  intros Hr Hpos [Hev Hni] (Hall & Hsink & Hfl & Hreg) H.
  split; [eapply all_passed_step; eauto|].
  destruct ev.
  - step_inv H. now repeat split.
  - pose proof Hev as (Hio & _).
    destruct (finish_clean _ _ _ _ _ _ _ (or_intror Hio) H)
      as (target & _ & _ & _ & _ & _ & Hs).
    destruct (Hs Hfl) as [Hfl' Hs'].
    destruct (passing_worker r target w i io Hpos Hev) as (Hlog & _).
    rewrite Hlog, records_nil, app_nil_r in Hs'.
    split; [congruence|]. split; [exact Hfl'|].
    step_inv H. exact Hreg.
  - cbn [passing_event] in Hev.
    destruct (collect_clean _ _ _ _ _ _ Hr (or_intror Hev) H)
      as (o & _ & Hi & _ & _ & _ & Hp' & _ & _ & _ & Hs).
    destruct (Hs Hfl) as [Hfl' Hs'].
    destruct Hall as [_ Hd]. destruct (Hd i o Hi) as (res & -> & Hres).
    cbn [loop_messages loop_flag] in *. rewrite Hres in *.
    rewrite records_nil, app_nil_r in Hs'. cbn in Hp'.
    split; [congruence|]. split; [exact Hfl'|]. now rewrite Hp'.
  - step_inv H; now repeat split.
  - now destruct Hni.
  - step_inv H; cbn [sink phase set_phase] in *;
      (split; [reflexivity|]); (split; [exact Hfl|]); try reflexivity.
    match goal with
    | e : option Exn |- _ => now destruct e
    end.
Qed.

(** X11: when every worker finds its working directory, every external
    command exits with status 0, no write raises and the main thread is
    not interrupted, [run] returns 0 and the error file stays empty. *)
Theorem all_targets_pass_exit_zero (config : FuzzConfig.t)
        (cpu_count : option Z) (cls : Classes) (tree : Tree)
        (schedule : list Event) (io : list (option Fault)) (code : Z)
        (sink2 : list string) :
  Forall undisturbed schedule ->
  run (FuzzRunner.init config cpu_count) cls tree NoSignal schedule io
  = Some (code, sink2) ->
  code = 0 /\ sink2 = [].
Proof.
  set (r := FuzzRunner.init config cpu_count). intros Hs H.
  unfold run, run_fuzz_tests in H.
  destruct (discover_fuzz_targets cls tree) as [|t ts] eqn:Ht.
  - cbn in H. now simplify_eq.
  - destruct (exec r (t :: ts) (start (t :: ts) []) schedule) as [st|] eqn:E;
      [|discriminate].
    assert (Hq : all_quiet [] st).
    { clear H.
      assert (Hstart : all_quiet [] (start (t :: ts) [])).
      { split; [split; [reflexivity|]|repeat split; reflexivity].
        intros i o Hi. cbn [futures start] in Hi.
        rewrite list_lookup_fmap in Hi.
        destruct ((t :: ts) !! i); discriminate. }
      revert Hstart E. generalize (start (t :: ts) []).
      induction Hs as [|ev rest Hev Hrest IH]; intros st0 Hq0 E;
        cbn [exec] in E.
      - now simplify_eq.
      - destruct (step r (t :: ts) st0 ev) as [st1|] eqn:E1; [|discriminate].
        apply (IH st1); [|exact E].
        eapply all_quiet_step; eauto.
        + apply init_consistent.
        + apply init_jobs_positive. }
    destruct Hq as ([Hf _] & Hsink & Hfl & Hreg).
    destruct (phase st) as [| | |[e|]]; try discriminate.
    unfold flushed in Hfl. rewrite Hf, Hsink, Hfl in H. cbn in H.
    now simplify_eq.
Qed.

Lemma all_targets_pass_exit_zero_witness :
  0 = 0 /\ @nil string = [].
Proof.
  apply (all_targets_pass_exit_zero logging_config (Some 4) latin1
           one_target_tree
           [Dispatch 0; Finish 0 passing []; Collect 0 []; Exit] []).
  - repeat constructor; try discriminate; try (now eexists).
    intros l. exists "ok", "". reflexivity.
  - vm_compute. reflexivity.
Defined.

(** ** The configuration from the environment and the command line *)

Lemma parsed_fields
        (int : string -> Outcome Z) (environ : gmap string string)
        (args : Cli.Args) (config : FuzzConfig.t) :
  Cli.from_env_and_args int environ args = Ok config ->
  (FuzzConfig.fuzz_time config
   = match Cli.time args, environ !! "FUZZ_TIME" with
     | Some t, _ => t
     | None, Some s => match int s with Ok n => n | Raise _ => 0 end
     | None, None => 10
     end)
  /\ (FuzzConfig.jobs config
      = match Cli.jobs args, environ !! "FUZZ_JOBS" with
        | Some j, _ => j
        | None, Some s =>
            if truthy s then match int s with Ok n => n | Raise _ => 0 end
            else 0
        | None, None => 0
        end)
  /\ (FuzzConfig.error_file config
      = match Cli.error_file args, environ !! "FUZZ_ERROR_FILE" with
        | Some f, _ => Some f
        | None, Some s => Some s
        | None, None => None
        end)
  /\ (FuzzConfig.config_dir config
      = match Cli.config_dir args, environ !! "FUZZ_CONFIG_DIR" with
        | Some d, _ => d
        | None, Some s => s
        | None, None => "./shared"
        end)
  /\ (FuzzConfig.continue_on_failure config
      = Cli.continue_on_failure args
        || Cli.env_flag environ "FUZZ_CONTINUE_ON_FAILURE")
  /\ (FuzzConfig.verbose config
      = Cli.verbose args || Cli.env_flag environ "FUZZ_VERBOSE").
Proof.
  unfold Cli.from_env_and_args. intros H.
  destruct (environ !! "FUZZ_TIME") as [st|];
    [destruct (int st) as [nt|] eqn:Et; [|discriminate]|];
    (destruct (environ !! "FUZZ_JOBS") as [sj|];
     [destruct (truthy sj);
      [destruct (int sj) as [nj|] eqn:Ej; [|discriminate]|]|]);
    simplify_eq;
    cbn [FuzzConfig.fuzz_time FuzzConfig.jobs FuzzConfig.error_file
         FuzzConfig.config_dir FuzzConfig.continue_on_failure
         FuzzConfig.verbose FuzzConfig.init];
    repeat split;
    repeat match goal with
           | |- context [match ?x with _ => _ end] => destruct x
           end; reflexivity.
Qed.

(** X15: in a configuration that [from_env_and_args] returns, an option
    given on the command line wins over the environment variable, and the
    environment variable over the default; the two switches can only
    turn their flag on: each flag is set when the switch is given or the
    variable reads [true] in any letter case. *)
Theorem command_line_over_environment_over_default
        (int : string -> Outcome Z) (environ : gmap string string)
        (args : Cli.Args) (config : FuzzConfig.t) :
  Cli.from_env_and_args int environ args = Ok config ->
  (FuzzConfig.fuzz_time config
   = match Cli.time args, environ !! "FUZZ_TIME" with
     | Some t, _ => t
     | None, Some s => match int s with Ok n => n | Raise _ => 0 end
     | None, None => 10
     end)
  /\ (FuzzConfig.jobs config
      = match Cli.jobs args, environ !! "FUZZ_JOBS" with
        | Some j, _ => j
        | None, Some s =>
            if truthy s then match int s with Ok n => n | Raise _ => 0 end
            else 0
        | None, None => 0
        end)
  /\ (FuzzConfig.error_file config
      = match Cli.error_file args, environ !! "FUZZ_ERROR_FILE" with
        | Some f, _ => Some f
        | None, Some s => Some s
        | None, None => None
        end)
  /\ (FuzzConfig.config_dir config
      = match Cli.config_dir args, environ !! "FUZZ_CONFIG_DIR" with
        | Some d, _ => d
        | None, Some s => s
        | None, None => "./shared"
        end)
  /\ (FuzzConfig.continue_on_failure config
      = Cli.continue_on_failure args
        || Cli.env_flag environ "FUZZ_CONTINUE_ON_FAILURE")
  /\ (FuzzConfig.verbose config
      = Cli.verbose args || Cli.env_flag environ "FUZZ_VERBOSE").
Proof. apply parsed_fields. Qed.

Lemma sample_config_parsed :
  Cli.from_env_and_args sample_int sample_environ sample_args
  = Ok sample_config.
Proof. vm_compute. reflexivity. Qed.

Lemma command_line_over_environment_over_default_witness :
  (FuzzConfig.fuzz_time sample_config
   = match Cli.time sample_args, sample_environ !! "FUZZ_TIME" with
     | Some t, _ => t
     | None, Some s => match sample_int s with Ok n => n | Raise _ => 0 end
     | None, None => 10
     end)
  /\ (FuzzConfig.jobs sample_config
      = match Cli.jobs sample_args, sample_environ !! "FUZZ_JOBS" with
        | Some j, _ => j
        | None, Some s =>
            if truthy s
            then match sample_int s with Ok n => n | Raise _ => 0 end
            else 0
        | None, None => 0
        end)
  /\ (FuzzConfig.error_file sample_config
      = match Cli.error_file sample_args,
              sample_environ !! "FUZZ_ERROR_FILE" with
        | Some f, _ => Some f
        | None, Some s => Some s
        | None, None => None
        end)
  /\ (FuzzConfig.config_dir sample_config
      = match Cli.config_dir sample_args,
              sample_environ !! "FUZZ_CONFIG_DIR" with
        | Some d, _ => d
        | None, Some s => s
        | None, None => "./shared"
        end)
  /\ (FuzzConfig.continue_on_failure sample_config
      = Cli.continue_on_failure sample_args
        || Cli.env_flag sample_environ "FUZZ_CONTINUE_ON_FAILURE")
  /\ (FuzzConfig.verbose sample_config
      = Cli.verbose sample_args || Cli.env_flag sample_environ "FUZZ_VERBOSE").
Proof.
  apply (command_line_over_environment_over_default sample_int sample_environ
           sample_args sample_config).
  vm_compute. reflexivity.
Defined.

(** X16: a number of the environment that [int] rejects makes
    [from_env_and_args] raise whatever the command line says, also when
    the command line gives that very option: FUZZ_TIME always, FUZZ_JOBS
    when it is not empty and FUZZ_TIME went through. *)
Theorem bad_environment_number_raises (int : string -> Outcome Z)
        (environ : gmap string string) (args : Cli.Args)
        (key text : string) (e : Exn) :
  environ !! key = Some text ->
  int text = Raise e ->
  key = "FUZZ_TIME"
  \/ (key = "FUZZ_JOBS" /\ truthy text = true
      /\ match environ !! "FUZZ_TIME" with
         | Some s => exists n, int s = Ok n
         | None => True
         end) ->
  Cli.from_env_and_args int environ args = Raise e.
Proof.
  intros Hk He [->|(-> & Ht & Htime)]; unfold Cli.from_env_and_args.
  - now rewrite Hk, He.
  - rewrite Hk, Ht, He.
    destruct (environ !! "FUZZ_TIME") as [s|]; [|reflexivity].
    destruct Htime as [n ->]. reflexivity.
Qed.

Lemma bad_environment_number_raises_witness :
  Cli.from_env_and_args sample_int (<["FUZZ_TIME" := "ten"]> sample_environ)
    {| Cli.time := Some 5; Cli.jobs := None; Cli.error_file := None;
       Cli.continue_on_failure := false; Cli.verbose := false;
       Cli.config_dir := None |}
  = Raise (Exception "invalid literal for int() with base 10: 'ten'").
Proof.
  apply (bad_environment_number_raises sample_int
           (<["FUZZ_TIME" := "ten"]> sample_environ) _ "FUZZ_TIME" "ten").
  - vm_compute. reflexivity.
  - reflexivity.
  - left. reflexivity.
Defined.

Lemma env_flag_delete (environ : gmap string string) (key other : string) :
  key <> other ->
  Cli.env_flag (delete other environ) key = Cli.env_flag environ key.
Proof.
  intros Hne. unfold Cli.env_flag. now rewrite lookup_delete_ne.
Qed.

(** X17: an empty FUZZ_JOBS is never converted: the call does what it
    does with the variable unset. *)
Theorem empty_jobs_variable_is_ignored (int : string -> Outcome Z)
        (environ : gmap string string) (args : Cli.Args) :
  environ !! "FUZZ_JOBS" = Some "" ->
  Cli.from_env_and_args int environ args
  = Cli.from_env_and_args int (delete "FUZZ_JOBS" environ) args.
Proof.
  intros Hj. unfold Cli.from_env_and_args.
  rewrite Hj, lookup_delete_eq.
  rewrite !lookup_delete_ne by discriminate.
  rewrite !env_flag_delete by discriminate.
  reflexivity.
Qed.

Lemma empty_jobs_variable_is_ignored_witness :
  Cli.from_env_and_args sample_int sample_environ no_args
  = Cli.from_env_and_args sample_int (delete "FUZZ_JOBS" sample_environ)
      no_args.
Proof.
  apply (empty_jobs_variable_is_ignored sample_int sample_environ no_args).
  vm_compute. reflexivity.
Defined.

(** X18: for the runner built from a configuration that
    [from_env_and_args] returns, a positive [-j] is the worker count
    whatever the environment and the core count; when [-j] is absent and
    FUZZ_JOBS is unset or empty the worker count is 1, 2 or 4. *)
Theorem worker_count_from_command_line (int : string -> Outcome Z)
        (environ : gmap string string) (args : Cli.Args)
        (config : FuzzConfig.t) (cpu_count : option Z) :
  Cli.from_env_and_args int environ args = Ok config ->
  let r := FuzzRunner.init config cpu_count in
  (forall n, Cli.jobs args = Some n -> 0 < n -> FuzzRunner.jobs r = n)
  /\ (Cli.jobs args = None ->
      environ !! "FUZZ_JOBS" = None \/ environ !! "FUZZ_JOBS" = Some "" ->
      FuzzRunner.jobs r = 1 \/ FuzzRunner.jobs r = 2 \/ FuzzRunner.jobs r = 4).
Proof.
  intros H r.
  destruct (parsed_fields int environ args config H) as (_ & Hjobs & _).
  subst r. cbn [FuzzRunner.init FuzzRunner.jobs].
  unfold FuzzRunner._determine_jobs. rewrite Hjobs. split.
  - intros n -> Hn. destruct (n >? 0) eqn:E; [reflexivity|lia].
  - intros -> [->| ->]; cbn;
      destruct (int_or cpu_count 4 >? 8); auto;
      destruct (int_or cpu_count 4 >? 4); auto.
Qed.

Lemma worker_count_from_command_line_witness :
  (forall n, Cli.jobs sample_args = Some n -> 0 < n ->
             FuzzRunner.jobs (FuzzRunner.init sample_config (Some 2)) = n)
  /\ (Cli.jobs sample_args = None ->
      sample_environ !! "FUZZ_JOBS" = None
      \/ sample_environ !! "FUZZ_JOBS" = Some "" ->
      FuzzRunner.jobs (FuzzRunner.init sample_config (Some 2)) = 1
      \/ FuzzRunner.jobs (FuzzRunner.init sample_config (Some 2)) = 2
      \/ FuzzRunner.jobs (FuzzRunner.init sample_config (Some 2)) = 4).
Proof.
  apply (worker_count_from_command_line sample_int sample_environ sample_args
           sample_config (Some 2)).
  vm_compute. reflexivity.
Defined.

(** ** Runs without an error file *)

Lemma sink_step_without_file (r : FuzzRunner.t) (targets : list FuzzTarget.t)
      (st st' : State) (ev : Event) :
  consistent r -> FuzzRunner.error_file_handle r = false ->
  flushed st ->
  step r targets st ev = Some st' -> flushed st' /\ sink st' = sink st.
Proof.
  intros Hr Hh Hfl H.
  assert (Hnil : forall m, records r m = []).
  { intros m. unfold records. now rewrite Hh. }
  destruct ev.
  - now step_inv H.
  - destruct (finish_clean _ _ _ _ _ _ _ (or_introl Hh) H)
      as (target & _ & _ & _ & _ & _ & Hs).
    destruct (Hs Hfl) as [Hfl' ->]. now rewrite Hnil, app_nil_r.
  - destruct (collect_clean _ _ _ _ _ _ Hr (or_introl Hh) H)
      as (o & _ & _ & _ & _ & _ & _ & _ & _ & _ & Hs).
    destruct (Hs Hfl) as [Hfl' ->]. now rewrite Hnil, app_nil_r.
  - now step_inv H.
  - now step_inv H.
  - now step_inv H.
Qed.

(** X19: when no error file is configured nothing the sink could do
    matters: in every run [completed] never exceeds the number of
    targets, it is the number of outcomes handed to the loop as long as
    no exception is in flight, the error file stays as it was, and with
    continue_on_failure set a run that ends normally has counted every
    target once. *)
Theorem without_error_file_counts_are_exact (config : FuzzConfig.t)
        (cpu_count : option Z) (targets : list FuzzTarget.t)
        (schedule : list Event) (sink0 : list string) (st : State) :
  truthy_opt (FuzzConfig.error_file config) = false ->
  exec (FuzzRunner.init config cpu_count) targets (start targets sink0)
       schedule = Some st ->
  completed st <= Z.of_nat (List.length targets)
  /\ (regular (phase st) = true ->
      completed st = Z.of_nat (List.length (yielded st)))
  /\ sink st = sink0
  /\ (FuzzConfig.continue_on_failure config = true ->
      phase st = Ended None ->
      completed st = Z.of_nat (List.length targets)).
Proof.
  set (r := FuzzRunner.init config cpu_count). intros Hfile H.
  pose proof (init_consistent config cpu_count) as Hr. fold r in Hr.
  assert (Hh : FuzzRunner.error_file_handle r = false) by exact Hfile.
  assert (Hcount : counted st).
  { refine (exec_invariant r targets (fun _ => true) counted
              _ schedule _ st (forallb_always _) _ H).
    - intros st0 ev st1 _. apply counted_step; [exact Hr|now left].
    - split; reflexivity. }
  pose proof (well_formed_exec _ _ _ _ _ H) as Hwf.
  pose proof (yielded_bounded _ _ Hwf) as Hy.
  destruct Hcount as [Hle Heq].
  split; [lia|]. split; [exact Heq|]. split.
  - cut (flushed st /\ sink st = sink0); [tauto|].
    refine (exec_invariant r targets (fun _ => true)
              (fun s => flushed s /\ sink s = sink0)
              _ schedule _ st (forallb_always _) _ H).
    + intros st0 ev st1 _ [Hfl Hs] Hstep.
      destruct (sink_step_without_file _ _ _ _ _ Hr Hh Hfl Hstep)
        as [Hfl' Hs'].
      split; [exact Hfl'|congruence].
    + split; reflexivity.
  - intros Hc Hp.
    assert (Hend : runs_to_end st).
    { refine (exec_invariant r targets (fun _ => true) runs_to_end
                _ schedule _ st (forallb_always _) _ H).
      - intros st0 ev st1 _. now apply runs_to_end_step.
      - exact I. }
    unfold runs_to_end in Hend. rewrite Hp in *. cbn in Heq.
    destruct Hwf as (Hlen & _).
    rewrite Heq by reflexivity. now rewrite Hend, Hlen.
Qed.

Lemma without_error_file_counts_are_exact_witness :
  let schedule := [Dispatch 0;
                   Finish 0 failing [Some (WriteRaises encoding_error)];
                   Collect 0 [Some (WriteRaises encoding_error)]] in
  let st := state_after stop_runner [target_a; target_b] schedule in
  completed st <= Z.of_nat (List.length [target_a; target_b])
  /\ (regular (phase st) = true ->
      completed st = Z.of_nat (List.length (yielded st)))
  /\ sink st = []
  /\ (FuzzConfig.continue_on_failure stop_config = true ->
      phase st = Ended None ->
      completed st = Z.of_nat (List.length [target_a; target_b])).
Proof.
  apply (without_error_file_counts_are_exact stop_config (Some 2)
           [target_a; target_b]
           [Dispatch 0; Finish 0 failing [Some (WriteRaises encoding_error)];
            Collect 0 [Some (WriteRaises encoding_error)]] []).
  - reflexivity.
  - vm_compute. reflexivity.
Defined.

(** ** What [run] returns without targets *)

(** X21: a tree in which no listed file can be read and holds a fuzz
    function gives no target, and then [run] starts no pool and writes
    nothing to the error file, whatever the runner and whatever would
    have happened in the pool: it returns 0, or 130 when
    [KeyboardInterrupt] reaches the main thread before it returns. *)
Theorem no_target_run_succeeds (r : FuzzRunner.t) (cls : Classes)
        (tree : Tree) (signal : Signal) (schedule : list Event)
        (io : list (option Fault)) :
  (forall p, In p (glob tree) ->
             match read tree p with
             | Some content => search cls content = false
             | None => True
             end) ->
  discover_fuzz_targets cls tree = []
  /\ run r cls tree signal schedule io
     = Some (match signal with NoSignal => 0 | _ => 130 end, []).
Proof.
  intros H.
  assert (Hf : fuzz_files cls tree = []).
  { unfold fuzz_files.
    induction (glob tree) as [|p ps IH]; [reflexivity|].
    cbn [List.filter].
    assert (Hp := H p (or_introl eq_refl)).
    destruct (read tree p) as [content|].
    - rewrite Hp. apply IH. intros q Hq. apply H. now right.
    - apply IH. intros q Hq. apply H. now right. }
  assert (Hd : discover_fuzz_targets cls tree = []).
  { unfold discover_fuzz_targets. now rewrite Hf. }
  split; [exact Hd|].
  unfold run. rewrite Hd. destruct signal; reflexivity.
Qed.

Lemma no_target_run_succeeds_witness :
  let tree := tree_of [("a_test.go", Some "package a");
                       ("b_test.go", None)] in
  discover_fuzz_targets latin1 tree = []
  /\ run logging_runner latin1 tree NoSignal [Dispatch 0; Exit]
         [Some (WriteRaises encoding_error)]
     = Some (0, []).
Proof.
  apply (no_target_run_succeeds logging_runner latin1
           (tree_of [("a_test.go", Some "package a"); ("b_test.go", None)])
           NoSignal [Dispatch 0; Exit] [Some (WriteRaises encoding_error)]).
  intros p [<-|[<-|[]]]; vm_compute; auto.
Defined.

(** A fuzz function after a no-break space is found, and an interrupt
    during discovery gives 130. *)
Example discovery_after_no_break_space :
  let tree := tree_of [("a_test.go",
                        Some (String "f" (String "u" (String "n" (String "c"
                                (String (ascii_of_nat 160)
                                   "FuzzA(f *testing.F) {}"))))))] in
  map FuzzTarget.function (discover_fuzz_targets latin1 tree) = ["FuzzA"]
  /\ run logging_runner latin1 tree BeforePool [] [] = Some (130, []).
Proof. vm_compute. split; reflexivity. Qed.
